(** * vvector: a type-erased dynamic array with pluggable allocators

    Shallow embedding of [src/vvector.c] and [src/vvector.h].

    Modelling conventions.
    - [ptrdiff_t] values are integers ([Z]); C's [/] and [%] are
      [Z.quot] and [Z.rem] (truncation toward zero).  The size that
      [vvectorReserve] computes from its count, the one integer of a
      run that a caller chooses freely, is computed as the 64-bit
      machine computes it, wrapping around ([ptrdiff_mul],
      [ptrdiff_add]).  The other size computations are on capacities of
      blocks that exist and on element sizes; the development covers
      runs in which these stay in the [ptrdiff_t] range.
    - Sizes are those of an LP64 platform: [sizeof(ptrdiff_t) = 8],
      [sizeof(void * ) = 8].
    - The heap is explicit: handle cells ([uint8_t *] objects reached
      through a [vvector]), buffer blocks, and caller-owned allocator
      descriptors live in finite maps indexed by address.
    - A buffer block is a record: the metadata struct, the allocator
      descriptor stored right after it (when one was written there), and
      the bytes that follow.
    - Allocator functions are opaque code: a call is logged, and an
      oracle, which sees the log and the call, says whether it returns a
      block or NULL.  A successful reallocation keeps the common prefix
      of the block's bytes and leaves added bytes indeterminate; a
      second oracle says whether it moves the block to a fresh address.
      A failed reallocation leaves the block as it was.
    - Helper functions of the source take the block [*vec] that their
      caller has already found valid; there [vvectorGetLength(vec)] is
      the length field and [vvectorIsEmpty(vec)] tests it against 0.
    - Any access the model cannot represent (a NULL or dangling
      dereference, a read or write outside the bytes after the header,
      a division by zero) yields [Fault].  The header is a record, not
      bytes: a copy that a negative index makes the code carry out
      inside the header is such an access, and what is proved of
      writes, insertions and removals is proved for indices that are
      not negative. *)

From Stdlib Require Import ZArith Lia Bool.
From stdpp Require Import base option list gmap.

Local Open Scope Z_scope.

(** ** Constants *)

Definition NR_ELEM_IN_PAGE : Z := 32.

Definition VEC_ENOMEM : Z := 0.
Definition VEC_ENOVEC : Z := 1.
Definition VEC_EBADINDEX : Z := 2.
Definition VEC_ENOVALUE : Z := 3.
Definition VEC_ESEVERE : Z := 99.

Definition sizeof_ptrdiff_t : Z := 8.
Definition sizeof_pointer : Z := 8.

(** The range of [ptrdiff_t], and two's-complement wrap-around into
    it. *)
Definition PTRDIFF_MAX : Z := 9223372036854775807.
Definition PTRDIFF_MIN : Z := -9223372036854775808.

(** [(z + 2^63) mod 2^64 - 2^63] *)
Definition wrap (z : Z) : Z :=
  (z + 9223372036854775808) `mod` 18446744073709551616
  - 9223372036854775808.

Definition ptrdiff_add (a b : Z) : Z := wrap (a + b).
Definition ptrdiff_mul (a b : Z) : Z := wrap (a * b).

Arguments wrap : simpl never.
Arguments ptrdiff_add : simpl never.
Arguments ptrdiff_mul : simpl never.

(** ** Data *)

(** [struct vvectorMetadata_] *)
Module Meta.
Record t : Type := mk {
  capacity : Z;
  length : Z;
  element_size : Z
}.
End Meta.
Abbreviation vvectorMetadata_ := Meta.t.

Definition sizeof_vvectorMetadata_ : Z := 3 * sizeof_ptrdiff_t.

(** A non-null function pointer: the library default for the slot it is
    stored in ([vvector_lib_malloc], [vvector_lib_free],
    [vvector_lib_realloc]), or some function of the caller. *)
Inductive fnref : Type :=
| lib_fn
| user_fn (id : nat).

Definition vvector_lib_malloc : fnref := lib_fn.
Definition vvector_lib_free : fnref := lib_fn.
Definition vvector_lib_realloc : fnref := lib_fn.

(** [struct vvectorAlloc]; [None] is a NULL function pointer, [ctx] is an
    address (0 for NULL). *)
Record vvectorAlloc : Type := mkAlloc {
  malloc_fn : option fnref;
  free_fn : option fnref;
  realloc_fn : option fnref;
  ctx : Z
}.

Definition sizeof_vvectorAlloc : Z := 4 * sizeof_pointer.

(** One byte of memory; [None] is an indeterminate byte. *)
Definition cell : Type := option Byte.byte.

(** A buffer block. *)
Record buffer : Type := mkBuffer {
  meta : vvectorMetadata_;
  descr : option vvectorAlloc;
  data : list cell
}.

(** Calls into allocator functions. *)
Inductive event : Type :=
| EvMalloc (f : fnref) (size : Z) (c : Z)
| EvRealloc (f : fnref) (p : nat) (new_size old_size : Z) (c : Z)
| EvFree (f : fnref) (p : nat) (size : Z) (c : Z).

Record World : Type := mkWorld {
  cells : gmap nat (option nat);
  blocks : gmap nat buffer;
  descs : gmap nat vvectorAlloc;
  next : nat;
  log : list event
}.

(** [vvector]: NULL or the address of a handle cell. *)
Definition vvector : Type := option nat.

Inductive outcome (A : Type) : Type :=
| Ret (a : A) (w : World)
| Fault.
Arguments Ret {A} a w.
Arguments Fault {A}.

Definition empty_world : World :=
  {| cells := ∅; blocks := ∅; descs := ∅; next := 1%nat; log := [] |}.

Definition store_cell (w : World) (h : nat) (v : option nat) : World :=
  {| cells := <[h := v]> (cells w); blocks := blocks w; descs := descs w;
     next := next w; log := log w |}.

Definition store_block (w : World) (p : nat) (b : buffer) : World :=
  {| cells := cells w; blocks := <[p := b]> (blocks w); descs := descs w;
     next := next w; log := log w |}.

Definition store_desc (w : World) (d : nat) (a : vvectorAlloc) : World :=
  {| cells := cells w; blocks := blocks w; descs := <[d := a]> (descs w);
     next := next w; log := log w |}.

Definition set_meta (b : buffer) (m : vvectorMetadata_) : buffer :=
  {| meta := m; descr := descr b; data := data b |}.

Definition set_data (b : buffer) (d : list cell) : buffer :=
  {| meta := meta b; descr := descr b; data := d |}.

Definition set_capacity (m : vvectorMetadata_) (c : Z) : vvectorMetadata_ :=
  {| Meta.capacity := c; Meta.length := Meta.length m;
     Meta.element_size := Meta.element_size m |}.

Definition set_length (m : vvectorMetadata_) (l : Z) : vvectorMetadata_ :=
  {| Meta.capacity := Meta.capacity m; Meta.length := l;
     Meta.element_size := Meta.element_size m |}.

(** What [!vec || !*vec] and the dereferences that follow find. *)
Inductive handle_state : Type :=
| HInvalid
| HDangling
| HValid (h p : nat) (b : buffer).

Definition deref (w : World) (vec : vvector) : handle_state :=
  match vec with
  | None => HInvalid
  | Some h =>
      match cells w !! h with
      | None => HDangling
      | Some None => HInvalid
      | Some (Some p) =>
          match blocks w !! p with
          | None => HDangling
          | Some b => HValid h p b
          end
      end
  end.

(** ** Block layout *)

(** Bytes occupied before [data]. *)
Definition phys_header (b : buffer) : Z :=
  sizeof_vvectorMetadata_ +
  (match descr b with Some _ => sizeof_vvectorAlloc | None => 0 end).

Definition block_size (b : buffer) : Z :=
  phys_header b + Z.of_nat (length (data b)).

Definition valid_pointer (b : buffer) (off : Z) : bool :=
  (0 <=? off) && (off <=? block_size b).

Definition in_data (b : buffer) (off n : Z) : bool :=
  (phys_header b <=? off) && (off + n <=? block_size b).

(** What libc's [memmove] and [memcpy] do to the bytes after the header:
    [k] bytes from offset [j] (or from another object [v]) land at
    offset [i]. *)
Definition move_bytes {A : Type} (d : list A) (i j k : nat) : list A :=
  take i d ++ take k (drop j d) ++ drop (i + k) d.

Definition write_bytes {A : Type} (d : list A) (i : nat) (v : list A)
    (k : nat) : list A :=
  take i d ++ take k v ++ drop (i + k) d.

(** [memmove(block + dst, block + src, n)]. *)
Definition memmove (b : buffer) (dst src n : Z) : option buffer :=
  if n =? 0 then
    if valid_pointer b dst && valid_pointer b src then Some b else None
  else if (0 <? n) && in_data b dst n && in_data b src n then
    let i := Z.to_nat (dst - phys_header b) in
    let j := Z.to_nat (src - phys_header b) in
    Some (set_data b (move_bytes (data b) i j (Z.to_nat n)))
  else None.

(** [memcpy(block + dst, value, n)] from an object outside the block. *)
Definition memcpy_from (b : buffer) (dst : Z) (value : list cell) (n : Z)
  : option buffer :=
  if n =? 0 then
    if valid_pointer b dst then Some b else None
  else if (0 <? n) && in_data b dst n && (n <=? Z.of_nat (length value)) then
    let i := Z.to_nat (dst - phys_header b) in
    Some (set_data b (write_bytes (data b) i value (Z.to_nat n)))
  else None.

(** ** Helper functions *)

Definition get_meta (b : buffer) : vvectorMetadata_ := meta b.

Definition vec_get_element_size (b : buffer) : Z :=
  let element_size := Meta.element_size (get_meta b) in
  if element_size <? 0 then - element_size else element_size.

Definition vec_get_capacity (b : buffer) : Z := Meta.capacity (get_meta b).

Definition length_to_pages (len nr_elem_in_page : Z) : Z :=
  if Z.rem len nr_elem_in_page =? 0 then Z.quot len nr_elem_in_page
  else Z.quot len nr_elem_in_page + 1.

Definition getLengthOfMetadata (b : buffer) : Z :=
  if Meta.element_size (get_meta b) <? 0
  then sizeof_vvectorMetadata_ + sizeof_vvectorAlloc
  else sizeof_vvectorMetadata_.

(** [None]: division by a zero element size. *)
Definition nr_pages_available (b : buffer) : option Z :=
  let vec_capacity := vec_get_capacity b in
  let vec_element_size := vec_get_element_size b in
  let element_mem := vec_capacity - getLengthOfMetadata b in
  if vec_element_size =? 0 then None
  else Some (Z.quot (Z.quot element_mem vec_element_size) NR_ELEM_IN_PAGE).

Definition nr_pages_used (b : buffer) : Z :=
  length_to_pages (Meta.length (get_meta b)) NR_ELEM_IN_PAGE.

Definition has_empty_pages (b : buffer) : option bool :=
  match nr_pages_available b with
  | None => None
  | Some avail => Some (negb (avail - nr_pages_used b =? 0))
  end.

Definition has_custom_alloc (b : buffer) : bool :=
  Meta.element_size (get_meta b) <? 0.

(** [None] is the NULL result, and also stands for a pointer to bytes
    that are not a descriptor. *)
Definition get_alloc (b : buffer) : option vvectorAlloc :=
  if has_custom_alloc b then descr b else None.

Definition is_full (b : buffer) : bool :=
  let vec_capacity := vec_get_capacity b in
  let vec_length := Meta.length (get_meta b) in
  let vec_element_size := vec_get_element_size b in
  let nr_of_bytes_of_metadata :=
    if has_custom_alloc b
    then sizeof_vvectorAlloc + sizeof_vvectorMetadata_
    else sizeof_vvectorMetadata_ in
  vec_capacity =? vec_length * vec_element_size + nr_of_bytes_of_metadata.

Definition index_is_invalid (b : buffer) (index : Z) : bool :=
  index >=? Meta.length (get_meta b).

(** Offset of the element region from the start of the block. *)
Definition get_start_of_data (b : buffer) : Z :=
  if has_custom_alloc b
  then sizeof_vvectorMetadata_ + sizeof_vvectorAlloc
  else sizeof_vvectorMetadata_.

(** ** Allocator indirection *)

Definition get_malloc (b : buffer) : option fnref :=
  if negb (has_custom_alloc b) then Some vvector_lib_malloc
  else get_alloc b ≫= malloc_fn.

Definition get_free (b : buffer) : option fnref :=
  if negb (has_custom_alloc b) then Some vvector_lib_free
  else get_alloc b ≫= free_fn.

Definition get_realloc (b : buffer) : option fnref :=
  if negb (has_custom_alloc b) then Some vvector_lib_realloc
  else get_alloc b ≫= realloc_fn.

(** The [ctx] selection repeated in the memory functions. *)
Definition get_ctx (b : buffer) : option Z :=
  if has_custom_alloc b then ctx <$> get_alloc b else Some 0.

(** ** Logic control *)

Definition vvectorGetLength (w : World) (vec : vvector) : option Z :=
  match deref w vec with
  | HInvalid => Some 0
  | HDangling => None
  | HValid _ _ b => Some (Meta.length (get_meta b))
  end.

Definition vvectorIsEmpty (w : World) (vec : vvector) : option Z :=
  match deref w vec with
  | HInvalid => Some 1
  | HDangling => None
  | HValid _ _ b => Some (if Meta.length (get_meta b) =? 0 then 1 else 0)
  end.

(** ** Memory functions *)

Section Operations.

(** Whether a call into an allocator function returns a block, given
    the calls made so far; and whether a reallocation that does so
    returns the block at a new address. *)
Variable succeeds : list event → event → bool.
Variable relocates : list event → event → bool.

Definition log_event (w : World) (e : event) : World :=
  {| cells := cells w; blocks := blocks w; descs := descs w;
     next := next w; log := log w ++ [e] |}.

Definition bump (w : World) : World :=
  {| cells := cells w; blocks := blocks w; descs := descs w;
     next := S (next w); log := log w |}.

(** [f(size, c)] for a malloc function: NULL, or a fresh address. *)
Definition call_malloc (w : World) (f : fnref) (size c : Z)
  : option nat * World :=
  let e := EvMalloc f size c in
  let w1 := log_event w e in
  if succeeds (log w) e then (Some (next w), bump w1) else (None, w1).

(** The block at [p] moves to [q] with contents [b]. *)
Definition move_block (w : World) (p q : nat) (b : buffer) : World :=
  {| cells := cells w; blocks := <[q := b]> (delete p (blocks w));
     descs := descs w; next := next w; log := log w |}.

(** [f(p, new_size, old_size, c)] for a realloc function on block [p].
    On failure the block stays as it is; on success it is resized, in
    place or at a fresh address.  [None]: [p] is not a live block, or
    the new size cuts into the header. *)
Definition call_realloc (w : World) (f : fnref) (p : nat)
    (new_size old_size c : Z) : option (option nat * World) :=
  let e := EvRealloc f p new_size old_size c in
  let w1 := log_event w e in
  match blocks w !! p with
  | None => None
  | Some b =>
      if succeeds (log w) e then
        if new_size <? phys_header b then None
        else
          let n := Z.to_nat (new_size - phys_header b) in
          let b' := set_data b (resize n None (data b)) in
          if relocates (log w) e
          then Some (Some (next w), bump (move_block w1 p (next w) b'))
          else Some (Some p, store_block w1 p b')
      else Some (None, w1)
  end.

(** [f(p, size, c)] for a free function on a buffer block. *)
Definition call_free_block (w : World) (f : fnref) (p : nat) (size c : Z)
  : World :=
  let w1 := log_event w (EvFree f p size c) in
  {| cells := cells w1; blocks := delete p (blocks w1); descs := descs w1;
     next := next w1; log := log w1 |}.

(** [f(vec, size, c)] for a free function on a handle cell. *)
Definition call_free_cell (w : World) (f : fnref) (h : nat) (size c : Z)
  : World :=
  let w1 := log_event w (EvFree f h size c) in
  {| cells := delete h (cells w1); blocks := blocks w1; descs := descs w1;
     next := next w1; log := log w1 |}.

(** Called with a handle cell the caller has already checked. *)
Definition add_page_if_needed (w : World) (h : nat) : outcome Z :=
  match deref w (Some h) with
  | HValid _ p b =>
      if negb (is_full b) then Ret 0 w
      else
        let vec_capacity := vec_get_capacity b in
        let vec_element_size := vec_get_element_size b in
        match get_ctx b, get_realloc b with
        | Some c, Some f =>
            let new_size :=
              vec_capacity + NR_ELEM_IN_PAGE * vec_element_size in
            match call_realloc w f p new_size vec_capacity c with
            | None => Fault
            | Some (r, w1) =>
                let w2 := store_cell w1 h r in
                match r with
                | None => Ret 1 w2
                | Some p' =>
                    match blocks w2 !! p' with
                    | None => Fault
                    | Some b' =>
                        let m := set_capacity (get_meta b') new_size in
                        Ret 0 (store_block w2 p' (set_meta b' m))
                    end
                end
            end
        | _, _ => Fault
        end
  | _ => Fault
  end.

Definition vvectorShrinkToFit (w : World) (vec : vvector) : outcome Z :=
  match deref w vec with
  | HInvalid => Ret VEC_ENOVEC w
  | HDangling => Fault
  | HValid h p b =>
      let m := get_meta b in
      let vec_capacity := vec_get_capacity b in
      let vec_element_size := vec_get_element_size b in
      match has_empty_pages b, nr_pages_available b with
      | Some false, _ => Ret 0 w
      | Some true, Some avail =>
          let new_size :=
            vec_capacity - (avail - nr_pages_used b)
                           * vec_element_size * NR_ELEM_IN_PAGE in
          match get_ctx b, get_realloc b with
          | Some c, Some f =>
              match call_realloc w f p new_size vec_capacity c with
              | None => Fault
              | Some (r, w1) =>
                  let w2 := store_cell w1 h r in
                  match r with
                  | None => Ret 1 w2
                  | Some p' =>
                      match blocks w2 !! p' with
                      | None => Fault
                      | Some b' =>
                          Ret 0 (store_block w2 p'
                                   (set_meta b' (set_capacity m new_size)))
                      end
                  end
              end
          | _, _ => Fault
          end
      | _, _ => Fault
      end
  end.

Definition vvectorReserve (w : World) (vec : vvector) (n : Z) : outcome Z :=
  match deref w vec with
  | HInvalid => Ret VEC_ENOVEC w
  | HDangling => Fault
  | HValid h p b =>
      if n <? 0 then Ret 1 w
      else
        let m := get_meta b in
        let vec_capacity := vec_get_capacity b in
        let vec_element_size := vec_get_element_size b in
        match get_ctx b, get_realloc b with
        | Some c, Some f =>
            let new_capacity :=
              ptrdiff_add
                (ptrdiff_mul
                   (ptrdiff_mul (length_to_pages n NR_ELEM_IN_PAGE)
                      vec_element_size)
                   NR_ELEM_IN_PAGE)
                vec_capacity in
            match call_realloc w f p new_capacity vec_capacity c with
            | None => Fault
            | Some (r, w1) =>
                let w2 := store_cell w1 h r in
                match r with
                | None => Ret VEC_ENOVEC w2
                | Some p' =>
                    match blocks w2 !! p' with
                    | None => Fault
                    | Some b' =>
                        Ret 0 (store_block w2 p'
                                 (set_meta b' (set_capacity m new_capacity)))
                    end
                end
            end
        | _, _ => Fault
        end
  end.

(** ** Create and destroy *)

(** [allocator] is NULL or the address of a caller-owned descriptor. *)
Definition vec_new_ (w : World) (sizeof_type : Z) (allocator : option nat)
  : outcome vvector :=
  if sizeof_type <? 0 then Ret None w
  else
    match allocator with
    | None =>
        let m := {| Meta.capacity := sizeof_vvectorMetadata_;
                    Meta.length := 0;
                    Meta.element_size := sizeof_type |} in
        match call_malloc w vvector_lib_malloc (Meta.capacity m) 0 with
        | (None, w1) => Ret None w1
        | (Some new_vector_data, w1) =>
            let w2 := store_block w1 new_vector_data
                        {| meta := m; descr := None; data := [] |} in
            match call_malloc w2 vvector_lib_malloc sizeof_pointer 0 with
            | (None, w3) => Ret None w3
            | (Some vector_handle, w3) =>
                Ret (Some vector_handle)
                    (store_cell w3 vector_handle (Some new_vector_data))
            end
        end
    | Some d =>
        match descs w !! d with
        | None => Fault
        | Some allocator =>
            let a_malloc_fn :=
              match malloc_fn allocator with
              | Some f => f | None => vvector_lib_malloc end in
            let a_free_fn :=
              match free_fn allocator with
              | Some f => f | None => vvector_lib_free end in
            let a_realloc_fn :=
              match realloc_fn allocator with
              | Some f => f | None => vvector_lib_realloc end in
            let a := {| malloc_fn := Some a_malloc_fn;
                        free_fn := Some a_free_fn;
                        realloc_fn := Some a_realloc_fn;
                        ctx := ctx allocator |} in
            let m := {| Meta.capacity :=
                          sizeof_vvectorMetadata_ + sizeof_vvectorAlloc;
                        Meta.length := 0;
                        Meta.element_size := - sizeof_type |} in
            match call_malloc w a_malloc_fn (Meta.capacity m) (ctx a) with
            | (None, w1) => Ret None w1
            | (Some new_vector_data, w1) =>
                let w2 := store_block w1 new_vector_data
                            {| meta := m; descr := Some a; data := [] |} in
                match call_malloc w2 a_malloc_fn sizeof_pointer (ctx a) with
                | (None, w3) => Ret None w3
                | (Some vector_handle, w3) =>
                    Ret (Some vector_handle)
                        (store_cell w3 vector_handle (Some new_vector_data))
                end
            end
        end
    end.

Definition vvectorFree (w : World) (vec : vvector) : outcome Z :=
  match deref w vec with
  | HInvalid => Ret VEC_ENOVEC w
  | HDangling => Fault
  | HValid h p b =>
      let vec_capacity := vec_get_capacity b in
      let alloc := get_alloc b in
      let c := match alloc with Some a => ctx a | None => 0 end in
      match get_free b with
      | None => Fault
      | Some free_fn =>
          let w1 := call_free_block w free_fn p vec_capacity c in
          let w2 := store_cell w1 h None in
          let w3 := call_free_cell w2 free_fn h sizeof_pointer c in
          Ret 0 w3
      end
  end.

(** ** Get functions *)

(** The result pointer: NULL, or a block address with a byte offset. *)
Definition vvectorGetAt (w : World) (vec : vvector) (index : Z)
  : option (option (nat * Z)) :=
  match deref w vec with
  | HInvalid => Some None
  | HDangling => None
  | HValid _ p b =>
      let vec_element_size := vec_get_element_size b in
      if index_is_invalid b index then Some None
      else
        let start_of_data := get_start_of_data b in
        Some (Some (p, start_of_data + vec_element_size * index))
  end.

Definition vvectorGetBack (w : World) (vec : vvector)
  : option (option (nat * Z)) :=
  match deref w vec with
  | HInvalid => Some None
  | HDangling => None
  | HValid _ _ b =>
      if Meta.length (get_meta b) =? 0 then Some None
      else vvectorGetAt w vec (Meta.length (get_meta b) - 1)
  end.

Definition vvectorGetFront (w : World) (vec : vvector)
  : option (option (nat * Z)) :=
  match deref w vec with
  | HInvalid => Some None
  | HDangling => None
  | HValid _ _ b =>
      if Meta.length (get_meta b) =? 0 then Some None
      else vvectorGetAt w vec 0
  end.

(** ** Add and write functions *)

(** [value] is NULL or the object it points to. *)
Definition vvectorWriteValueAt (w : World) (vec : vvector) (index : Z)
    (value : option (list cell)) : outcome Z :=
  match deref w vec with
  | HInvalid => Ret VEC_ENOVEC w
  | HDangling => Fault
  | HValid _ p b =>
      let vec_element_size := vec_get_element_size b in
      if index_is_invalid b index then Ret VEC_EBADINDEX w
      else
        match value with
        | None => Ret VEC_ENOVALUE w
        | Some v =>
            let start_of_data := get_start_of_data b in
            match memcpy_from b (start_of_data + index * vec_element_size)
                    v vec_element_size with
            | None => Fault
            | Some b1 => Ret 0 (store_block w p b1)
            end
        end
  end.

Definition vvectorInsertValueAt (w : World) (vec : vvector) (index : Z)
    (value : option (list cell)) : outcome Z :=
  match deref w vec with
  | HInvalid => Ret VEC_ENOVEC w
  | HDangling => Fault
  | HValid h _ _ =>
      match add_page_if_needed w h with
      | Fault => Fault
      | Ret _ w1 =>
          (* the result of add_page_if_needed is dropped; after a
             failed reallocation *vec is NULL, vvectorGetLength gives 0
             and vec_get_element_size dereferences NULL *)
          match deref w1 (Some h) with
          | HValid _ p b =>
              let vec_length := Meta.length (get_meta b) in
              let vec_element_size := vec_get_element_size b in
              if index >? vec_length then Ret VEC_EBADINDEX w1
              else
                match value with
                | None => Ret VEC_ENOVALUE w1
                | Some v =>
                    let start_of_data := get_start_of_data b in
                    match memmove b
                            (start_of_data + (index + 1) * vec_element_size)
                            (start_of_data + index * vec_element_size)
                            ((vec_length - index) * vec_element_size) with
                    | None => Fault
                    | Some b1 =>
                        match memcpy_from b1
                                (start_of_data + index * vec_element_size)
                                v vec_element_size with
                        | None => Fault
                        | Some b2 =>
                            let m := get_meta b2 in
                            let m' := set_length m (Meta.length m + 1) in
                            Ret 0 (store_block w1 p (set_meta b2 m'))
                        end
                    end
                end
          | _ => Fault
          end
      end
  end.

Definition vvectorPushBack (w : World) (vec : vvector)
    (value : option (list cell)) : outcome Z :=
  match deref w vec with
  | HInvalid => Ret VEC_ENOVEC w
  | HDangling => Fault
  | HValid _ _ b =>
      match value with
      | None => Ret VEC_ENOVALUE w
      | Some _ =>
          vvectorInsertValueAt w vec (Meta.length (get_meta b)) value
      end
  end.

(** ** Remove functions *)

Definition vvectorRemoveAt (w : World) (vec : vvector) (index : Z)
  : outcome Z :=
  match deref w vec with
  | HInvalid => Ret VEC_ENOVEC w
  | HDangling => Fault
  | HValid _ p b =>
      let vec_length := Meta.length (get_meta b) in
      let vec_element_size := vec_get_element_size b in
      if index_is_invalid b index then Ret VEC_EBADINDEX w
      else
        let start_of_data := get_start_of_data b in
        match memmove b
                (start_of_data + index * vec_element_size)
                (start_of_data + (index + 1) * vec_element_size)
                ((vec_length - index - 1) * vec_element_size) with
        | None => Fault
        | Some b1 =>
            let m := get_meta b1 in
            let m' := set_length m (Meta.length m - 1) in
            Ret 0 (store_block w p (set_meta b1 m'))
        end
  end.

Definition vvectorRemoveBack (w : World) (vec : vvector) : outcome Z :=
  match deref w vec with
  | HInvalid => Ret VEC_ENOVEC w
  | HDangling => Fault
  | HValid _ _ b =>
      if Meta.length (get_meta b) =? 0 then Ret 2 w
      else vvectorRemoveAt w vec (Meta.length (get_meta b) - 1)
  end.

End Operations.

(** ** Vocabulary of the statements *)

(** A caller's loop of [vvectorPushBack] that stops at the first error. *)
Fixpoint push_back_all (succeeds relocates : list event → event → bool)
    (w : World) (vec : vvector) (values : list (list cell)) : outcome Z :=
  match values with
  | [] => Ret 0 w
  | v :: rest =>
      match vvectorPushBack succeeds relocates w vec (Some v) with
      | Ret 0 w1 => push_back_all succeeds relocates w1 vec rest
      | r => r
      end
  end.

(** The bytes of the live elements. *)
Definition elements (b : buffer) : list cell :=
  take (Z.to_nat (Meta.length (meta b) * vec_get_element_size b)) (data b).

(** [ceil(n / N)] for a non-negative [n], in the words of the
    specification. *)
Definition pages_needed (n N : Z) : Z := (n + N - 1) `div` N.

(** The state of a buffer between two calls of the interface: the block
    is as large as [capacity] says, the allocator is resolvable, and,
    for elements of positive size, the element region starts right after
    the header and holds a whole number of pages, enough for [length]
    elements. *)
Record wf_buffer (b : buffer) : Prop := mk_wf {
  wf_length : 0 ≤ Meta.length (meta b);
  wf_block : block_size b = Meta.capacity (meta b);
  wf_start : get_start_of_data b ≤ phys_header b;
  wf_realloc : is_Some (get_realloc b);
  wf_free : is_Some (get_free b);
  wf_ctx : is_Some (get_ctx b);
  wf_pages :
    0 < vec_get_element_size b →
    get_start_of_data b = phys_header b ∧
    ∃ k, 0 ≤ k ∧
         Meta.capacity (meta b)
         = get_start_of_data b + k * NR_ELEM_IN_PAGE * vec_get_element_size b ∧
         Meta.length (meta b) ≤ k * NR_ELEM_IN_PAGE
}.

(** The reallocation [add_page_if_needed] asks for on a full buffer. *)
Definition grow_request (p : nat) (b : buffer) : option event :=
  match get_realloc b, get_ctx b with
  | Some f, Some c =>
      Some (EvRealloc f p
              (vec_get_capacity b + NR_ELEM_IN_PAGE * vec_get_element_size b)
              (vec_get_capacity b) c)
  | _, _ => None
  end.

(** The reallocation [vvectorShrinkToFit] asks for. *)
Definition shrink_request (p : nat) (b : buffer) : option event :=
  match get_realloc b, get_ctx b, nr_pages_available b with
  | Some f, Some c, Some avail =>
      Some (EvRealloc f p
              (vec_get_capacity b
               - (avail - nr_pages_used b)
                 * vec_get_element_size b * NR_ELEM_IN_PAGE)
              (vec_get_capacity b) c)
  | _, _, _ => None
  end.

(** Oracles that say yes, respectively no, to every call. *)
Definition always : list event → event → bool := λ _ _, true.
Definition never : list event → event → bool := λ _ _, false.

(** Four bytes to store. *)
Definition some_value : list cell :=
  [Some Byte.x01; Some Byte.x02; Some Byte.x03; Some Byte.x04].

(** [vec_new_(sz, NULL)] in the empty world, with the default allocator
    working: the handle is cell 2, the buffer is block 1. *)
Definition fresh_world (sz : Z) : World :=
  match vec_new_ always empty_world sz None with
  | Ret _ w => w
  | Fault => empty_world
  end.

Definition fresh_vec : vvector := Some 2%nat.

(** Room for one more element after the live ones. *)
Definition has_room (b : buffer) : Prop :=
  get_start_of_data b
  + (Meta.length (meta b) + 1) * vec_get_element_size b ≤ block_size b.

(** The block after a reallocation to [new_size] bytes that succeeded and
    the metadata update that follows it in [add_page_if_needed],
    [vvectorShrinkToFit] and [vvectorReserve]. *)
Definition resized (b : buffer) (new_size : Z) : buffer :=
  set_meta
    (set_data b (resize (Z.to_nat (new_size - phys_header b)) None (data b)))
    (set_capacity (meta b) new_size).

Definition grown (b : buffer) : buffer :=
  resized b (vec_get_capacity b + NR_ELEM_IN_PAGE * vec_get_element_size b).

Definition shrunk (b : buffer) : buffer :=
  resized b (get_start_of_data b
             + nr_pages_used b * NR_ELEM_IN_PAGE * vec_get_element_size b).

(** Offset, in the bytes after the header, of element slot [index]. *)
Definition slot (b : buffer) (index : Z) : nat :=
  Z.to_nat (get_start_of_data b + index * vec_get_element_size b
            - phys_header b).

(** The block after the two copies and the metadata update of
    [vvectorInsertValueAt]. *)
Definition inserted (b : buffer) (index : Z) (v : list cell) : buffer :=
  let len := Meta.length (meta b) in
  let es := vec_get_element_size b in
  let d1 := move_bytes (data b) (slot b (index + 1)) (slot b index)
              (Z.to_nat ((len - index) * es)) in
  let d2 := write_bytes d1 (slot b index) v (Z.to_nat es) in
  set_meta (set_data b d2) (set_length (meta b) (len + 1)).

(** The block after the copy and the metadata update of
    [vvectorRemoveAt]. *)
Definition removed (b : buffer) (index : Z) : buffer :=
  let len := Meta.length (meta b) in
  let es := vec_get_element_size b in
  let d1 := move_bytes (data b) (slot b index) (slot b (index + 1))
              (Z.to_nat ((len - index - 1) * es)) in
  set_meta (set_data b d1) (set_length (meta b) (len - 1)).

(** The descriptor [vec_new_] builds from the caller's: a NULL function
    pointer is replaced by the library default. *)
Definition with_defaults (a : vvectorAlloc) : vvectorAlloc :=
  {| malloc_fn :=
       Some (match malloc_fn a with
             | Some f => f | None => vvector_lib_malloc end);
     free_fn :=
       Some (match free_fn a with Some f => f | None => vvector_lib_free end);
     realloc_fn :=
       Some (match realloc_fn a with
             | Some f => f | None => vvector_lib_realloc end);
     ctx := ctx a |}.

(** The block [vec_new_] fills in, without or with a descriptor. *)
Definition created (sizeof_type : Z) (allocator : option vvectorAlloc)
  : buffer :=
  match allocator with
  | None =>
      {| meta := {| Meta.capacity := sizeof_vvectorMetadata_;
                    Meta.length := 0;
                    Meta.element_size := sizeof_type |};
         descr := None; data := [] |}
  | Some a =>
      {| meta := {| Meta.capacity :=
                      sizeof_vvectorMetadata_ + sizeof_vvectorAlloc;
                    Meta.length := 0;
                    Meta.element_size := - sizeof_type |};
         descr := Some (with_defaults a); data := [] |}
  end.

(** The descriptor an [allocator] argument points to. *)
Definition pointee (w : World) (allocator : option nat)
  : option vvectorAlloc :=
  allocator ≫= λ d, descs w !! d.

(** An allocator that grants its first [n] calls and then returns NULL. *)
Definition fails_after (n : nat) : list event → event → bool :=
  λ l _, bool_decide (length l < n)%nat.

(** [fresh_world 4] after one [vvectorPushBack] of [some_value]. *)
Definition pushed_world : World :=
  match vvectorPushBack always never (fresh_world 4) fresh_vec
          (Some some_value) with
  | Ret _ w => w
  | Fault => empty_world
  end.

(** [pushed_world] after [vvectorRemoveBack]: one page, no element. *)
Definition emptied_world : World :=
  match vvectorRemoveBack pushed_world fresh_vec with
  | Ret _ w => w
  | Fault => empty_world
  end.

(** [fresh_world 4] after [vvectorReserve] for two more elements. *)
Definition reserved_world : World :=
  match vvectorReserve always never (fresh_world 4) fresh_vec 2 with
  | Ret _ w => w
  | Fault => empty_world
  end.

(** The block of a handle, for concrete runs. *)
Definition block_of (w : World) (vec : vvector) : option buffer :=
  match deref w vec with
  | HValid _ _ b => Some b
  | _ => None
  end.

(** A world in which the caller owns a descriptor, at address 7, whose
    deallocate function is left NULL. *)
Definition caller_descriptor : vvectorAlloc :=
  {| malloc_fn := Some (user_fn 1); free_fn := None;
     realloc_fn := Some (user_fn 3); ctx := 42 |}.

Definition caller_world : World := store_desc empty_world 7 caller_descriptor.

(** The blocks of [pushed_world] and [emptied_world]. *)
Definition pushed_block : buffer :=
  inserted (grown (created 4 None)) 0 some_value.

Definition emptied_block : buffer := removed pushed_block 0.

(** ** Sequences of operations *)

(** The calls that change a container between creation and destruction. *)
Inductive operation : Type :=
| Reserve (n : Z)
| ShrinkToFit
| WriteValueAt (index : Z) (value : option (list cell))
| InsertValueAt (index : Z) (value : option (list cell))
| PushBack (value : option (list cell))
| RemoveAt (index : Z)
| RemoveBack.

Definition run_operation (succeeds relocates : list event → event → bool)
    (w : World) (vec : vvector) (op : operation) : outcome Z :=
  match op with
  | Reserve n => vvectorReserve succeeds relocates w vec n
  | ShrinkToFit => vvectorShrinkToFit succeeds relocates w vec
  | WriteValueAt index value => vvectorWriteValueAt w vec index value
  | InsertValueAt index value =>
      vvectorInsertValueAt succeeds relocates w vec index value
  | PushBack value => vvectorPushBack succeeds relocates w vec value
  | RemoveAt index => vvectorRemoveAt w vec index
  | RemoveBack => vvectorRemoveBack w vec
  end.

(** The world after a sequence of calls, whatever they returned; [None]
    when one of them faults. *)
Fixpoint run_operations (succeeds relocates : list event → event → bool)
    (w : World) (vec : vvector) (ops : list operation) : option World :=
  match ops with
  | [] => Some w
  | op :: rest =>
      match run_operation succeeds relocates w vec op with
      | Ret _ w1 => run_operations succeeds relocates w1 vec rest
      | Fault => None
      end
  end.

Definition nonnegative_index (op : operation) : Prop :=
  match op with
  | WriteValueAt index _ | InsertValueAt index _ | RemoveAt index => 0 ≤ index
  | _ => True
  end.


(** The capacity [vvectorReserve] asks for, as the machine computes
    it. *)
Definition reserve_capacity (b : buffer) (n : Z) : Z :=
  ptrdiff_add
    (ptrdiff_mul
       (ptrdiff_mul (length_to_pages n NR_ELEM_IN_PAGE)
          (vec_get_element_size b))
       NR_ELEM_IN_PAGE)
    (vec_get_capacity b).

(** The count [n] is small enough for that capacity to be a
    [ptrdiff_t]: nothing wraps around. *)
Definition reserve_in_range (b : buffer) (n : Z) : Prop :=
  length_to_pages n NR_ELEM_IN_PAGE * vec_get_element_size b
  * NR_ELEM_IN_PAGE + vec_get_capacity b ≤ PTRDIFF_MAX.



(** Among the allocator calls [l] made after the calls [l0], one was
    refused. *)
Definition refused (succeeds : list event → event → bool)
    (l0 l : list event) : Prop :=
  ∃ l1 e l2, l = l1 ++ e :: l2 ∧ succeeds (l0 ++ l1) e = false.

(** A reallocation request that keeps the size of the block at [size]
    bytes: an increase by zero bytes. *)
Definition same_size_request (size : Z) (e : event) : Prop :=
  match e with
  | EvRealloc _ _ new_size old_size _ => new_size = size ∧ old_size = size
  | _ => False
  end.



(** A short run on the container for 4-byte elements. *)
Definition sample_operations : list operation :=
  [PushBack (Some some_value); InsertValueAt 0 (Some some_value);
   Reserve 40; RemoveAt 1; ShrinkToFit; RemoveBack; RemoveBack;
   WriteValueAt 0 (Some some_value)].


(** The caller overwrites the descriptor it owns at address [d]. *)
Definition overwrite_descriptor (d : nat) (a : vvectorAlloc) (w : World)
  : World := store_desc w d a.

Definition outcome_map {A : Type} (f : World → World) (o : outcome A)
  : outcome A :=
  match o with
  | Ret a w => Ret a (f w)
  | Fault => Fault
  end.

(** Well-formedness of a concrete buffer holding [k] pages. *)
Ltac wf_by_computation k :=
  constructor;
  [ by vm_compute | by vm_compute | by vm_compute
  | by eexists | by eexists | by eexists
  | intros _; split; [by vm_compute | exists k; by vm_compute] ].

(** The same for the blocks of longer runs, where the functions of the
    allocator are found by evaluation as well. *)
Ltac is_Some_by_vm :=
  match goal with
  | |- is_Some ?o =>
      let v := eval vm_compute in o in
      match v with Some ?x => exists x; by vm_compute end
  end.

Ltac wf_by_vm k :=
  constructor;
  [ by vm_compute | by vm_compute | by vm_compute
  | is_Some_by_vm | is_Some_by_vm | is_Some_by_vm
  | intros _; split; [by vm_compute | exists k; by vm_compute] ].

(** ** Debug functions *)

Definition vvector_debug_get_element_size (w : World) (vec : vvector)
  : option Z :=
  match deref w vec with
  | HInvalid => Some VEC_ENOVEC
  | HDangling => None
  | HValid _ _ b => Some (Meta.element_size (get_meta b))
  end.

Definition vvector_debug_get_capacity (w : World) (vec : vvector)
  : option Z :=
  match deref w vec with
  | HInvalid => Some VEC_ENOVEC
  | HDangling => None
  | HValid _ _ b => Some (Meta.capacity (get_meta b))
  end.

(** The pointer results: [Some None] is NULL; [None] stands for a fault,
    as everywhere. *)
Definition vvector_debug_get_malloc_fn (w : World) (vec : vvector)
  : option (option fnref) :=
  match deref w vec with
  | HInvalid => Some None
  | HDangling => None
  | HValid _ _ b =>
      if has_custom_alloc b then malloc_fn <$> get_alloc b else Some None
  end.

Definition vvector_debug_get_free_fn (w : World) (vec : vvector)
  : option (option fnref) :=
  match deref w vec with
  | HInvalid => Some None
  | HDangling => None
  | HValid _ _ b =>
      if has_custom_alloc b then free_fn <$> get_alloc b else Some None
  end.

Definition vvector_debug_get_realloc_fn (w : World) (vec : vvector)
  : option (option fnref) :=
  match deref w vec with
  | HInvalid => Some None
  | HDangling => None
  | HValid _ _ b =>
      if has_custom_alloc b then realloc_fn <$> get_alloc b else Some None
  end.

Definition vvector_debug_get_ctx (w : World) (vec : vvector) : option Z :=
  match deref w vec with
  | HInvalid => Some 0
  | HDangling => None
  | HValid _ _ b =>
      if has_custom_alloc b then ctx <$> get_alloc b else Some 0
  end.

(** ** Callers *)

(** Reading [n] bytes through a pointer into a block, as a caller does
    with the result of [vvectorGetAt]. *)
Definition load (w : World) (ptr : nat * Z) (n : Z) : option (list cell) :=
  match blocks w !! ptr.1 with
  | None => None
  | Some b =>
      if n =? 0 then
        if valid_pointer b ptr.2 then Some [] else None
      else if (0 <? n) && in_data b ptr.2 n then
        Some (take (Z.to_nat n)
                (drop (Z.to_nat (ptr.2 - phys_header b)) (data b)))
      else None
  end.

(** [*(T * )vvectorGetAt(vec, index)] with [sizeof(T) = size]. *)
Definition read_value (w : World) (vec : vvector) (index size : Z)
  : option (list cell) :=
  match vvectorGetAt w vec index with
  | Some (Some ptr) => load w ptr size
  | _ => None
  end.

Definition read_front (w : World) (vec : vvector) (size : Z)
  : option (list cell) :=
  match vvectorGetFront w vec with
  | Some (Some ptr) => load w ptr size
  | _ => None
  end.

Definition read_back (w : World) (vec : vvector) (size : Z)
  : option (list cell) :=
  match vvectorGetBack w vec with
  | Some (Some ptr) => load w ptr size
  | _ => None
  end.

(** How a loop of the demo ends. *)
Inductive loop_result : Type :=
| Done (iterations : nat) (w : World)
| Exited (error : Z) (w : World)
| Faulted
| OutOfFuel.

(** [while (!vvectorIsEmpty(vec)) { error = vvectorRemoveBack(vec);
    if (error) exit(error); }] of demo.c, cut off after [fuel]
    iterations. *)
Fixpoint remove_until_empty (fuel : nat) (w : World) (vec : vvector)
  : loop_result :=
  match vvectorIsEmpty w vec with
  | None => Faulted
  | Some e =>
      if e =? 0 then
        match fuel with
        | O => OutOfFuel
        | S fuel' =>
            match vvectorRemoveBack w vec with
            | Fault => Faulted
            | Ret error w1 =>
                if error =? 0 then
                  match remove_until_empty fuel' w1 vec with
                  | Done n w2 => Done (S n) w2
                  | r => r
                  end
                else Exited error w1
            end
        end
      else Done 0 w
  end.

(** The four bytes of an [int] on a little-endian machine. *)
Definition int_bytes (i : Z) : list cell :=
  (λ k, Byte.of_N (Z.to_N (Z.land (Z.shiftr i (8 * k)) 255))) <$> [0; 1; 2; 3].

(** [create_vector_of_100_numbers] of demo.c. *)
Definition create_vector_of_100_numbers
    (succeeds relocates : list event → event → bool) (w : World)
  : outcome vvector :=
  match vec_new_ succeeds w 4 None with
  | Fault => Fault
  | Ret None w1 => Ret None w1
  | Ret (Some h) w1 =>
      match push_back_all succeeds relocates w1 (Some h)
              (int_bytes <$> seqZ 0 100) with
      | Fault => Fault
      | Ret error w2 => if error =? 0 then Ret (Some h) w2 else Ret None w2
      end
  end.

(** ** Vocabulary of the further statements *)

(** Two blocks with the same signed element size and the same
    descriptor: they resolve the same allocator. *)
Definition same_layout (b b1 : buffer) : Prop :=
  Meta.element_size (meta b1) = Meta.element_size (meta b)
  ∧ descr b1 = descr b.

(** A call of the reallocate function [f] with context [c]. *)
Definition realloc_by (f : fnref) (c : Z) (e : event) : Prop :=
  match e with
  | EvRealloc f' _ _ _ c' => f' = f ∧ c' = c
  | _ => False
  end.

(** The context [vvectorFree] passes on. *)
Definition free_ctx (b : buffer) : Z :=
  match get_alloc b with Some a => ctx a | None => 0 end.

(** List operations on element bytes, for elements of [es] bytes: the
    element at [index], and the bytes after inserting, replacing or
    removing one element. *)
Definition element_at (es : Z) (E : list cell) (index : Z) : list cell :=
  take (Z.to_nat es) (drop (Z.to_nat (index * es)) E).

Definition insert_element (es : Z) (E : list cell) (index : Z)
    (v : list cell) : list cell :=
  take (Z.to_nat (index * es)) E ++ take (Z.to_nat es) v
  ++ drop (Z.to_nat (index * es)) E.

Definition replace_element (es : Z) (E : list cell) (index : Z)
    (v : list cell) : list cell :=
  take (Z.to_nat (index * es)) E ++ take (Z.to_nat es) v
  ++ drop (Z.to_nat ((index + 1) * es)) E.

Definition remove_element (es : Z) (E : list cell) (index : Z) : list cell :=
  take (Z.to_nat (index * es)) E ++ drop (Z.to_nat ((index + 1) * es)) E.

(** The block after the copy of [vvectorWriteValueAt]. *)
Definition written (b : buffer) (index : Z) (v : list cell) : buffer :=
  set_data b
    (write_bytes (data b) (slot b index) v
       (Z.to_nat (vec_get_element_size b))).

(** The malloc function and the context [vec_new_] uses for a
    descriptor argument, and its two requests: the buffer, then the
    handle cell. *)
Definition creation_malloc (allocator : option vvectorAlloc) : fnref :=
  match allocator with
  | None => vvector_lib_malloc
  | Some a =>
      match malloc_fn a with Some f => f | None => vvector_lib_malloc end
  end.

Definition creation_ctx (allocator : option vvectorAlloc) : Z :=
  match allocator with None => 0 | Some a => ctx a end.

Definition buffer_request (sizeof_type : Z) (allocator : option vvectorAlloc)
  : event :=
  EvMalloc (creation_malloc allocator)
    (Meta.capacity (meta (created sizeof_type allocator)))
    (creation_ctx allocator).

Definition handle_request (allocator : option vvectorAlloc) : event :=
  EvMalloc (creation_malloc allocator) sizeof_pointer (creation_ctx allocator).

(** The reallocation [vvectorReserve] asks for. *)
Definition reserve_request (p : nat) (b : buffer) (n : Z) : option event :=
  match get_realloc b, get_ctx b with
  | Some f, Some c =>
      Some (EvRealloc f p (reserve_capacity b n) (vec_get_capacity b) c)
  | _, _ => None
  end.

(** What calls on the handle [h], whose buffer was [b], may leave
    behind: calls of the reallocate function [f] with context [c] and
    no other allocator call, and a handle that points to a buffer with
    the layout of [b], or that was cleared when one of these calls was
    refused. *)
Definition routed (succeeds : list event → event → bool) (f : fnref)
    (c : Z) (h : nat) (b : buffer) (w w1 : World) : Prop :=
  ∃ l, log w1 = log w ++ l
       ∧ Forall (realloc_by f c) l
       ∧ ((deref w1 (Some h) = HInvalid ∧ refused succeeds (log w) l)
          ∨ ∃ p1 b1, deref w1 (Some h) = HValid h p1 b1 ∧ same_layout b b1).

(** ** Concrete containers *)

(** Four other bytes. *)
Definition other_value : list cell :=
  [Some Byte.x05; Some Byte.x06; Some Byte.x07; Some Byte.x08].

(** [pushed_world] after a [vvectorPushBack] of [other_value]: two
    elements in one page. *)
Definition two_world : World :=
  match vvectorPushBack always never pushed_world fresh_vec
          (Some other_value) with
  | Ret _ w => w
  | Fault => empty_world
  end.

Definition two_block : buffer := inserted pushed_block 1 other_value.

(** [fresh_world 4] after a [vvectorReserve] whose reallocation is
    refused: the handle holds NULL. *)
Definition cleared_world : World :=
  match vvectorReserve never never (fresh_world 4) fresh_vec 1 with
  | Ret _ w => w
  | Fault => empty_world
  end.

(** [vec_new_(4, &caller_descriptor)] in [caller_world]. *)
Definition caller_vec_world : World :=
  match vec_new_ always caller_world 4 (Some 7%nat) with
  | Ret _ w => w
  | Fault => empty_world
  end.

(** [emptied_world] after [vvectorShrinkToFit]. *)
Definition shrunk_world : World :=
  match vvectorShrinkToFit always never emptied_world fresh_vec with
  | Ret _ w => w
  | Fault => empty_world
  end.

(** [fresh_world 4] after [sample_operations]. *)
Definition sample_world : World :=
  match run_operations always never (fresh_world 4) fresh_vec
          sample_operations with
  | Some w => w
  | None => empty_world
  end.

(** [fresh_world 4] after pushing the numbers 0 to 31: one page,
    full. *)
Definition full_page_world : World :=
  match push_back_all always never (fresh_world 4) fresh_vec
          (int_bytes <$> seqZ 0 32) with
  | Ret _ w => w
  | Fault => empty_world
  end.

Definition full_page_block : buffer :=
  match block_of full_page_world fresh_vec with
  | Some b => b
  | None => created 4 None
  end.

(** [full_page_world] after one more push and a [vvectorRemoveBack]:
    the numbers 0 to 31 in two pages. *)
Definition spare_page_world : World :=
  match vvectorPushBack always never full_page_world fresh_vec
          (Some (int_bytes 32)) with
  | Ret _ w =>
      match vvectorRemoveBack w fresh_vec with
      | Ret _ w1 => w1
      | Fault => empty_world
      end
  | Fault => empty_world
  end.

Definition spare_page_block : buffer :=
  match block_of spare_page_world fresh_vec with
  | Some b => b
  | None => created 4 None
  end.

(** [two_world] after [vvectorReserve] for 33 more elements: two
    elements in three pages. *)
Definition roomy_world : World :=
  match vvectorReserve always never two_world fresh_vec 33 with
  | Ret _ w => w
  | Fault => empty_world
  end.




(** [vec_new_(0, &caller_descriptor)] in [caller_world]. *)
Definition caller_zero_world : World :=
  match vec_new_ always caller_world 0 (Some 7%nat) with
  | Ret _ w => w
  | Fault => empty_world
  end.

(** * Properties *)

(** ** Bytes *)

Section Bytes.
Context {A : Type}.
Implicit Types d v : list A.

Lemma take_add_split d (a m : nat) :
  take (a + m) d = take a d ++ take m (drop a d).
Proof.
  rewrite <- (take_drop a d) at 1.
  destruct (decide (a ≤ length d)%nat) as [Hle|Hgt].
  - rewrite take_app_add' by (rewrite length_take; lia). done.
  - rewrite take_app_ge by (rewrite length_take; lia).
    rewrite (drop_ge d a) by lia. by rewrite !take_nil.
Qed.

Lemma length_move_bytes d i j k :
  (i + k ≤ length d)%nat → (j + k ≤ length d)%nat →
  length (move_bytes d i j k) = length d.
Proof.
  intros Hi Hj. unfold move_bytes.
  rewrite !length_app, !length_take, !length_drop. lia.
Qed.

Lemma length_write_bytes d i v k :
  (i + k ≤ length d)%nat → (k ≤ length v)%nat →
  length (write_bytes d i v k) = length d.
Proof.
  intros Hi Hk. unfold write_bytes.
  rewrite !length_app, !length_take, !length_drop. lia.
Qed.

Lemma move_bytes_0 d i j : move_bytes d i j 0 = d.
Proof. unfold move_bytes. simpl. rewrite Nat.add_0_r. apply take_drop. Qed.

Lemma write_bytes_0 d i v : write_bytes d i v 0 = d.
Proof. unfold write_bytes. simpl. rewrite Nat.add_0_r. apply take_drop. Qed.

(** Opening a gap of [e] bytes at [a], filling it and closing it again
    gives back the first [a + m] bytes. *)
Lemma insert_remove_bytes d v (a e m : nat) :
  (a + e + m ≤ length d)%nat → (e ≤ length v)%nat →
  take (a + m)
    (move_bytes (write_bytes (move_bytes d (a + e) a m) a v e) a (a + e) m)
  = take (a + m) d.
Proof.
  intros Hd Hv.
  assert (Hd1 : move_bytes d (a + e) a m
                = take a d ++ take e (drop a d) ++ take m (drop a d)
                    ++ drop (a + e + m) d).
  { unfold move_bytes. rewrite take_add_split. by rewrite <- !app_assoc. }
  assert (Hd2 : write_bytes (move_bytes d (a + e) a m) a v e
                = take a d ++ take e v ++ take m (drop a d)
                    ++ drop (a + e + m) d).
  { rewrite Hd1. unfold write_bytes.
    rewrite take_app_length' by (rewrite length_take; lia).
    rewrite drop_app_add' by (rewrite length_take; lia).
    rewrite drop_app_length' by (rewrite length_take, length_drop; lia).
    done. }
  rewrite Hd2. unfold move_bytes.
  rewrite (take_app_length' _ _ a) by (rewrite length_take; lia).
  rewrite (drop_app_add' _ _ a e) by (rewrite length_take; lia).
  rewrite (drop_app_length' _ _ e) by (rewrite length_take; lia).
  rewrite (take_app_length' _ _ m) by (rewrite length_take, length_drop; lia).
  rewrite app_assoc.
  rewrite (take_app_length' _ _ (a + m))
    by (rewrite length_app, !length_take, length_drop; lia).
  by rewrite take_add_split.
Qed.
End Bytes.

(** ** Pages *)

Lemma length_to_pages_bounds (len : Z) :
  0 ≤ len →
  len ≤ NR_ELEM_IN_PAGE * length_to_pages len NR_ELEM_IN_PAGE
      < len + NR_ELEM_IN_PAGE.
Proof.
  intros Hlen. unfold length_to_pages, NR_ELEM_IN_PAGE.
  rewrite Z.rem_mod_nonneg, Z.quot_div_nonneg by lia.
  pose proof (Z.div_mod len 32 ltac:(lia)) as Hdm.
  pose proof (Z.mod_pos_bound len 32 ltac:(lia)) as Hb.
  destruct (Z.eqb_spec (len `mod` 32) 0); lia.
Qed.

(** [length_to_pages] is the ceiling of the specification. *)
Lemma length_to_pages_ceil (len : Z) :
  0 ≤ len →
  length_to_pages len NR_ELEM_IN_PAGE = pages_needed len NR_ELEM_IN_PAGE.
Proof.
  intros Hlen. pose proof (length_to_pages_bounds len Hlen) as Hb.
  unfold pages_needed, NR_ELEM_IN_PAGE in *.
  apply Z.div_unique with (r := len + 31 - 32 * length_to_pages len 32);
    lia.
Qed.

(** ** Machine arithmetic *)

Lemma wrap_in_range z : PTRDIFF_MIN ≤ z ≤ PTRDIFF_MAX → wrap z = z.
Proof.
  unfold wrap, PTRDIFF_MIN, PTRDIFF_MAX. intros Hz.
  rewrite Z.mod_small by lia. lia.
Qed.

Lemma length_to_pages_nonneg (len : Z) :
  0 ≤ len → 0 ≤ length_to_pages len NR_ELEM_IN_PAGE.
Proof.
  intros Hlen. pose proof (length_to_pages_bounds len Hlen).
  unfold NR_ELEM_IN_PAGE in *. lia.
Qed.

(** ** Concrete runs *)

Lemma fresh_world_created (sz : Z) :
  0 ≤ sz →
  vec_new_ always empty_world sz None = Ret fresh_vec (fresh_world sz).
Proof.
  intros Hsz. unfold fresh_world, vec_new_.
  destruct (Z.ltb_spec sz 0); [lia|]. reflexivity.
Qed.

(** ** Handles and blocks *)

Lemma deref_valid_inv w vec h p b :
  deref w vec = HValid h p b →
  vec = Some h ∧ cells w !! h = Some (Some p) ∧ blocks w !! p = Some b.
Proof.
  unfold deref. destruct vec as [h'|]; [|done].
  destruct (cells w !! h') as [[p'|]|] eqn:Hc; [|done|done].
  destruct (blocks w !! p') as [b'|] eqn:Hb; [|done].
  intros [= -> -> ->]. done.
Qed.

Lemma deref_valid w h p b :
  cells w !! h = Some (Some p) → blocks w !! p = Some b →
  deref w (Some h) = HValid h p b.
Proof. intros Hc Hb. unfold deref. by rewrite Hc, Hb. Qed.

Lemma deref_store_block w h p b' :
  cells w !! h = Some (Some p) →
  deref (store_block w p b') (Some h) = HValid h p b'.
Proof.
  intros Hc. apply deref_valid; simpl; [done|]. apply lookup_insert_eq.
Qed.

Lemma set_data_id b : set_data b (data b) = b.
Proof. by destruct b. Qed.

Lemma vec_get_element_size_nonneg b : 0 ≤ vec_get_element_size b.
Proof.
  unfold vec_get_element_size.
  destruct (Z.ltb_spec (Meta.element_size (get_meta b)) 0); lia.
Qed.

Lemma phys_header_pos b : 0 < phys_header b.
Proof.
  unfold phys_header, sizeof_vvectorMetadata_, sizeof_vvectorAlloc,
    sizeof_pointer, sizeof_ptrdiff_t.
  destruct (descr b); lia.
Qed.

Lemma get_start_of_data_pos b : 0 < get_start_of_data b.
Proof.
  unfold get_start_of_data, sizeof_vvectorMetadata_, sizeof_vvectorAlloc,
    sizeof_pointer, sizeof_ptrdiff_t.
  destruct (has_custom_alloc b); lia.
Qed.

Lemma memmove_ok b dst src n :
  0 ≤ n → 0 ≤ dst → 0 ≤ src →
  dst + n ≤ block_size b → src + n ≤ block_size b →
  (0 < n → phys_header b ≤ dst ∧ phys_header b ≤ src) →
  memmove b dst src n
  = Some (set_data b (move_bytes (data b)
                        (Z.to_nat (dst - phys_header b))
                        (Z.to_nat (src - phys_header b)) (Z.to_nat n))).
Proof.
  intros Hn Hdst Hsrc Hd Hs Hpos. unfold memmove.
  destruct (Z.eqb_spec n 0) as [->|Hn0].
  - unfold valid_pointer.
    rewrite !(proj2 (Z.leb_le _ _)) by lia. simpl.
    by rewrite move_bytes_0, set_data_id.
  - destruct Hpos as [Hpd Hps]; [lia|]. unfold in_data.
    rewrite (proj2 (Z.ltb_lt _ _)) by lia.
    rewrite !(proj2 (Z.leb_le _ _)) by lia. done.
Qed.

Lemma memcpy_from_ok b dst v n :
  0 ≤ n → 0 ≤ dst → dst + n ≤ block_size b →
  (0 < n → phys_header b ≤ dst ∧ n ≤ Z.of_nat (length v)) →
  memcpy_from b dst v n
  = Some (set_data b (write_bytes (data b)
                        (Z.to_nat (dst - phys_header b)) v (Z.to_nat n))).
Proof.
  intros Hn Hdst Hd Hpos. unfold memcpy_from.
  destruct (Z.eqb_spec n 0) as [->|Hn0].
  - unfold valid_pointer.
    rewrite !(proj2 (Z.leb_le _ _)) by lia. simpl.
    by rewrite write_bytes_0, set_data_id.
  - destruct Hpos as [Hpd Hps]; [lia|]. unfold in_data.
    rewrite (proj2 (Z.ltb_lt _ _)) by lia.
    rewrite !(proj2 (Z.leb_le _ _)) by lia. done.
Qed.

(** ** Well-formed buffers *)

Lemma wf_elements_fit b :
  wf_buffer b →
  get_start_of_data b
  + Meta.length (meta b) * vec_get_element_size b ≤ block_size b.
Proof.
  intros Hwf. pose proof (vec_get_element_size_nonneg b) as Hes.
  destruct (decide (vec_get_element_size b = 0)) as [H0|Hne].
  - rewrite H0. pose proof (wf_start b Hwf). unfold block_size. lia.
  - destruct (wf_pages b Hwf) as [Hst (k & Hk & Hcap & Hlen)]; [lia|].
    rewrite (wf_block b Hwf), Hcap.
    pose proof (Z.mul_le_mono_nonneg_r _ _ (vec_get_element_size b) Hes Hlen).
    lia.
Qed.

Lemma wf_data_fit b :
  wf_buffer b →
  (Z.to_nat (Meta.length (meta b) * vec_get_element_size b)
   ≤ length (data b))%nat.
Proof.
  intros Hwf. pose proof (wf_elements_fit b Hwf) as Hfit.
  pose proof (vec_get_element_size_nonneg b) as Hes.
  destruct (decide (vec_get_element_size b = 0)) as [H0|Hne].
  - rewrite H0, Z.mul_0_r. simpl. lia.
  - destruct (wf_pages b Hwf) as [Hst _]; [lia|].
    unfold block_size in Hfit. lia.
Qed.

Lemma block_size_resized b n :
  phys_header b ≤ n → block_size (resized b n) = n.
Proof.
  intros Hn. unfold block_size, resized. simpl.
  rewrite length_resize. unfold phys_header in *. simpl. lia.
Qed.

Lemma wf_resized b n :
  wf_buffer b → phys_header b ≤ n →
  (0 < vec_get_element_size b →
   ∃ k, 0 ≤ k ∧
        n = get_start_of_data b + k * NR_ELEM_IN_PAGE * vec_get_element_size b ∧
        Meta.length (meta b) ≤ k * NR_ELEM_IN_PAGE) →
  wf_buffer (resized b n).
Proof.
  intros Hwf Hn Hk. constructor.
  - apply (wf_length b Hwf).
  - by apply block_size_resized.
  - apply (wf_start b Hwf).
  - apply (wf_realloc b Hwf).
  - apply (wf_free b Hwf).
  - apply (wf_ctx b Hwf).
  - intros Hes. split.
    + by apply (wf_pages b Hwf).
    + by apply Hk.
Qed.

Lemma elements_resized b n :
  wf_buffer b →
  get_start_of_data b + Meta.length (meta b) * vec_get_element_size b ≤ n →
  elements (resized b n) = elements b.
Proof.
  intros Hwf Hn. pose proof (wf_data_fit b Hwf) as Hfit.
  pose proof (vec_get_element_size_nonneg b) as Hes.
  unfold elements, resized. simpl.
  change (vec_get_element_size (set_meta _ _)) with (vec_get_element_size b).
  destruct (decide (vec_get_element_size b = 0)) as [H0|Hne].
  - rewrite H0, Z.mul_0_r. done.
  - destruct (wf_pages b Hwf) as [Hst _]; [lia|].
    rewrite take_resize_le by lia. by apply resize_le.
Qed.

(** A full buffer has room after one more page; one that is not full
    has room already. *)
Lemma is_full_spec b :
  is_full b = true ↔
  Meta.capacity (meta b)
  = get_start_of_data b + Meta.length (meta b) * vec_get_element_size b.
Proof.
  unfold is_full, get_start_of_data, vec_get_capacity, get_meta.
  rewrite Z.eqb_eq. destruct (has_custom_alloc b); lia.
Qed.

Lemma wf_grown b :
  wf_buffer b → is_full b = true →
  wf_buffer (grown b) ∧ has_room (grown b) ∧ elements (grown b) = elements b.
Proof.
  intros Hwf Hfull. apply is_full_spec in Hfull.
  pose proof (vec_get_element_size_nonneg b) as Hes.
  pose proof (wf_block b Hwf) as Hblock.
  pose proof (wf_start b Hwf) as Hstart.
  assert (Hph : phys_header b
                ≤ vec_get_capacity b
                  + NR_ELEM_IN_PAGE * vec_get_element_size b).
  { unfold block_size, vec_get_capacity, get_meta, NR_ELEM_IN_PAGE in *. lia. }
  unfold grown. split; [|split].
  - apply wf_resized; [done|done|]. intros Hpos.
    destruct (wf_pages b Hwf Hpos) as [Hst (k & Hk & Hcap & Hlen)].
    exists (k + 1). unfold vec_get_capacity, get_meta, NR_ELEM_IN_PAGE in *.
    assert (Meta.length (meta b) = k * 32) by nia. lia.
  - unfold has_room. rewrite block_size_resized by done.
    change (get_start_of_data b
            + (Meta.length (meta b) + 1) * vec_get_element_size b
            ≤ vec_get_capacity b
              + NR_ELEM_IN_PAGE * vec_get_element_size b).
    unfold vec_get_capacity, get_meta, NR_ELEM_IN_PAGE. nia.
  - apply elements_resized; [done|].
    unfold vec_get_capacity, get_meta, NR_ELEM_IN_PAGE. nia.
Qed.

Lemma wf_not_full_room b :
  wf_buffer b → is_full b = false → has_room b.
Proof.
  intros Hwf Hfull. unfold has_room.
  pose proof (vec_get_element_size_nonneg b) as Hes.
  destruct (decide (vec_get_element_size b = 0)) as [H0|Hne].
  - rewrite H0. pose proof (wf_start b Hwf). unfold block_size. lia.
  - destruct (wf_pages b Hwf) as [Hst (k & Hk & Hcap & Hlen)]; [lia|].
    assert (Hnf : Meta.capacity (meta b)
                  ≠ get_start_of_data b
                    + Meta.length (meta b) * vec_get_element_size b).
    { intros Heq. apply is_full_spec in Heq. congruence. }
    rewrite (wf_block b Hwf), Hcap. unfold NR_ELEM_IN_PAGE in *.
    assert (Meta.length (meta b) + 1 ≤ k * 32) by nia.
    nia.
Qed.

(** ** Element slots *)

Lemma slot_eq b j :
  wf_buffer b → 0 ≤ j → slot b j = Z.to_nat (j * vec_get_element_size b).
Proof.
  intros Hwf Hj. unfold slot.
  pose proof (vec_get_element_size_nonneg b) as Hes.
  destruct (decide (vec_get_element_size b = 0)) as [H0|Hne].
  - rewrite H0, Z.mul_0_r. pose proof (wf_start b Hwf). lia.
  - destruct (wf_pages b Hwf) as [Hst _]; [lia|]. f_equal. lia.
Qed.

Lemma slot_succ b j :
  wf_buffer b → 0 ≤ j →
  slot b (j + 1) = (slot b j + Z.to_nat (vec_get_element_size b))%nat.
Proof.
  intros Hwf Hj. rewrite !slot_eq by (done || lia).
  pose proof (vec_get_element_size_nonneg b) as Hes.
  pose proof (Z.mul_nonneg_nonneg _ _ Hj Hes). lia.
Qed.

Lemma slot_add b j m :
  wf_buffer b → 0 ≤ j → 0 ≤ m →
  (slot b j + Z.to_nat (m * vec_get_element_size b))%nat
  = Z.to_nat ((j + m) * vec_get_element_size b).
Proof.
  intros Hwf Hj Hm. rewrite slot_eq by done.
  pose proof (vec_get_element_size_nonneg b) as Hes.
  pose proof (Z.mul_nonneg_nonneg _ _ Hj Hes).
  pose proof (Z.mul_nonneg_nonneg _ _ Hm Hes). lia.
Qed.

Lemma slot_bound b j :
  wf_buffer b → 0 ≤ j →
  get_start_of_data b + j * vec_get_element_size b ≤ block_size b →
  (Z.to_nat (j * vec_get_element_size b) ≤ length (data b))%nat.
Proof.
  intros Hwf Hj Hfit.
  pose proof (vec_get_element_size_nonneg b) as Hes.
  destruct (decide (vec_get_element_size b = 0)) as [H0|Hne].
  - rewrite H0, Z.mul_0_r. simpl. lia.
  - destruct (wf_pages b Hwf) as [Hst _]; [lia|].
    unfold block_size in Hfit. lia.
Qed.

Lemma length_data_inserted b i v :
  wf_buffer b → has_room b → 0 ≤ i ≤ Meta.length (meta b) →
  vec_get_element_size b ≤ Z.of_nat (length v) →
  length (data (inserted b i v)) = length (data b).
Proof.
  intros Hwf Hroom Hi Hv. unfold inserted. simpl.
  pose proof (vec_get_element_size_nonneg b) as Hes.
  pose proof (slot_bound b (Meta.length (meta b) + 1) Hwf ltac:(lia) Hroom)
    as Hb.
  assert (Hi0 : 0 ≤ i) by lia.
  assert (Hm : 0 ≤ Meta.length (meta b) - i) by lia.
  pose proof (slot_add b (i + 1) _ Hwf ltac:(lia) Hm) as Hdst.
  pose proof (slot_add b i _ Hwf Hi0 Hm) as Hsrc.
  pose proof (slot_succ b i Hwf Hi0) as Hsucc.
  replace (i + 1 + (Meta.length (meta b) - i))
    with (Meta.length (meta b) + 1) in Hdst by lia.
  rewrite length_write_bytes; [|rewrite length_move_bytes; lia|lia].
  rewrite length_move_bytes; lia.
Qed.

Lemma wf_inserted b i v :
  wf_buffer b → has_room b → 0 ≤ i ≤ Meta.length (meta b) →
  vec_get_element_size b ≤ Z.of_nat (length v) →
  wf_buffer (inserted b i v).
Proof.
  intros Hwf Hroom Hi Hv.
  pose proof (length_data_inserted b i v Hwf Hroom Hi Hv) as Hlen.
  constructor.
  - simpl. pose proof (wf_length b Hwf). lia.
  - unfold block_size. rewrite Hlen. apply (wf_block b Hwf).
  - apply (wf_start b Hwf).
  - apply (wf_realloc b Hwf).
  - apply (wf_free b Hwf).
  - apply (wf_ctx b Hwf).
  - intros Hes. change (0 < vec_get_element_size b) in Hes.
    destruct (wf_pages b Hwf Hes) as [Hst (k & Hk & Hcap & Hle)].
    split; [exact Hst|]. exists k. split; [done|]. split; [exact Hcap|].
    simpl. unfold has_room in Hroom. rewrite (wf_block b Hwf), Hcap in Hroom.
    unfold NR_ELEM_IN_PAGE in *. nia.
Qed.

Lemma length_data_removed b i :
  wf_buffer b → 0 ≤ i < Meta.length (meta b) →
  length (data (removed b i)) = length (data b).
Proof.
  intros Hwf Hi. unfold removed. simpl.
  pose proof (slot_bound b _ Hwf (wf_length b Hwf) (wf_elements_fit b Hwf))
    as Hb.
  assert (Hi0 : 0 ≤ i) by lia.
  assert (Hm : 0 ≤ Meta.length (meta b) - i - 1) by lia.
  pose proof (slot_add b (i + 1) _ Hwf ltac:(lia) Hm) as Hsrc.
  pose proof (slot_add b i _ Hwf Hi0 Hm) as Hdst.
  pose proof (slot_succ b i Hwf Hi0) as Hsucc.
  replace (i + 1 + (Meta.length (meta b) - i - 1))
    with (Meta.length (meta b)) in Hsrc by lia.
  rewrite length_move_bytes; lia.
Qed.

Lemma wf_removed b i :
  wf_buffer b → 0 ≤ i < Meta.length (meta b) → wf_buffer (removed b i).
Proof.
  intros Hwf Hi. pose proof (length_data_removed b i Hwf Hi) as Hlen.
  constructor.
  - simpl. lia.
  - unfold block_size. rewrite Hlen. apply (wf_block b Hwf).
  - apply (wf_start b Hwf).
  - apply (wf_realloc b Hwf).
  - apply (wf_free b Hwf).
  - apply (wf_ctx b Hwf).
  - intros Hes. change (0 < vec_get_element_size b) in Hes.
    destruct (wf_pages b Hwf Hes) as [Hst (k & Hk & Hcap & Hle)].
    split; [exact Hst|]. exists k. split; [done|]. split; [exact Hcap|].
    simpl. lia.
Qed.

(** Inserting at [i] and removing at [i] gives back the element bytes. *)
Lemma elements_removed_inserted b i v :
  wf_buffer b → has_room b → 0 ≤ i ≤ Meta.length (meta b) →
  vec_get_element_size b ≤ Z.of_nat (length v) →
  elements (removed (inserted b i v) i) = elements b.
Proof.
  intros Hwf Hroom Hi Hv.
  pose proof (vec_get_element_size_nonneg b) as Hes.
  pose proof (slot_bound b (Meta.length (meta b) + 1) Hwf ltac:(lia) Hroom)
    as Hb.
  assert (Hi0 : 0 ≤ i) by lia.
  assert (Hm : 0 ≤ Meta.length (meta b) - i) by lia.
  pose proof (slot_add b i _ Hwf Hi0 Hm) as Hsum.
  pose proof (slot_add b (i + 1) _ Hwf ltac:(lia) Hm) as Hdst.
  pose proof (slot_succ b i Hwf Hi0) as Hsucc.
  replace (i + (Meta.length (meta b) - i))
    with (Meta.length (meta b)) in Hsum by lia.
  replace (i + 1 + (Meta.length (meta b) - i))
    with (Meta.length (meta b) + 1) in Hdst by lia.
  unfold elements, removed. simpl.
  change (vec_get_element_size (inserted b i v))
    with (vec_get_element_size b).
  change (vec_get_element_size (set_meta _ _))
    with (vec_get_element_size b).
  change (slot (inserted b i v) i) with (slot b i).
  change (slot (inserted b i v) (i + 1)) with (slot b (i + 1)).
  replace (Meta.length (meta b) + 1 - 1) with (Meta.length (meta b)) by lia.
  replace (Meta.length (meta b) + 1 - i - 1)
    with (Meta.length (meta b) - i) by lia.
  rewrite <- Hsum, Hsucc.
  apply insert_remove_bytes; lia.
Qed.

(** ** Blocks after a copy *)

Lemma memmove_Some b dst src n b1 :
  memmove b dst src n = Some b1 →
  meta b1 = meta b ∧ descr b1 = descr b
  ∧ length (data b1) = length (data b).
Proof.
  unfold memmove. destruct (n =? 0).
  - destruct (_ && _); [|done]. by intros [= <-].
  - destruct (_ && _ && _) eqn:Hc; [|done]. intros [= <-]. simpl.
    split; [done|]. split; [done|].
    apply andb_prop in Hc as [Hc Hsrc]. apply andb_prop in Hc as [Hn Hdst].
    unfold in_data, block_size in *.
    apply andb_prop in Hsrc as [Hs1 Hs2]. apply andb_prop in Hdst as [Hd1 Hd2].
    apply Z.ltb_lt in Hn. apply Z.leb_le in Hs1, Hs2, Hd1, Hd2.
    apply length_move_bytes; lia.
Qed.

Lemma memcpy_from_Some b dst v n b1 :
  memcpy_from b dst v n = Some b1 →
  meta b1 = meta b ∧ descr b1 = descr b
  ∧ length (data b1) = length (data b).
Proof.
  unfold memcpy_from. destruct (n =? 0).
  - destruct (valid_pointer b dst); [|done]. by intros [= <-].
  - destruct (_ && _ && _) eqn:Hc; [|done]. intros [= <-]. simpl.
    split; [done|]. split; [done|].
    apply andb_prop in Hc as [Hc Hv]. apply andb_prop in Hc as [Hn Hdst].
    unfold in_data, block_size in *.
    apply andb_prop in Hdst as [Hd1 Hd2].
    apply Z.ltb_lt in Hn. apply Z.leb_le in Hv, Hd1, Hd2.
    apply length_write_bytes; lia.
Qed.

(** A block that differs from a well-formed one only in its bytes and in
    a length that still fits is well-formed. *)
Lemma wf_update b b1 :
  wf_buffer b → descr b1 = descr b →
  Meta.capacity (meta b1) = Meta.capacity (meta b) →
  Meta.element_size (meta b1) = Meta.element_size (meta b) →
  length (data b1) = length (data b) →
  0 ≤ Meta.length (meta b1) →
  get_start_of_data b + Meta.length (meta b1) * vec_get_element_size b
  ≤ block_size b →
  wf_buffer b1.
Proof.
  intros Hwf Hdescr Hcap Hsize Hdata Hlen Hfit.
  assert (Hes : vec_get_element_size b1 = vec_get_element_size b).
  { unfold vec_get_element_size, get_meta. by rewrite Hsize. }
  assert (Hstart : get_start_of_data b1 = get_start_of_data b).
  { unfold get_start_of_data, has_custom_alloc, get_meta. by rewrite Hsize. }
  assert (Hph : phys_header b1 = phys_header b).
  { unfold phys_header. by rewrite Hdescr. }
  assert (Halloc : get_alloc b1 = get_alloc b).
  { unfold get_alloc, has_custom_alloc, get_meta. by rewrite Hsize, Hdescr. }
  constructor.
  - done.
  - unfold block_size. rewrite Hph, Hdata, Hcap. apply (wf_block b Hwf).
  - rewrite Hstart, Hph. apply (wf_start b Hwf).
  - unfold get_realloc, has_custom_alloc, get_meta. rewrite Halloc, Hsize.
    apply (wf_realloc b Hwf).
  - unfold get_free, has_custom_alloc, get_meta. rewrite Halloc, Hsize.
    apply (wf_free b Hwf).
  - unfold get_ctx, has_custom_alloc, get_meta. rewrite Halloc, Hsize.
    apply (wf_ctx b Hwf).
  - rewrite Hes, Hstart, Hph, Hcap. intros Hpos.
    destruct (wf_pages b Hwf Hpos) as [Hst (k & Hk & Hc & Hle)].
    split; [done|]. exists k. split; [done|]. split; [done|].
    rewrite (wf_block b Hwf), Hc in Hfit. unfold NR_ELEM_IN_PAGE in *. nia.
Qed.

(** ** What the operations return *)

(** When nothing wraps around, [vvectorReserve] asks for the exact
    sum. *)
Lemma reserve_capacity_in_range b n :
  wf_buffer b → 0 ≤ n → reserve_in_range b n →
  reserve_capacity b n
  = length_to_pages n NR_ELEM_IN_PAGE * vec_get_element_size b
    * NR_ELEM_IN_PAGE + vec_get_capacity b.
Proof.
  intros Hwf Hn Hr.
  unfold reserve_capacity, reserve_in_range, ptrdiff_add, ptrdiff_mul in *.
  pose proof (length_to_pages_nonneg n Hn) as Hpages.
  pose proof (vec_get_element_size_nonneg b) as Hes.
  pose proof (wf_block b Hwf) as Hblock.
  pose proof (phys_header_pos b) as Hph.
  assert (Hcap : 0 ≤ vec_get_capacity b)
    by (unfold vec_get_capacity, get_meta, block_size in *; lia).
  unfold NR_ELEM_IN_PAGE, PTRDIFF_MAX in *.
  rewrite (wrap_in_range (length_to_pages n 32 * vec_get_element_size b))
    by (unfold PTRDIFF_MIN, PTRDIFF_MAX; nia).
  rewrite (wrap_in_range
             (length_to_pages n 32 * vec_get_element_size b * 32))
    by (unfold PTRDIFF_MIN, PTRDIFF_MAX; nia).
  apply wrap_in_range. unfold PTRDIFF_MIN, PTRDIFF_MAX. nia.
Qed.

Section Runs.
Variable succeeds : list event → event → bool.
Variable relocates : list event → event → bool.

Lemma call_realloc_fails w f p new_size old_size c b :
  blocks w !! p = Some b →
  succeeds (log w) (EvRealloc f p new_size old_size c) = false →
  call_realloc succeeds relocates w f p new_size old_size c
  = Some (None, log_event w (EvRealloc f p new_size old_size c)).
Proof. intros Hb Hok. unfold call_realloc. by rewrite Hb, Hok. Qed.

(** The reallocate, store-pointer, update-metadata sequence shared by
    the three memory functions, when the reallocation succeeds. *)
Lemma realloc_sequence (mk : buffer → vvectorMetadata_) (failed : Z)
    w h p b f c new_size :
  (∀ d, mk (set_data b d) = set_capacity (get_meta b) new_size) →
  deref w (Some h) = HValid h p b →
  succeeds (log w) (EvRealloc f p new_size (vec_get_capacity b) c) = true →
  phys_header b ≤ new_size →
  ∃ w1 p1,
    match
      call_realloc succeeds relocates w f p new_size (vec_get_capacity b) c
    with
    | None => Fault
    | Some (r, w1) =>
        let w2 := store_cell w1 h r in
        match r with
        | None => Ret failed w2
        | Some p' =>
            match blocks w2 !! p' with
            | None => Fault
            | Some b' =>
                Ret 0 (store_block w2 p' (set_meta b' (mk b')))
            end
        end
    end = Ret 0 w1
    ∧ deref w1 (Some h) = HValid h p1 (resized b new_size)
    ∧ (relocates (log w)
         (EvRealloc f p new_size (vec_get_capacity b) c) = false → p1 = p)
    ∧ log w1 = log w ++ [EvRealloc f p new_size (vec_get_capacity b) c]
    ∧ descs w1 = descs w.
Proof.
  intros Hmk Hd Hok Hn.
  destruct (deref_valid_inv _ _ _ _ _ Hd) as (_ & Hc & Hb).
  unfold call_realloc. rewrite Hb, Hok.
  destruct (Z.ltb_spec new_size (phys_header b)); [lia|].
  destruct (relocates _ _); simpl; rewrite lookup_insert_eq, Hmk;
    eexists _, _; (split; [reflexivity|]);
    (split; [apply deref_valid; simpl; apply lookup_insert_eq|]); done.
Qed.

Lemma add_page_if_needed_not_full w h p b :
  deref w (Some h) = HValid h p b → is_full b = false →
  add_page_if_needed succeeds relocates w h = Ret 0 w.
Proof.
  intros Hd Hfull. unfold add_page_if_needed. by rewrite Hd, Hfull.
Qed.

Lemma add_page_if_needed_grows w h p b e :
  deref w (Some h) = HValid h p b → wf_buffer b → is_full b = true →
  grow_request p b = Some e → succeeds (log w) e = true →
  ∃ w1 p1, add_page_if_needed succeeds relocates w h = Ret 0 w1
           ∧ deref w1 (Some h) = HValid h p1 (grown b)
           ∧ log w1 = log w ++ [e]
           ∧ descs w1 = descs w.
Proof.
  intros Hd Hwf Hfull He Hok. unfold add_page_if_needed.
  rewrite Hd, Hfull. simpl. unfold grow_request in He.
  destruct (get_realloc b) as [f|]; [|done].
  destruct (get_ctx b) as [c|]; [|done].
  injection He as <-.
  destruct (realloc_sequence
              (λ b', set_capacity (get_meta b')
                       (vec_get_capacity b
                        + NR_ELEM_IN_PAGE * vec_get_element_size b)) 1
              w h p b f c
              (vec_get_capacity b + NR_ELEM_IN_PAGE * vec_get_element_size b))
    as (w1 & p1 & Hrun & Hd1 & _ & Hlog & Hdescs); [done|done|done| |].
  { pose proof (vec_get_element_size_nonneg b).
    pose proof (wf_block b Hwf). unfold block_size, vec_get_capacity,
      get_meta, NR_ELEM_IN_PAGE in *. lia. }
  exists w1, p1. done.
Qed.

(** Whenever the growth step, if there is one, is granted, the buffer
    has room afterwards. *)
Lemma add_page_if_needed_ready w h p b :
  deref w (Some h) = HValid h p b → wf_buffer b →
  (is_full b = true →
   ∃ e, grow_request p b = Some e ∧ succeeds (log w) e = true) →
  ∃ w1 p1, add_page_if_needed succeeds relocates w h = Ret 0 w1
           ∧ deref w1 (Some h)
             = HValid h p1 (if is_full b then grown b else b)
           ∧ (is_full b = false → w1 = w ∧ p1 = p)
           ∧ descs w1 = descs w.
Proof.
  intros Hd Hwf Hgrow. destruct (is_full b) eqn:Hfull.
  - destruct (Hgrow eq_refl) as (e & He & Hok).
    destruct (add_page_if_needed_grows w h p b e Hd Hwf Hfull He Hok)
      as (w1 & p1 & Hrun & Hd1 & _ & Hdescs).
    exists w1, p1. done.
  - exists w, p.
    rewrite (add_page_if_needed_not_full w h p b Hd Hfull). done.
Qed.

Lemma vvectorInsertValueAt_ready w vec h p0 b0 r w1 p b i v :
  deref w vec = HValid h p0 b0 →
  add_page_if_needed succeeds relocates w h = Ret r w1 →
  deref w1 (Some h) = HValid h p b →
  wf_buffer b → has_room b → 0 ≤ i ≤ Meta.length (meta b) →
  vec_get_element_size b ≤ Z.of_nat (length v) →
  vvectorInsertValueAt succeeds relocates w vec i (Some v)
  = Ret 0 (store_block w1 p (inserted b i v)).
Proof.
  intros Hd0 Hpage Hd Hwf Hroom Hi Hv.
  pose proof (vec_get_element_size_nonneg b) as Hes.
  pose proof (get_start_of_data_pos b) as Hstart.
  assert (Hi0 : 0 ≤ i) by lia.
  assert (Hm : 0 ≤ Meta.length (meta b) - i) by lia.
  pose proof (Z.mul_nonneg_nonneg _ _ Hi0 Hes) as Hie.
  pose proof (Z.mul_nonneg_nonneg _ _ Hm Hes) as Hme.
  unfold has_room in Hroom.
  unfold vvectorInsertValueAt. rewrite Hd0, Hpage, Hd.
  unfold get_meta.
  destruct (Z.gtb_spec i (Meta.length (meta b))) as [|_]; [lia|].
  rewrite memmove_ok; [|lia..|].
  2:{ intros Hpos. destruct (wf_pages b Hwf) as [Hst _]; [nia|]. lia. }
  rewrite memcpy_from_ok; [reflexivity|lia|lia| |].
  - change (block_size (set_data b ?d))
      with (phys_header b + Z.of_nat (length d)).
    rewrite length_move_bytes.
    + fold (block_size b). lia.
    + pose proof (slot_add b (i + 1) _ Hwf ltac:(lia) Hm) as Hdst.
      pose proof (slot_bound b (Meta.length (meta b) + 1) Hwf ltac:(lia)
                    Hroom) as Hb.
      replace (i + 1 + (Meta.length (meta b) - i))
        with (Meta.length (meta b) + 1) in Hdst by lia.
      unfold slot in Hdst. lia.
    + pose proof (slot_add b i _ Hwf Hi0 Hm) as Hsrc.
      pose proof (slot_bound b (Meta.length (meta b)) Hwf ltac:(lia)
                    ltac:(lia)) as Hb.
      replace (i + (Meta.length (meta b) - i))
        with (Meta.length (meta b)) in Hsrc by lia.
      unfold slot in Hsrc. lia.
  - intros Hpos. destruct (wf_pages b Hwf Hpos) as [Hst _].
    change (phys_header (set_data b ?d)) with (phys_header b). lia.
Qed.

Lemma vvectorRemoveAt_ok w vec h p b i :
  deref w vec = HValid h p b → wf_buffer b →
  0 ≤ i < Meta.length (meta b) →
  vvectorRemoveAt w vec i = Ret 0 (store_block w p (removed b i)).
Proof.
  intros Hd Hwf Hi.
  pose proof (vec_get_element_size_nonneg b) as Hes.
  pose proof (get_start_of_data_pos b) as Hstart.
  pose proof (wf_elements_fit b Hwf) as Hfit.
  assert (Hi0 : 0 ≤ i) by lia.
  assert (Hm : 0 ≤ Meta.length (meta b) - i - 1) by lia.
  pose proof (Z.mul_nonneg_nonneg _ _ Hi0 Hes) as Hie.
  pose proof (Z.mul_nonneg_nonneg _ _ Hm Hes) as Hme.
  unfold vvectorRemoveAt. rewrite Hd. unfold index_is_invalid, get_meta.
  destruct (Z.geb_spec i (Meta.length (meta b))) as [|_]; [lia|].
  rewrite memmove_ok; [reflexivity|lia..|].
  intros Hpos. destruct (wf_pages b Hwf) as [Hst _]; [nia|]. lia.
Qed.

Lemma ready_buffer b :
  wf_buffer b →
  let b1 := if is_full b then grown b else b in
  wf_buffer b1 ∧ has_room b1 ∧ elements b1 = elements b
  ∧ Meta.length (meta b1) = Meta.length (meta b)
  ∧ vec_get_element_size b1 = vec_get_element_size b
  ∧ Meta.capacity (meta b1)
    = Meta.capacity (meta b)
      + (if is_full b then NR_ELEM_IN_PAGE * vec_get_element_size b else 0).
Proof.
  intros Hwf. destruct (is_full b) eqn:Hfull; simpl.
  - destruct (wf_grown b Hwf Hfull) as (H1 & H2 & H3). done.
  - pose proof (wf_not_full_room b Hwf Hfull). split_and!; try done. lia.
Qed.

Lemma vvectorInsertValueAt_ok w vec h p b i v :
  deref w vec = HValid h p b → wf_buffer b →
  0 ≤ i ≤ Meta.length (meta b) →
  vec_get_element_size b ≤ Z.of_nat (length v) →
  (is_full b = true →
   ∃ e, grow_request p b = Some e ∧ succeeds (log w) e = true) →
  ∃ w1 p1, vvectorInsertValueAt succeeds relocates w vec i (Some v) = Ret 0 w1
           ∧ deref w1 vec
             = HValid h p1 (inserted (if is_full b then grown b else b) i v)
           ∧ (is_full b = false → log w1 = log w ∧ p1 = p)
           ∧ descs w1 = descs w.
Proof.
  intros Hd Hwf Hi Hv Hgrow.
  destruct (deref_valid_inv _ _ _ _ _ Hd) as (-> & Hc & Hb).
  destruct (add_page_if_needed_ready w h p b Hd Hwf Hgrow)
    as (w1 & p1 & Hpage & Hd1 & Hsame & Hdescs).
  destruct (ready_buffer b Hwf) as (Hwf1 & Hroom1 & _ & Hlen1 & Hes1 & _).
  destruct (deref_valid_inv _ _ _ _ _ Hd1) as (_ & Hc1 & _).
  exists (store_block w1 p1
            (inserted (if is_full b then grown b else b) i v)), p1.
  split; [|split; [|split]].
  - eapply vvectorInsertValueAt_ready; eauto; [rewrite Hlen1|rewrite Hes1];
      done.
  - by apply deref_store_block.
  - intros Hfull. destruct (Hsame Hfull) as [-> ->]. done.
  - done.
Qed.

Lemma vvectorPushBack_ok w h p b v :
  deref w (Some h) = HValid h p b → wf_buffer b →
  vec_get_element_size b ≤ Z.of_nat (length v) →
  (is_full b = true →
   ∃ e, grow_request p b = Some e ∧ succeeds (log w) e = true) →
  ∃ w1 p1, vvectorPushBack succeeds relocates w (Some h) (Some v) = Ret 0 w1
           ∧ deref w1 (Some h)
             = HValid h p1 (inserted (if is_full b then grown b else b)
                              (Meta.length (meta b)) v)
           ∧ (is_full b = false → log w1 = log w ∧ p1 = p)
           ∧ descs w1 = descs w.
Proof.
  intros Hd Hwf Hv Hgrow. unfold vvectorPushBack. rewrite Hd.
  apply vvectorInsertValueAt_ok; try done.
  pose proof (wf_length b Hwf). unfold get_meta. lia.
Qed.


(** C8: on a valid container, for an index [i] with [0 ≤ i ≤ length] and
    a non-null value, [vvectorInsertValueAt] at [i] followed by
    [vvectorRemoveAt] at [i] both succeed, the length is the one before,
    and the bytes of all elements are the ones before.  The value points
    to at least one element's worth of bytes, and the reallocation asked
    for when the buffer is full is granted. *)
Theorem insert_then_remove_restores w vec h p b i v :
  deref w vec = HValid h p b → wf_buffer b →
  0 ≤ i ≤ Meta.length (meta b) →
  vec_get_element_size b ≤ Z.of_nat (length v) →
  (is_full b = true →
   ∃ e, grow_request p b = Some e ∧ succeeds (log w) e = true) →
  ∃ w1 w2 p2 b2,
    vvectorInsertValueAt succeeds relocates w vec i (Some v) = Ret 0 w1
    ∧ vvectorRemoveAt w1 vec i = Ret 0 w2
    ∧ deref w2 vec = HValid h p2 b2
    ∧ Meta.length (meta b2) = Meta.length (meta b)
    ∧ elements b2 = elements b.
Proof.
  intros Hd Hwf Hi Hv Hgrow.
  destruct (vvectorInsertValueAt_ok w vec h p b i v Hd Hwf Hi Hv Hgrow)
    as (w1 & p1 & Hins & Hd1 & _ & _).
  destruct (ready_buffer b Hwf) as (Hwf1 & Hroom1 & Hel1 & Hlen1 & Hes1 & _).
  set (b1 := if is_full b then grown b else b) in *.
  assert (Hi1 : 0 ≤ i ≤ Meta.length (meta b1)) by (rewrite Hlen1; lia).
  assert (Hv1 : vec_get_element_size b1 ≤ Z.of_nat (length v))
    by (rewrite Hes1; lia).
  pose proof (wf_inserted b1 i v Hwf1 Hroom1 Hi1 Hv1) as Hwf2.
  destruct (deref_valid_inv _ _ _ _ _ Hd1) as (-> & Hc1 & _).
  exists w1, (store_block w1 p1 (removed (inserted b1 i v) i)), p1,
    (removed (inserted b1 i v) i).
  split; [done|]. split; [|split; [|split]].
  - apply (vvectorRemoveAt_ok w1 (Some h) h p1 _ i Hd1 Hwf2). simpl. lia.
  - by apply deref_store_block.
  - simpl. lia.
  - rewrite elements_removed_inserted; done.
Qed.

(** *** Shrinking *)

Lemma getLengthOfMetadata_start b :
  getLengthOfMetadata b = get_start_of_data b.
Proof. reflexivity. Qed.

Lemma nr_pages_available_wf b k :
  0 < vec_get_element_size b →
  Meta.capacity (meta b)
  = get_start_of_data b + k * NR_ELEM_IN_PAGE * vec_get_element_size b →
  nr_pages_available b = Some k.
Proof.
  intros Hes Hcap. unfold nr_pages_available.
  destruct (Z.eqb_spec (vec_get_element_size b) 0); [lia|].
  rewrite getLengthOfMetadata_start. unfold vec_get_capacity, get_meta.
  rewrite Hcap.
  replace (get_start_of_data b
           + k * NR_ELEM_IN_PAGE * vec_get_element_size b
           - get_start_of_data b)
    with (k * NR_ELEM_IN_PAGE * vec_get_element_size b) by lia.
  rewrite Z.quot_mul by lia. unfold NR_ELEM_IN_PAGE.
  by rewrite Z.quot_mul by lia.
Qed.

Lemma nr_pages_used_ceil b :
  0 ≤ Meta.length (meta b) →
  nr_pages_used b = pages_needed (Meta.length (meta b)) NR_ELEM_IN_PAGE.
Proof. intros Hlen. by apply length_to_pages_ceil. Qed.

Lemma vvectorShrinkToFit_noop w h p b :
  deref w (Some h) = HValid h p b →
  nr_pages_available b = Some (nr_pages_used b) →
  vvectorShrinkToFit succeeds relocates w (Some h) = Ret 0 w.
Proof.
  intros Hd Havail. unfold vvectorShrinkToFit, has_empty_pages.
  by rewrite Hd, Havail, Z.sub_diag.
Qed.

Lemma vvectorShrinkToFit_shrinks w h p b k e :
  deref w (Some h) = HValid h p b → wf_buffer b →
  0 < vec_get_element_size b →
  Meta.capacity (meta b)
  = get_start_of_data b + k * NR_ELEM_IN_PAGE * vec_get_element_size b →
  k ≠ nr_pages_used b →
  shrink_request p b = Some e → succeeds (log w) e = true →
  ∃ w1 p1,
    vvectorShrinkToFit succeeds relocates w (Some h) = Ret 0 w1
    ∧ deref w1 (Some h) = HValid h p1 (shrunk b)
    ∧ wf_buffer (shrunk b)
    ∧ elements (shrunk b) = elements b.
Proof.
  intros Hd Hwf Hes Hcap Hk' He Hok.
  destruct (wf_pages b Hwf Hes) as [Hst _].
  pose proof (wf_length b Hwf) as Hlen.
  pose proof (nr_pages_available_wf b k Hes Hcap) as Havail.
  pose proof (length_to_pages_bounds _ Hlen) as Hbounds.
  change (length_to_pages (Meta.length (meta b)) NR_ELEM_IN_PAGE)
    with (nr_pages_used b) in Hbounds.
  unfold vvectorShrinkToFit, has_empty_pages. rewrite Hd, Havail.
  destruct (Z.eqb_spec (k - nr_pages_used b) 0) as [|_]; [lia|]. simpl.
  unfold shrink_request in He. rewrite Havail in He.
  destruct (get_realloc b) as [f|]; [|done].
  destruct (get_ctx b) as [c|]; [|done].
  injection He as <-.
  remember (vec_get_capacity b
            - (k - nr_pages_used b)
              * vec_get_element_size b * NR_ELEM_IN_PAGE)
    as new_size eqn:Hsize.
  assert (Hnew : new_size
                 = get_start_of_data b
                   + nr_pages_used b * NR_ELEM_IN_PAGE
                     * vec_get_element_size b).
  { rewrite Hsize. unfold vec_get_capacity, get_meta. rewrite Hcap. lia. }
  assert (Hph : phys_header b ≤ new_size).
  { rewrite Hnew, Hst. unfold NR_ELEM_IN_PAGE in *. nia. }
  destruct (realloc_sequence (λ _, set_capacity (get_meta b) new_size) 1
              w h p b f c new_size ltac:(done) Hd Hok Hph)
    as (w1 & p1 & Hrun & Hd1 & _ & _ & _).
  unfold shrunk. rewrite <- Hnew.
  exists w1, p1. split; [exact Hrun|]. split; [exact Hd1|]. split.
  - apply wf_resized; [done|done|]. intros _.
    exists (nr_pages_used b). unfold NR_ELEM_IN_PAGE in *. lia.
  - apply elements_resized; [done|]. rewrite Hnew.
    unfold NR_ELEM_IN_PAGE in *. nia.
Qed.

(** C6, amended to elements of positive size: on a valid container whose
    elements have positive size, [vvectorShrinkToFit] returns 0 and
    changes nothing when the pages allocated are the pages needed for
    the current length; otherwise, when its reallocation is granted, it
    returns 0 and afterwards the pages allocated are
    [ceil(length / 32)], the capacity is the header plus exactly those
    pages, and length and element bytes are unchanged. *)
Theorem shrink_to_fit_minimal w vec h p b :
  deref w vec = HValid h p b → wf_buffer b → 0 < vec_get_element_size b →
  (nr_pages_available b
   = Some (pages_needed (Meta.length (meta b)) NR_ELEM_IN_PAGE) →
   vvectorShrinkToFit succeeds relocates w vec = Ret 0 w)
  ∧ (nr_pages_available b
     ≠ Some (pages_needed (Meta.length (meta b)) NR_ELEM_IN_PAGE) →
     (∃ e, shrink_request p b = Some e ∧ succeeds (log w) e = true) →
     ∃ w1 p1 b1,
       vvectorShrinkToFit succeeds relocates w vec = Ret 0 w1
       ∧ deref w1 vec = HValid h p1 b1
       ∧ wf_buffer b1
       ∧ nr_pages_available b1
         = Some (pages_needed (Meta.length (meta b1)) NR_ELEM_IN_PAGE)
       ∧ Meta.capacity (meta b1)
         = getLengthOfMetadata b1
           + pages_needed (Meta.length (meta b1)) NR_ELEM_IN_PAGE
             * NR_ELEM_IN_PAGE * vec_get_element_size b1
       ∧ Meta.length (meta b1) = Meta.length (meta b)
       ∧ elements b1 = elements b).
Proof.
  intros Hd Hwf Hes.
  destruct (deref_valid_inv _ _ _ _ _ Hd) as (-> & Hc & Hb).
  destruct (wf_pages b Hwf Hes) as [Hst (k & Hk & Hcap & Hle)].
  pose proof (wf_length b Hwf) as Hlen.
  pose proof (nr_pages_available_wf b k Hes Hcap) as Havail.
  pose proof (nr_pages_used_ceil b Hlen) as Hused.
  rewrite <- Hused. split.
  - intros Heq. by apply (vvectorShrinkToFit_noop w h p b).
  - intros Hne (e & He & Hok).
    assert (Hk' : k ≠ nr_pages_used b) by congruence.
    destruct (vvectorShrinkToFit_shrinks w h p b k e Hd Hwf Hes Hcap Hk' He Hok)
      as (w1 & p1 & Hrun & Hd1 & Hwf1 & Hel).
    exists w1, p1, (shrunk b). split; [exact Hrun|]. split; [exact Hd1|].
    split; [exact Hwf1|].
    change (Meta.length (meta (shrunk b))) with (Meta.length (meta b)).
    rewrite <- Hused. split; [|split; [|split]].
    + by apply nr_pages_available_wf.
    + reflexivity.
    + done.
    + exact Hel.
Qed.

(** *** Reserving and pushing *)

Lemma not_full_below_capacity b k :
  0 < vec_get_element_size b →
  Meta.capacity (meta b)
  = get_start_of_data b + k * NR_ELEM_IN_PAGE * vec_get_element_size b →
  Meta.length (meta b) < k * NR_ELEM_IN_PAGE →
  is_full b = false.
Proof.
  intros Hes Hcap Hlt. destruct (is_full b) eqn:Hfull; [|done].
  apply is_full_spec in Hfull. rewrite Hcap in Hfull.
  unfold NR_ELEM_IN_PAGE in *. nia.
Qed.

(** With [k] pages allocated, pushing succeeds without a call into the
    allocator as long as the elements fit in the [k] pages. *)
Lemma push_back_all_room values :
  ∀ w h p b k,
    deref w (Some h) = HValid h p b → wf_buffer b →
    0 < vec_get_element_size b →
    Meta.capacity (meta b)
    = get_start_of_data b + k * NR_ELEM_IN_PAGE * vec_get_element_size b →
    Meta.length (meta b) + Z.of_nat (length values) ≤ k * NR_ELEM_IN_PAGE →
    Forall (λ v, vec_get_element_size b ≤ Z.of_nat (length v)) values →
    ∃ w2 b2,
      push_back_all succeeds relocates w (Some h) values = Ret 0 w2
      ∧ log w2 = log w
      ∧ deref w2 (Some h) = HValid h p b2
      ∧ Meta.length (meta b2)
        = Meta.length (meta b) + Z.of_nat (length values)
      ∧ Meta.capacity (meta b2) = Meta.capacity (meta b).
Proof.
  induction values as [|v values IH]; intros w h p b k Hd Hwf Hes Hcap Hfit Hv.
  - exists w, b. simpl. split_and!; try done. lia.
  - inversion Hv as [|? ? Hv1 Hvs]; subst.
    simpl length in Hfit.
    assert (Hfull : is_full b = false).
    { apply (not_full_below_capacity b k); [done|done|lia]. }
    destruct (vvectorPushBack_ok w h p b v Hd Hwf Hv1)
      as (w1 & p1 & Hrun & Hd1 & Hsame & _).
    { intros Hf. congruence. }
    rewrite Hfull in Hd1. destruct (Hsame Hfull) as [Hlog ->].
    pose proof (wf_not_full_room b Hwf Hfull) as Hroom.
    pose proof (wf_length b Hwf) as Hlen.
    assert (Hwf1 : wf_buffer (inserted b (Meta.length (meta b)) v)).
    { apply wf_inserted; [done|done|lia|done]. }
    destruct (IH w1 h p (inserted b (Meta.length (meta b)) v) k Hd1 Hwf1)
      as (w2 & b2 & Hrun2 & Hlog2 & Hd2 & Hlen2 & Hcap2).
    { exact Hes. }
    { exact Hcap. }
    { simpl. lia. }
    { exact Hvs. }
    exists w2, b2. simpl. rewrite Hrun.
    split_and!; [done|congruence|done| |done].
    rewrite Hlen2. simpl. lia.
Qed.

Lemma grow_request_is_Some p b :
  wf_buffer b → is_Some (grow_request p b).
Proof.
  intros Hwf. unfold grow_request.
  destruct (wf_realloc b Hwf) as [f ->]. destruct (wf_ctx b Hwf) as [c ->].
  eauto.
Qed.

(** With elements of size zero, pushing never changes the capacity. *)
Lemma push_back_all_zero values :
  (∀ l e, succeeds l e = true) →
  ∀ w h p b,
    deref w (Some h) = HValid h p b → wf_buffer b →
    vec_get_element_size b = 0 →
    ∃ w2 p2 b2,
      push_back_all succeeds relocates w (Some h) values = Ret 0 w2
      ∧ deref w2 (Some h) = HValid h p2 b2
      ∧ Meta.length (meta b2)
        = Meta.length (meta b) + Z.of_nat (length values)
      ∧ Meta.capacity (meta b2) = Meta.capacity (meta b).
Proof.
  intros Hok. induction values as [|v values IH]; intros w h p b Hd Hwf Hes.
  - exists w, p, b. simpl. split_and!; try done. lia.
  - destruct (vvectorPushBack_ok w h p b v Hd Hwf)
      as (w1 & p1 & Hrun & Hd1 & _ & _).
    { rewrite Hes. lia. }
    { intros _. destruct (grow_request_is_Some p b Hwf) as [e He]. eauto. }
    destruct (ready_buffer b Hwf) as (Hwf1 & Hroom1 & _ & Hlen1 & Hes1 & Hcap1).
    pose proof (wf_length b Hwf) as Hlen.
    set (b1 := if is_full b then grown b else b) in *.
    assert (Hwf2 : wf_buffer (inserted b1 (Meta.length (meta b)) v)).
    { apply wf_inserted; [done|done|rewrite Hlen1; lia|rewrite Hes1, Hes; lia]. }
    destruct (IH w1 h p1 _ Hd1 Hwf2)
      as (w2 & p2 & b2 & Hrun2 & Hd2 & Hlen2 & Hcap2).
    { change (vec_get_element_size b1 = 0). congruence. }
    exists w2, p2, b2. simpl. rewrite Hrun.
    split_and!; [done|done| |].
    + rewrite Hlen2. simpl length. simpl. rewrite Hlen1. lia.
    + rewrite Hcap2. simpl. rewrite Hcap1, Hes. destruct (is_full b); lia.
Qed.

(** *** Creation *)

Lemma wf_created sizeof_type allocator :
  0 ≤ sizeof_type → wf_buffer (created sizeof_type allocator).
Proof.
  intros Hsz. destruct allocator as [a|]; simpl.
  - destruct (decide (sizeof_type = 0)) as [->|Hne].
    + constructor; try (by vm_compute); by eexists.
    + assert (Hneg : (- sizeof_type <? 0) = true) by (apply Z.ltb_lt; lia).
      constructor;
        unfold get_realloc, get_free, get_ctx, get_start_of_data, get_alloc,
          has_custom_alloc, phys_header, block_size, vec_get_element_size,
          get_meta; simpl; rewrite ?Hneg; simpl; try done; try (by eexists).
      intros _. split; [done|]. exists 0. lia.
  - assert (Hpos : (sizeof_type <? 0) = false) by (apply Z.ltb_ge; lia).
    constructor;
      unfold get_realloc, get_free, get_ctx, get_start_of_data, get_alloc,
        has_custom_alloc, phys_header, block_size, vec_get_element_size,
        get_meta; simpl; rewrite ?Hpos; simpl; try done; try (by eexists).
    intros _. split; [done|]. exists 0. lia.
Qed.

Lemma vec_new__inv w sizeof_type allocator h w1 :
  vec_new_ succeeds w sizeof_type allocator = Ret (Some h) w1 →
  0 ≤ sizeof_type
  ∧ (∀ d, allocator = Some d → is_Some (descs w !! d))
  ∧ descs w1 = descs w
  ∧ ∃ p, deref w1 (Some h)
         = HValid h p (created sizeof_type (pointee w allocator)).
Proof.
  unfold vec_new_, pointee.
  destruct (Z.ltb_spec sizeof_type 0) as [|Hsz]; [done|].
  destruct allocator as [d|]; simpl.
  - destruct (descs w !! d) as [a|] eqn:Ha; [|done].
    unfold call_malloc. simpl.
    destruct (succeeds _ _); [|done]. simpl.
    destruct (succeeds _ _); [|done]. simpl.
    intros [= <- <-]. split; [done|]. split.
    { intros d' [= <-]. rewrite Ha. eauto. }
    split; [done|]. eexists.
    apply deref_valid; simpl; apply lookup_insert_eq.
  - unfold call_malloc. simpl.
    destruct (succeeds _ _); [|done]. simpl.
    destruct (succeeds _ _); [|done]. simpl.
    intros [= <- <-]. split; [done|]. split; [done|]. split; [done|].
    eexists. apply deref_valid; simpl; apply lookup_insert_eq.
Qed.

Lemma vec_new__returns w sizeof_type allocator :
  (∀ l e, succeeds l e = true) → 0 ≤ sizeof_type →
  (∀ d, allocator = Some d → is_Some (descs w !! d)) →
  ∃ h w1, vec_new_ succeeds w sizeof_type allocator = Ret (Some h) w1.
Proof.
  intros Hok Hsz Hd. unfold vec_new_.
  destruct (Z.ltb_spec sizeof_type 0) as [|_]; [lia|].
  destruct allocator as [d|].
  - destruct (Hd d eq_refl) as [a ->]. unfold call_malloc. simpl.
    rewrite ?Hok. simpl. rewrite ?Hok. eauto.
  - unfold call_malloc. simpl. rewrite ?Hok. simpl. rewrite ?Hok. eauto.
Qed.

Lemma vec_new__negative w sizeof_type allocator :
  sizeof_type < 0 → vec_new_ succeeds w sizeof_type allocator = Ret None w.
Proof.
  intros Hsz. unfold vec_new_.
  by destruct (Z.ltb_spec sizeof_type 0) as [_|]; [|lia].
Qed.

(** C7, amended to elements of positive size and to counts that keep
    the size asked for in the range of [ptrdiff_t]: on a valid
    container whose elements have positive size, [vvectorReserve] with
    a negative count returns 1 and changes nothing; after
    [vvectorReserve] with [n ≥ 0] returned 0, the capacity
    [capacity + pages_needed n 32 * 32 * element_size] being at most
    [PTRDIFF_MAX], the capacity has grown by
    [pages_needed n 32 * 32 * element_size] bytes, and any [n] or fewer
    [vvectorPushBack] calls with non-null values all return 0 without a
    single call into the allocator. *)
Theorem reserve_then_push_back w vec h p b n :
  deref w vec = HValid h p b → wf_buffer b → 0 < vec_get_element_size b →
  (n < 0 → vvectorReserve succeeds relocates w vec n = Ret 1 w)
  ∧ (0 ≤ n → reserve_in_range b n →
     ∀ w1, vvectorReserve succeeds relocates w vec n = Ret 0 w1 →
     ∃ p1 b1,
       deref w1 vec = HValid h p1 b1
       ∧ Meta.capacity (meta b1)
         = Meta.capacity (meta b)
           + pages_needed n NR_ELEM_IN_PAGE
             * NR_ELEM_IN_PAGE * vec_get_element_size b
       ∧ ∀ values,
           Z.of_nat (length values) ≤ n →
           Forall (λ v, vec_get_element_size b ≤ Z.of_nat (length v)) values →
           ∃ w2 b2,
             push_back_all succeeds relocates w1 vec values = Ret 0 w2
             ∧ log w2 = log w1
             ∧ deref w2 vec = HValid h p1 b2
             ∧ Meta.length (meta b2)
               = Meta.length (meta b) + Z.of_nat (length values)).
Proof.
  intros Hd Hwf Hes.
  destruct (deref_valid_inv _ _ _ _ _ Hd) as (-> & Hc & Hb).
  unfold vvectorReserve. rewrite Hd. split.
  - intros Hn. by destruct (Z.ltb_spec n 0) as [_|]; [|lia].
  - intros Hn Hrange w1. destruct (Z.ltb_spec n 0) as [|_]; [lia|].
    destruct (wf_realloc b Hwf) as [f ->]. destruct (wf_ctx b Hwf) as [c ->].
    cbv zeta.
    fold (reserve_capacity b n).
    rewrite (reserve_capacity_in_range b n Hwf Hn Hrange).
    destruct (wf_pages b Hwf Hes) as [Hst (k & Hk & Hcap & Hle)].
    pose proof (length_to_pages_bounds n Hn) as Hpages.
    pose proof (wf_block b Hwf) as Hblock.
    remember (length_to_pages n NR_ELEM_IN_PAGE * vec_get_element_size b
              * NR_ELEM_IN_PAGE + vec_get_capacity b)
      as new_capacity eqn:Hsize.
    assert (Hnew : new_capacity
                   = get_start_of_data b
                     + (k + length_to_pages n NR_ELEM_IN_PAGE)
                       * NR_ELEM_IN_PAGE * vec_get_element_size b).
    { rewrite Hsize. unfold vec_get_capacity, get_meta. rewrite Hcap. lia. }
    assert (Hph : phys_header b ≤ new_capacity).
    { rewrite Hnew, Hst. unfold NR_ELEM_IN_PAGE in *. nia. }
    destruct (succeeds (log w)
                (EvRealloc f p new_capacity (vec_get_capacity b) c)) eqn:Hok.
    + destruct (realloc_sequence
                  (λ _, set_capacity (get_meta b) new_capacity) VEC_ENOVEC
                  w h p b f c new_capacity ltac:(done) Hd Hok Hph)
        as (w1' & p1 & Hrun & Hd1 & _ & _ & _).
      intros Hret.
      assert (Heq : Ret 0 w1' = Ret (A:=Z) 0 w1)
        by (rewrite <- Hrun; exact Hret).
      injection Heq as <-.
      exists p1, (resized b new_capacity). split; [exact Hd1|]. split.
      { simpl. rewrite Hsize, <- length_to_pages_ceil by done.
        unfold vec_get_capacity, get_meta. lia. }
      intros values Hlen Hvalues.
      assert (Hwf1 : wf_buffer (resized b new_capacity)).
      { apply wf_resized; [done|done|]. intros _.
        exists (k + length_to_pages n NR_ELEM_IN_PAGE).
        unfold NR_ELEM_IN_PAGE in *. lia. }
      destruct (push_back_all_room values w1' h p1 (resized b new_capacity)
                  (k + length_to_pages n NR_ELEM_IN_PAGE) Hd1 Hwf1 Hes)
        as (w2 & b2 & Hrun2 & Hlog2 & Hd2 & Hlen2 & _).
      { simpl. exact Hnew. }
      { simpl. unfold NR_ELEM_IN_PAGE in *. lia. }
      { exact Hvalues. }
      exists w2, b2. done.
    + rewrite (call_realloc_fails _ _ _ _ _ _ _ Hb Hok). done.
Qed.

(** *** The caller's descriptor is not read again *)

Lemma add_page_if_needed_frame w h d a :
  add_page_if_needed succeeds relocates (overwrite_descriptor d a w) h
  = outcome_map (overwrite_descriptor d a)
      (add_page_if_needed succeeds relocates w h).
Proof.
  unfold add_page_if_needed, call_realloc, overwrite_descriptor.
  change (deref (store_desc w d a) (Some h)) with (deref w (Some h)).
  destruct (deref w (Some h)) as [| |h' p b]; [done..|].
  destruct (is_full b); [|done]. simpl.
  destruct (get_ctx b) as [c|]; [|done].
  destruct (get_realloc b) as [f|]; [|done].
  destruct (blocks w !! p) as [b0|]; [|done].
  destruct (succeeds _ _); [|done].
  destruct (_ <? _); [done|].
  destruct (relocates _ _); simpl; rewrite !lookup_insert_eq; reflexivity.
Qed.

Lemma run_operation_frame w vec op d a :
  run_operation succeeds relocates (overwrite_descriptor d a w) vec op
  = outcome_map (overwrite_descriptor d a)
      (run_operation succeeds relocates w vec op).
Proof.
  assert (Hinsert : ∀ index value,
            vvectorInsertValueAt succeeds relocates
              (overwrite_descriptor d a w) vec index value
            = outcome_map (overwrite_descriptor d a)
                (vvectorInsertValueAt succeeds relocates w vec index value)).
  { intros index value. unfold vvectorInsertValueAt.
    change (deref (overwrite_descriptor d a w) vec) with (deref w vec).
    destruct (deref w vec) as [| |h p b]; [done..|].
    rewrite add_page_if_needed_frame.
    destruct (add_page_if_needed succeeds relocates w h) as [r w1|]; [|done].
    cbn [outcome_map].
    change (deref (overwrite_descriptor d a w1) (Some h))
      with (deref w1 (Some h)).
    destruct (deref w1 (Some h)) as [| |h' p' b']; [done..|].
    destruct (_ >? _); [done|]. destruct value as [v|]; [|done].
    destruct (memmove _ _ _ _) as [b1|]; [|done].
    by destruct (memcpy_from _ _ _ _) as [b2|]. }
  assert (Hremove : ∀ index,
            vvectorRemoveAt (overwrite_descriptor d a w) vec index
            = outcome_map (overwrite_descriptor d a)
                (vvectorRemoveAt w vec index)).
  { intros index. unfold vvectorRemoveAt.
    change (deref (overwrite_descriptor d a w) vec) with (deref w vec).
    destruct (deref w vec) as [| |h p b]; [done..|].
    destruct (index_is_invalid b index); [done|].
    by destruct (memmove _ _ _ _) as [b1|]. }
  destruct op as [n| |index value|index value|value|index|]; simpl.
  - unfold vvectorReserve, call_realloc, overwrite_descriptor.
    change (deref (store_desc w d a) vec) with (deref w vec).
    destruct (deref w vec) as [| |h p b]; [done..|].
    destruct (n <? 0); [done|]. cbv zeta.
    fold (reserve_capacity b n).
    generalize (reserve_capacity b n). intros new_capacity. simpl.
    destruct (get_ctx b) as [c|]; [|done].
    destruct (get_realloc b) as [f|]; [|done].
    destruct (blocks w !! p) as [b0|]; [|done].
    destruct (succeeds _ _); [|done].
    destruct (_ <? _); [done|].
    destruct (relocates _ _); simpl; rewrite !lookup_insert_eq; reflexivity.
  - unfold vvectorShrinkToFit, call_realloc, overwrite_descriptor.
    change (deref (store_desc w d a) vec) with (deref w vec).
    destruct (deref w vec) as [| |h p b]; [done..|].
    destruct (has_empty_pages b) as [[]|]; [|done|done].
    destruct (nr_pages_available b) as [avail|]; [|done]. simpl.
    destruct (get_ctx b) as [c|]; [|done].
    destruct (get_realloc b) as [f|]; [|done].
    destruct (blocks w !! p) as [b0|]; [|done].
    destruct (succeeds _ _); [|done].
    destruct (_ <? _); [done|].
  destruct (relocates _ _); simpl; rewrite !lookup_insert_eq; reflexivity.
  - unfold vvectorWriteValueAt.
    change (deref (overwrite_descriptor d a w) vec) with (deref w vec).
    destruct (deref w vec) as [| |h p b]; [done..|].
    destruct (index_is_invalid b index); [done|].
    destruct value as [v|]; [|done].
    by destruct (memcpy_from _ _ _ _) as [b1|].
  - apply Hinsert.
  - unfold vvectorPushBack.
    change (deref (overwrite_descriptor d a w) vec) with (deref w vec).
    destruct (deref w vec) as [| |h p b]; [done..|].
    destruct value as [v|]; [|done]. apply Hinsert.
  - apply Hremove.
  - unfold vvectorRemoveBack.
    change (deref (overwrite_descriptor d a w) vec) with (deref w vec).
    destruct (deref w vec) as [| |h p b]; [done..|].
    destruct (_ =? _); [done|]. apply Hremove.
Qed.

Lemma run_operations_frame ops :
  ∀ w vec d a,
    run_operations succeeds relocates (overwrite_descriptor d a w) vec ops
    = overwrite_descriptor d a <$> run_operations succeeds relocates w vec ops.
Proof.
  induction ops as [|op ops IH]; intros w vec d a; [done|]. simpl.
  rewrite run_operation_frame.
  destruct (run_operation succeeds relocates w vec op) as [r w1|]; [|done].
  simpl.
  apply IH.
Qed.

(** C9: when [vec_new_] is given a descriptor and returns a handle, the
    block holds a copy of the descriptor in which every NULL function
    pointer is replaced by the library default; for a positive element
    size the container's allocate, deallocate and reallocate functions
    and its context are those of the copy; and whatever the caller
    writes into the original descriptor afterwards, the container's
    block, and with it everything resolved from it, is unchanged, and
    every later sequence of operations runs exactly as it would have. *)
Theorem allocator_descriptor_copied w sizeof_type d a h w1 :
  descs w !! d = Some a →
  vec_new_ succeeds w sizeof_type (Some d) = Ret (Some h) w1 →
  ∃ p b,
    deref w1 (Some h) = HValid h p b
    ∧ descr b = Some (with_defaults a)
    ∧ (0 < sizeof_type →
       get_malloc b = malloc_fn (with_defaults a)
       ∧ get_free b = free_fn (with_defaults a)
       ∧ get_realloc b = realloc_fn (with_defaults a)
       ∧ get_ctx b = Some (ctx a))
    ∧ ∀ a',
        deref (overwrite_descriptor d a' w1) (Some h) = HValid h p b
        ∧ ∀ ops,
            run_operations succeeds relocates (overwrite_descriptor d a' w1)
              (Some h) ops
            = overwrite_descriptor d a'
                <$> run_operations succeeds relocates w1 (Some h) ops.
Proof.
  intros Ha Hnew.
  destruct (vec_new__inv w sizeof_type (Some d) h w1 Hnew)
    as (Hsz & _ & _ & p & Hd1).
  unfold pointee in Hd1. simpl in Hd1. rewrite Ha in Hd1.
  exists p, (created sizeof_type (Some a)). split; [done|]. split; [done|].
  split.
  - intros Hpos.
    assert (Hneg : (- sizeof_type <? 0) = true) by (apply Z.ltb_lt; lia).
    unfold get_malloc, get_free, get_realloc, get_ctx, get_alloc,
      has_custom_alloc, get_meta. simpl. rewrite Hneg. done.
  - intros a'. split; [exact Hd1|]. intros ops. apply run_operations_frame.
Qed.

(** *** Failing reallocation *)

Lemma vvectorReserve_fails w vec h p b n e :
  deref w vec = HValid h p b → 0 ≤ n →
  (∃ f c, get_realloc b = Some f ∧ get_ctx b = Some c ∧
     e = EvRealloc f p (reserve_capacity b n) (vec_get_capacity b) c) →
  succeeds (log w) e = false →
  ∃ w1, vvectorReserve succeeds relocates w vec n = Ret VEC_ENOVEC w1
        ∧ cells w1 !! h = Some None
        ∧ blocks w1 !! p = Some b
        ∧ log w1 = log w ++ [e].
Proof.
  intros Hd Hn (f & c & Hf & Hc & ->) Hok.
  destruct (deref_valid_inv _ _ _ _ _ Hd) as (-> & Hcell & Hb).
  unfold vvectorReserve. rewrite Hd, Hf, Hc.
  destruct (Z.ltb_spec n 0) as [|_]; [lia|]. cbv zeta.
  fold (reserve_capacity b n).
  rewrite (call_realloc_fails _ _ _ _ _ _ _ Hb Hok). eexists.
  split; [reflexivity|]. simpl. by rewrite lookup_insert_eq.
Qed.

Lemma add_page_if_needed_fails w h p b e :
  deref w (Some h) = HValid h p b → is_full b = true →
  grow_request p b = Some e → succeeds (log w) e = false →
  add_page_if_needed succeeds relocates w h
  = Ret 1 (store_cell (log_event w e) h None).
Proof.
  intros Hd Hfull He Hok.
  destruct (deref_valid_inv _ _ _ _ _ Hd) as (_ & Hcell & Hb).
  unfold add_page_if_needed. rewrite Hd, Hfull. simpl.
  unfold grow_request in He.
  destruct (get_realloc b) as [f|]; [|done].
  destruct (get_ctx b) as [c|]; [|done]. injection He as <-.
  by rewrite (call_realloc_fails _ _ _ _ _ _ _ Hb Hok).
Qed.

Lemma vvectorInsertValueAt_fails w vec h p b i value e :
  deref w vec = HValid h p b → is_full b = true →
  grow_request p b = Some e → succeeds (log w) e = false →
  vvectorInsertValueAt succeeds relocates w vec i value = Fault.
Proof.
  intros Hd Hfull He Hok.
  destruct (deref_valid_inv _ _ _ _ _ Hd) as (-> & Hcell & Hb).
  unfold vvectorInsertValueAt.
  rewrite Hd, (add_page_if_needed_fails w h p b e Hd Hfull He Hok).
  unfold deref. simpl. by rewrite lookup_insert_eq.
Qed.

(** *** The invariant along sequences of operations *)







Lemma run_operation_invalid w vec op r w1 :
  deref w vec = HInvalid →
  run_operation succeeds relocates w vec op = Ret r w1 → w1 = w.
Proof.
  intros Hd. destruct op; simpl;
    unfold vvectorReserve, vvectorShrinkToFit, vvectorWriteValueAt,
      vvectorInsertValueAt, vvectorPushBack, vvectorRemoveAt,
      vvectorRemoveBack;
    rewrite Hd; by intros [= <- <-].
Qed.








End Runs.

(** ** Reads *)

Lemma vvectorGetAt_valid w vec h p b index :
  deref w vec = HValid h p b →
  vvectorGetAt w vec index
  = Some (if index <? Meta.length (meta b)
          then Some (p, get_start_of_data b + vec_get_element_size b * index)
          else None).
Proof.
  intros Hd. unfold vvectorGetAt, index_is_invalid, get_meta. rewrite Hd.
  destruct (Z.geb_spec index (Meta.length (meta b))),
    (Z.ltb_spec index (Meta.length (meta b))); (done || lia).
Qed.

(** Reading at [length] gives NULL. *)
Lemma vvectorGetAt_length w vec h p b :
  deref w vec = HValid h p b →
  vvectorGetAt w vec (Meta.length (meta b)) = Some None.
Proof.
  intros Hd. rewrite (vvectorGetAt_valid w vec h p b _ Hd).
  by rewrite Z.ltb_irrefl.
Qed.

(** C3: the code returns a non-NULL pointer for a negative index.  In the
    container holding one 4-byte element, index 0 gives the slot at
    offset 24 of the block and index 1 gives NULL, but index -1 gives the
    address 4 bytes before the element region, inside the metadata. *)
Theorem get_at_negative_index_not_null :
  vvectorGetLength pushed_world fresh_vec = Some 1
  ∧ vvectorGetAt pushed_world fresh_vec 0 = Some (Some (1%nat, 24))
  ∧ vvectorGetAt pushed_world fresh_vec 1 = Some None
  ∧ vvectorGetAt pushed_world fresh_vec (-1) = Some (Some (1%nat, 20)).
Proof. by vm_compute. Qed.

(** ** Concrete runs of the memory functions *)

(** C1: the code stores the result of the reallocation into the handle
    before testing it.  With an allocator that grants the two
    allocations of [vec_new_] and then fails, [vvectorReserve] returns 1
    (the value of [VEC_ENOVEC]), the handle cell holds NULL, the old
    block is still allocated and nothing points to it; and
    [vvectorPushBack], whose growth step fails the same way, goes on to
    dereference the NULL pointer instead of reporting the failure. *)
Theorem failed_reallocation_loses_buffer :
  vec_new_ (fails_after 2) empty_world 4 None = Ret fresh_vec (fresh_world 4)
  ∧ deref (fresh_world 4) fresh_vec = HValid 2 1 (created 4 None)
  ∧ (∃ w1,
       vvectorReserve (fails_after 2) never (fresh_world 4) fresh_vec 1
       = Ret VEC_ENOVEC w1
       ∧ cells w1 !! 2%nat = Some None
       ∧ blocks w1 !! 1%nat = Some (created 4 None)
       ∧ log w1
         = log (fresh_world 4) ++ [EvRealloc vvector_lib_realloc 1 152 24 0])
  ∧ vvectorPushBack (fails_after 2) never (fresh_world 4) fresh_vec
      (Some some_value) = Fault.
Proof.
  split; [by vm_compute|]. split; [by vm_compute|]. split; [|by vm_compute].
  eexists. split; [by vm_compute|]. by vm_compute.
Qed.

(** C2: [vvectorInsertValueAt] runs [add_page_if_needed] before it checks
    its arguments.  On the fresh container for 4-byte elements, which is
    full, an insertion at index 1 (beyond length 0) returns
    [VEC_EBADINDEX] and one with a NULL value returns [VEC_ENOVALUE],
    but both have reallocated the buffer: the capacity went from 24 to
    152 bytes. *)
Theorem rejected_insert_grows_capacity :
  block_of (fresh_world 4) fresh_vec = Some (created 4 None)
  ∧ Meta.capacity (meta (created 4 None)) = 24
  ∧ Meta.capacity (meta (grown (created 4 None))) = 152
  ∧ (∃ w1,
       vvectorInsertValueAt always never (fresh_world 4) fresh_vec 1
         (Some some_value) = Ret VEC_EBADINDEX w1
       ∧ block_of w1 fresh_vec = Some (grown (created 4 None))
       ∧ log w1
         = log (fresh_world 4) ++ [EvRealloc vvector_lib_realloc 1 152 24 0])
  ∧ (∃ w1,
       vvectorInsertValueAt always never (fresh_world 4) fresh_vec 0 None
       = Ret VEC_ENOVALUE w1
       ∧ block_of w1 fresh_vec = Some (grown (created 4 None))
       ∧ log w1
         = log (fresh_world 4) ++ [EvRealloc vvector_lib_realloc 1 152 24 0]).
Proof.
  split; [by vm_compute|]. split; [by vm_compute|]. split; [by vm_compute|].
  split; eexists; (split; [by vm_compute|]); by vm_compute.
Qed.

(** ** Removing from an empty container *)

(** The value [vvectorRemoveBack] returns on an empty container is the
    value [vvectorRemoveAt] returns for an index out of range. *)
Lemma remove_back_empty_is_bad_index :
  vvectorRemoveBack (fresh_world 4) fresh_vec
  = Ret VEC_EBADINDEX (fresh_world 4)
  ∧ vvectorRemoveAt (fresh_world 4) fresh_vec 0
    = Ret VEC_EBADINDEX (fresh_world 4).
Proof. split; by vm_compute. Qed.

(** C5, amended: on a valid container of length 0 [vvectorRemoveBack]
    returns 2 and changes nothing; 2 is the value of [VEC_EBADINDEX],
    and differs from 0 (success) and from [VEC_ENOVEC] (invalid
    handle). *)
Theorem remove_back_empty w vec h p b :
  deref w vec = HValid h p b → Meta.length (meta b) = 0 →
  vvectorRemoveBack w vec = Ret 2 w
  ∧ 2 = VEC_EBADINDEX ∧ 2 ≠ VEC_ENOVEC ∧ (2 : Z) ≠ 0.
Proof.
  intros Hd Hlen. unfold vvectorRemoveBack, get_meta. rewrite Hd, Hlen.
  done.
Qed.

Lemma remove_back_empty_witness :
  vvectorRemoveBack (fresh_world 4) fresh_vec = Ret 2 (fresh_world 4)
  ∧ 2 = VEC_EBADINDEX ∧ 2 ≠ VEC_ENOVEC ∧ (2 : Z) ≠ 0.
Proof.
  apply (remove_back_empty (fresh_world 4) fresh_vec 2 1 (created 4 None));
    reflexivity.
Defined.

(** ** The theorems at concrete containers *)

Lemma allocator_descriptor_copied_witness :
  ∃ w1 p b,
    vec_new_ always caller_world 4 (Some 7%nat) = Ret (Some 2%nat) w1
    ∧ deref w1 (Some 2%nat) = HValid 2 p b
    ∧ descr b = Some (with_defaults caller_descriptor)
    ∧ (get_malloc b = Some (user_fn 1)
       ∧ get_free b = Some vvector_lib_free
       ∧ get_realloc b = Some (user_fn 3)
       ∧ get_ctx b = Some 42)
    ∧ ∀ a',
        deref (overwrite_descriptor 7 a' w1) (Some 2%nat) = HValid 2 p b
        ∧ ∀ ops,
            run_operations always never (overwrite_descriptor 7 a' w1)
              (Some 2%nat) ops
            = overwrite_descriptor 7 a'
                <$> run_operations always never w1 (Some 2%nat) ops.
Proof.
  destruct (vec_new_ always caller_world 4 (Some 7%nat)) as [[h|] w1|] eqn:Hnew;
    [|by vm_compute in Hnew..].
  assert (h = 2%nat) as -> by (vm_compute in Hnew; congruence).
  destruct (allocator_descriptor_copied always never caller_world 4 7
              caller_descriptor 2 w1 eq_refl Hnew)
    as (p & b & Hd & Hdescr & Hfns & Hframe).
  exists w1, p, b. split; [reflexivity|]. split; [exact Hd|].
  split; [exact Hdescr|]. split; [|exact Hframe].
  apply Hfns. by vm_compute.
Defined.

(** With elements of size zero [nr_pages_available] divides by zero:
    [vvectorShrinkToFit] neither returns nor reallocates. *)
Lemma shrink_to_fit_zero_size_faults :
  block_of (fresh_world 0) fresh_vec = Some (created 0 None)
  ∧ nr_pages_available (created 0 None) = None
  ∧ vvectorShrinkToFit always never (fresh_world 0) fresh_vec = Fault.
Proof. split; [by vm_compute|]. split; by vm_compute. Qed.

(** * Further properties *)

(** ** Element bytes *)

Section Slices.
Context {A : Type}.
Implicit Types d v : list A.

Lemma drop_take_prefix d (a m : nat) :
  drop a (take (a + m) d) = take m (drop a d).
Proof. by rewrite take_drop_commute. Qed.

Lemma take_take_prefix d (a m : nat) :
  take a (take (a + m) d) = take a d.
Proof. rewrite take_take. f_equal. lia. Qed.

Lemma inserted_bytes d v (a e m : nat) :
  (a + e + m ≤ length d)%nat → (e ≤ length v)%nat →
  take (a + e + m) (write_bytes (move_bytes d (a + e) a m) a v e)
  = take a (take (a + m) d) ++ take e v ++ drop a (take (a + m) d).
Proof.
  intros Hd Hv. rewrite take_take_prefix, drop_take_prefix.
  assert (Hd1 : move_bytes d (a + e) a m
                = take a d ++ take e (drop a d) ++ take m (drop a d)
                    ++ drop (a + e + m) d).
  { unfold move_bytes. rewrite take_add_split. by rewrite <- !app_assoc. }
  rewrite Hd1. unfold write_bytes.
  rewrite (take_app_length' _ _ a) by (rewrite length_take; lia).
  rewrite (drop_app_add' _ _ a e) by (rewrite length_take; lia).
  rewrite (drop_app_length' _ _ e) by (rewrite length_take, length_drop; lia).
  rewrite !app_assoc.
  rewrite take_app_length'; [done|].
  rewrite !length_app, !length_take, length_drop. lia.
Qed.

Lemma removed_bytes d (a e m : nat) :
  (a + e + m ≤ length d)%nat →
  take (a + m) (move_bytes d a (a + e) m)
  = take a (take (a + e + m) d) ++ drop (a + e) (take (a + e + m) d).
Proof.
  intros Hd.
  replace (a + e + m)%nat with (a + (e + m))%nat at 1 by lia.
  rewrite take_take_prefix, drop_take_prefix.
  unfold move_bytes. rewrite app_assoc.
  rewrite take_app_length'; [done|].
  rewrite length_app, !length_take, length_drop. lia.
Qed.

Lemma written_bytes d v (a e m : nat) :
  (a + e + m ≤ length d)%nat → (e ≤ length v)%nat →
  take (a + e + m) (write_bytes d a v e)
  = take a (take (a + e + m) d) ++ take e v
    ++ drop (a + e) (take (a + e + m) d).
Proof.
  intros Hd Hv.
  replace (a + e + m)%nat with (a + (e + m))%nat at 2 by lia.
  rewrite take_take_prefix, drop_take_prefix.
  unfold write_bytes.
  rewrite <- (take_drop m (drop (a + e) d)) at 1.
  rewrite !app_assoc.
  rewrite take_app_length'; [done|].
  rewrite !length_app, !length_take, length_drop. lia.
Qed.
Lemma slice_before d (a x e : nat) R :
  (x + e ≤ a)%nat → (a ≤ length d)%nat →
  take e (drop x (take a d ++ R)) = take e (drop x d).
Proof.
  intros Hx Ha.
  rewrite drop_app_le by (rewrite length_take; lia).
  rewrite take_app_le by (rewrite length_drop, length_take; lia).
  replace a with (x + (a - x))%nat by lia.
  rewrite drop_take_prefix, take_take. f_equal. lia.
Qed.

Lemma slice_replace_same d v (a e : nat) R :
  (a ≤ length d)%nat → (e ≤ length v)%nat →
  take e (drop a (take a d ++ take e v ++ R)) = take e v.
Proof.
  intros Ha He.
  rewrite drop_app_length' by (rewrite length_take; lia).
  rewrite take_app_length' by (rewrite length_take; lia). done.
Qed.

Lemma slice_after_replace d v (a e x e' : nat) :
  (a + e ≤ x)%nat → (a + e ≤ length d)%nat → (e ≤ length v)%nat →
  take e' (drop x (take a d ++ take e v ++ drop (a + e) d))
  = take e' (drop x d).
Proof.
  intros Hx Hd Hv. rewrite app_assoc.
  rewrite drop_app_ge by (rewrite length_app, !length_take; lia).
  rewrite length_app, !length_take, drop_drop. do 2 f_equal. lia.
Qed.

Lemma slice_after_insert d v (a e x e' : nat) :
  (a + e ≤ x)%nat → (a ≤ length d)%nat → (e ≤ length v)%nat →
  take e' (drop x (take a d ++ take e v ++ drop a d))
  = take e' (drop (x - e) d).
Proof.
  intros Hx Hd Hv. rewrite app_assoc.
  rewrite drop_app_ge by (rewrite length_app, !length_take; lia).
  rewrite length_app, !length_take, drop_drop. do 2 f_equal. lia.
Qed.

Lemma slice_after_remove d (a e x e' : nat) :
  (a ≤ x)%nat → (a + e ≤ length d)%nat →
  take e' (drop x (take a d ++ drop (a + e) d))
  = take e' (drop (x + e) d).
Proof.
  intros Hx Hd.
  rewrite drop_app_ge by (rewrite length_take; lia).
  rewrite length_take, drop_drop. do 2 f_equal. lia.
Qed.
Lemma slice_concat (e : nat) (vs : list (list A)) :
  Forall (λ v, e ≤ length v)%nat vs →
  ∀ i v, vs !! i = Some v →
         take e (drop (i * e) (concat (take e <$> vs))) = take e v.
Proof.
  induction 1 as [|v0 vs Hv0 Hvs IH]; intros i v Hi; [done|].
  rewrite fmap_cons, concat_cons.
  destruct i as [|i].
  - injection Hi as ->. rewrite Nat.mul_0_l, drop_0.
    rewrite take_app_length' by (rewrite length_take; lia). done.
  - replace (S i * e)%nat with (e + i * e)%nat by lia.
    rewrite drop_app_add' by (rewrite length_take; lia). by apply IH.
Qed.
End Slices.

Lemma elements_inserted b i v :
  wf_buffer b → has_room b → 0 ≤ i ≤ Meta.length (meta b) →
  vec_get_element_size b ≤ Z.of_nat (length v) →
  elements (inserted b i v)
  = insert_element (vec_get_element_size b) (elements b) i v.
Proof.
  intros Hwf Hroom Hi Hv.
  pose proof (vec_get_element_size_nonneg b) as Hes.
  pose proof (slot_bound b (Meta.length (meta b) + 1) Hwf ltac:(lia) Hroom)
    as Hb.
  assert (Hi0 : 0 ≤ i) by lia.
  assert (Hm : 0 ≤ Meta.length (meta b) - i) by lia.
  pose proof (slot_add b i _ Hwf Hi0 Hm) as Hsum.
  pose proof (slot_add b (i + 1) _ Hwf ltac:(lia) Hm) as Hdst.
  pose proof (slot_succ b i Hwf Hi0) as Hsucc.
  pose proof (slot_eq b i Hwf Hi0) as Hslot.
  replace (i + (Meta.length (meta b) - i))
    with (Meta.length (meta b)) in Hsum by lia.
  replace (i + 1 + (Meta.length (meta b) - i))
    with (Meta.length (meta b) + 1) in Hdst by lia.
  unfold elements, inserted, insert_element. simpl.
  change (vec_get_element_size (set_meta _ _))
    with (vec_get_element_size b).
  rewrite <- Hslot, <- Hsum, <- Hdst, Hsucc.
  apply inserted_bytes; lia.
Qed.

Lemma elements_removed b i :
  wf_buffer b → 0 ≤ i < Meta.length (meta b) →
  elements (removed b i)
  = remove_element (vec_get_element_size b) (elements b) i.
Proof.
  intros Hwf Hi.
  pose proof (vec_get_element_size_nonneg b) as Hes.
  pose proof (slot_bound b _ Hwf (wf_length b Hwf) (wf_elements_fit b Hwf))
    as Hb.
  assert (Hi0 : 0 ≤ i) by lia.
  assert (Hm : 0 ≤ Meta.length (meta b) - i - 1) by lia.
  pose proof (slot_add b (i + 1) _ Hwf ltac:(lia) Hm) as Hsrc.
  pose proof (slot_add b i _ Hwf Hi0 Hm) as Hdst.
  pose proof (slot_succ b i Hwf Hi0) as Hsucc.
  pose proof (slot_eq b i Hwf Hi0) as Hslot.
  pose proof (slot_eq b (i + 1) Hwf ltac:(lia)) as Hslot1.
  replace (i + 1 + (Meta.length (meta b) - i - 1))
    with (Meta.length (meta b)) in Hsrc by lia.
  replace (i + (Meta.length (meta b) - i - 1))
    with (Meta.length (meta b) - 1) in Hdst by lia.
  unfold elements, removed, remove_element. simpl.
  change (vec_get_element_size (set_meta _ _))
    with (vec_get_element_size b).
  rewrite <- Hslot, <- Hslot1, <- Hsrc, <- Hdst, Hsucc.
  apply removed_bytes. lia.
Qed.

Lemma length_data_written b i v :
  wf_buffer b → 0 ≤ i < Meta.length (meta b) →
  vec_get_element_size b ≤ Z.of_nat (length v) →
  length (data (written b i v)) = length (data b).
Proof.
  intros Hwf Hi Hv. unfold written. simpl.
  pose proof (vec_get_element_size_nonneg b) as Hes.
  pose proof (slot_bound b _ Hwf (wf_length b Hwf) (wf_elements_fit b Hwf))
    as Hb.
  assert (Hi0 : 0 ≤ i) by lia.
  assert (Hm : 0 ≤ Meta.length (meta b) - i - 1) by lia.
  pose proof (slot_add b (i + 1) _ Hwf ltac:(lia) Hm) as Hsrc.
  pose proof (slot_succ b i Hwf Hi0) as Hsucc.
  replace (i + 1 + (Meta.length (meta b) - i - 1))
    with (Meta.length (meta b)) in Hsrc by lia.
  rewrite length_write_bytes; lia.
Qed.

Lemma wf_written b i v :
  wf_buffer b → 0 ≤ i < Meta.length (meta b) →
  vec_get_element_size b ≤ Z.of_nat (length v) →
  wf_buffer (written b i v).
Proof.
  intros Hwf Hi Hv.
  apply (wf_update b); try done.
  - by apply length_data_written.
  - apply (wf_length b Hwf).
  - apply (wf_elements_fit b Hwf).
Qed.

Lemma elements_written b i v :
  wf_buffer b → 0 ≤ i < Meta.length (meta b) →
  vec_get_element_size b ≤ Z.of_nat (length v) →
  elements (written b i v)
  = replace_element (vec_get_element_size b) (elements b) i v.
Proof.
  intros Hwf Hi Hv.
  pose proof (vec_get_element_size_nonneg b) as Hes.
  pose proof (slot_bound b _ Hwf (wf_length b Hwf) (wf_elements_fit b Hwf))
    as Hb.
  assert (Hi0 : 0 ≤ i) by lia.
  assert (Hm : 0 ≤ Meta.length (meta b) - i - 1) by lia.
  pose proof (slot_add b (i + 1) _ Hwf ltac:(lia) Hm) as Hsrc.
  pose proof (slot_succ b i Hwf Hi0) as Hsucc.
  pose proof (slot_eq b i Hwf Hi0) as Hslot.
  pose proof (slot_eq b (i + 1) Hwf ltac:(lia)) as Hslot1.
  replace (i + 1 + (Meta.length (meta b) - i - 1))
    with (Meta.length (meta b)) in Hsrc by lia.
  unfold elements, written, replace_element. simpl.
  change (vec_get_element_size (set_data _ _))
    with (vec_get_element_size b).
  rewrite <- Hslot, <- Hslot1, <- Hsrc, Hsucc.
  apply written_bytes; lia.
Qed.

Lemma vvectorWriteValueAt_ok w vec h p b i v :
  deref w vec = HValid h p b → wf_buffer b →
  0 ≤ i < Meta.length (meta b) →
  vec_get_element_size b ≤ Z.of_nat (length v) →
  vvectorWriteValueAt w vec i (Some v)
  = Ret 0 (store_block w p (written b i v)).
Proof.
  intros Hd Hwf Hi Hv. unfold vvectorWriteValueAt. rewrite Hd.
  unfold index_is_invalid, get_meta.
  destruct (Z.geb_spec i (Meta.length (meta b))); [lia|].
  pose proof (vec_get_element_size_nonneg b) as Hes.
  pose proof (get_start_of_data_pos b) as Hst.
  pose proof (wf_elements_fit b Hwf) as Hfit.
  rewrite memcpy_from_ok; [done|lia|nia|nia|].
  intros Hpos. destruct (wf_pages b Hwf Hpos) as [Hsd _]. split; [nia|lia].
Qed.

(** Reading one element out of the element bytes after a change. *)
Lemma element_at_replace es (E : list cell) i v j :
  0 ≤ es → 0 ≤ i → (i + 1) * es ≤ Z.of_nat (length E) →
  es ≤ Z.of_nat (length v) → 0 ≤ j →
  element_at es (replace_element es E i v) j
  = if j =? i then take (Z.to_nat es) v else element_at es E j.
Proof.
  intros Hes Hi HE Hv Hj. unfold element_at, replace_element.
  replace (Z.to_nat ((i + 1) * es))
    with (Z.to_nat (i * es) + Z.to_nat es)%nat by nia.
  destruct (Z.eqb_spec j i) as [->|Hne].
  - apply slice_replace_same; nia.
  - destruct (Z_lt_le_dec j i).
    + apply slice_before; nia.
    + apply slice_after_replace; nia.
Qed.

Lemma element_at_insert es (E : list cell) i v j :
  0 ≤ es → 0 ≤ i → i * es ≤ Z.of_nat (length E) →
  es ≤ Z.of_nat (length v) → 0 ≤ j →
  element_at es (insert_element es E i v) j
  = if j <? i then element_at es E j
    else if j =? i then take (Z.to_nat es) v
    else element_at es E (j - 1).
Proof.
  intros Hes Hi HE Hv Hj. unfold element_at, insert_element.
  destruct (Z.ltb_spec j i).
  - apply slice_before; nia.
  - destruct (Z.eqb_spec j i) as [->|Hne].
    + apply slice_replace_same; nia.
    + replace (Z.to_nat ((j - 1) * es))
        with (Z.to_nat (j * es) - Z.to_nat es)%nat by nia.
      apply slice_after_insert; nia.
Qed.

Lemma element_at_remove es (E : list cell) i j :
  0 ≤ es → 0 ≤ i → (i + 1) * es ≤ Z.of_nat (length E) → 0 ≤ j →
  element_at es (remove_element es E i) j
  = if j <? i then element_at es E j else element_at es E (j + 1).
Proof.
  intros Hes Hi HE Hj. unfold element_at, remove_element.
  replace (Z.to_nat ((i + 1) * es))
    with (Z.to_nat (i * es) + Z.to_nat es)%nat by nia.
  destruct (Z.ltb_spec j i).
  - apply slice_before; nia.
  - replace (Z.to_nat ((j + 1) * es))
      with (Z.to_nat (j * es) + Z.to_nat es)%nat by nia.
    apply slice_after_remove; nia.
Qed.

Lemma length_elements b :
  wf_buffer b →
  Z.of_nat (length (elements b))
  = Meta.length (meta b) * vec_get_element_size b.
Proof.
  intros Hwf. unfold elements. rewrite length_take.
  pose proof (wf_data_fit b Hwf). pose proof (wf_length b Hwf).
  pose proof (vec_get_element_size_nonneg b). nia.
Qed.

Lemma element_at_appended es (E : list cell) len (vs : list (list cell)) i v :
  0 ≤ es → 0 ≤ len → Z.of_nat (length E) = len * es →
  Forall (λ v, es ≤ Z.of_nat (length v)) vs →
  vs !! i = Some v →
  element_at es (E ++ concat (take (Z.to_nat es) <$> vs)) (len + Z.of_nat i)
  = take (Z.to_nat es) v.
Proof.
  intros Hes Hlen HE Hvs Hi. unfold element_at.
  replace (Z.to_nat ((len + Z.of_nat i) * es))
    with (length E + i * Z.to_nat es)%nat by nia.
  rewrite drop_app_add' by done.
  apply slice_concat; [|done].
  eapply Forall_impl; [exact Hvs|]. intros x Hx. simpl in Hx. lia.
Qed.

(** ** Reading *)

Lemma load_element w p b i :
  blocks w !! p = Some b → wf_buffer b → 0 ≤ i < Meta.length (meta b) →
  load w (p, get_start_of_data b + vec_get_element_size b * i)
    (vec_get_element_size b)
  = Some (element_at (vec_get_element_size b) (elements b) i).
Proof.
  intros Hb Hwf Hi. unfold load. simpl. rewrite Hb.
  pose proof (vec_get_element_size_nonneg b) as Hes.
  pose proof (get_start_of_data_pos b) as Hst.
  pose proof (wf_elements_fit b Hwf) as Hfit.
  pose proof (wf_start b Hwf) as Hstart.
  pose proof (wf_data_fit b Hwf) as Hdata.
  destruct (Z.eqb_spec (vec_get_element_size b) 0) as [H0|Hne].
  - unfold valid_pointer, element_at. rewrite H0.
    destruct (Z.leb_spec 0 (get_start_of_data b + 0 * i)); [|lia].
    destruct (Z.leb_spec (get_start_of_data b + 0 * i) (block_size b));
      [|unfold block_size in *; lia].
    done.
  - destruct (wf_pages b Hwf ltac:(lia)) as [Hsd _].
    destruct (Z.ltb_spec 0 (vec_get_element_size b)); [|lia].
    unfold in_data.
    destruct (Z.leb_spec (phys_header b)
                (get_start_of_data b + vec_get_element_size b * i)); [|nia].
    destruct (Z.leb_spec
                (get_start_of_data b + vec_get_element_size b * i
                 + vec_get_element_size b) (block_size b)); [|nia].
    simpl. f_equal. unfold element_at, elements.
    replace (Z.to_nat (get_start_of_data b + vec_get_element_size b * i
                       - phys_header b))
      with (Z.to_nat (i * vec_get_element_size b)) by lia.
    replace (Z.to_nat (Meta.length (meta b) * vec_get_element_size b))
      with (Z.to_nat (i * vec_get_element_size b)
            + (Z.to_nat (Meta.length (meta b) * vec_get_element_size b)
               - Z.to_nat (i * vec_get_element_size b)))%nat by nia.
    rewrite drop_take_prefix, take_take. f_equal. nia.
Qed.

Lemma read_value_element w vec h p b i :
  deref w vec = HValid h p b → wf_buffer b → 0 ≤ i < Meta.length (meta b) →
  read_value w vec i (vec_get_element_size b)
  = Some (element_at (vec_get_element_size b) (elements b) i).
Proof.
  intros Hd Hwf Hi. unfold read_value.
  rewrite (vvectorGetAt_valid w vec h p b i Hd).
  destruct (Z.ltb_spec i (Meta.length (meta b))); [|lia].
  apply load_element; try done.
  by destruct (deref_valid_inv _ _ _ _ _ Hd) as (_ & _ & ?).
Qed.

(** ** Single calls *)

Section Calls.
Variable succeeds : list event → event → bool.
Variable relocates : list event → event → bool.

Lemma add_page_if_needed_log w h p b r w1 :
  deref w (Some h) = HValid h p b → wf_buffer b →
  (is_full b = true →
   ∃ e, grow_request p b = Some e ∧ succeeds (log w) e = true) →
  add_page_if_needed succeeds relocates w h = Ret r w1 →
  log w1
  = log w ++ (if is_full b then option_list (grow_request p b) else []).
Proof.
  intros Hd Hwf Hgrow Hadd. destruct (is_full b) eqn:Hfull.
  - destruct (Hgrow eq_refl) as (e & He & Hs).
    destruct (add_page_if_needed_grows succeeds relocates w h p b e
                Hd Hwf Hfull He Hs) as (w1' & p1 & Hadd' & _ & Hlog & _).
    rewrite Hadd' in Hadd. injection Hadd as _ <-. by rewrite He.
  - rewrite (add_page_if_needed_not_full succeeds relocates w h p b Hd Hfull)
      in Hadd.
    injection Hadd as _ <-. by rewrite app_nil_r.
Qed.

Lemma vvectorInsertValueAt_spec w vec h p b i v :
  deref w vec = HValid h p b → wf_buffer b →
  0 ≤ i ≤ Meta.length (meta b) →
  vec_get_element_size b ≤ Z.of_nat (length v) →
  (is_full b = true →
   ∃ e, grow_request p b = Some e ∧ succeeds (log w) e = true) →
  ∃ w1 p1 b1,
    vvectorInsertValueAt succeeds relocates w vec i (Some v) = Ret 0 w1
    ∧ deref w1 vec = HValid h p1 b1
    ∧ wf_buffer b1
    ∧ same_layout b b1
    ∧ Meta.length (meta b1) = Meta.length (meta b) + 1
    ∧ elements b1
      = insert_element (vec_get_element_size b) (elements b) i v
    ∧ Meta.capacity (meta b1)
      = Meta.capacity (meta b)
        + (if is_full b then NR_ELEM_IN_PAGE * vec_get_element_size b else 0)
    ∧ log w1
      = log w ++ (if is_full b then option_list (grow_request p b) else [])
    ∧ descs w1 = descs w.
Proof.
  intros Hd Hwf Hi Hv Hgrow.
  destruct (deref_valid_inv _ _ _ _ _ Hd) as (-> & Hc & Hb).
  destruct (add_page_if_needed_ready succeeds relocates w h p b Hd Hwf Hgrow)
    as (w1 & p1 & Hadd & Hd1 & _ & Hdescs).
  pose proof (add_page_if_needed_log w h p b 0 w1 Hd Hwf Hgrow Hadd) as Hlog.
  destruct (ready_buffer b Hwf) as (Hwf1 & Hroom & Hel & Hlen & Hes & Hcap).
  set (b1 := if is_full b then grown b else b) in *.
  assert (Hlay : same_layout b b1)
    by (unfold b1; destruct (is_full b); split; reflexivity).
  rewrite <- Hlen, <- Hes in *.
  pose proof (vvectorInsertValueAt_ready succeeds relocates w (Some h) h p b
                0 w1 p1 b1 i v Hd Hadd Hd1 Hwf1 Hroom Hi Hv) as Hins.
  destruct (deref_valid_inv _ _ _ _ _ Hd1) as (_ & Hc1 & Hb1).
  exists (store_block w1 p1 (inserted b1 i v)), p1, (inserted b1 i v).
  split_and!.
  - exact Hins.
  - by apply deref_store_block.
  - by apply wf_inserted.
  - destruct Hlay as [? ?]. split; simpl; done.
  - reflexivity.
  - rewrite <- Hel. by apply elements_inserted.
  - simpl. exact Hcap.
  - exact Hlog.
  - exact Hdescs.
Qed.

Lemma vvectorRemoveAt_spec w vec h p b i :
  deref w vec = HValid h p b → wf_buffer b →
  0 ≤ i < Meta.length (meta b) →
  ∃ w1 b1,
    vvectorRemoveAt w vec i = Ret 0 w1
    ∧ deref w1 vec = HValid h p b1
    ∧ wf_buffer b1
    ∧ same_layout b b1
    ∧ Meta.length (meta b1) = Meta.length (meta b) - 1
    ∧ elements b1 = remove_element (vec_get_element_size b) (elements b) i
    ∧ Meta.capacity (meta b1) = Meta.capacity (meta b)
    ∧ log w1 = log w
    ∧ descs w1 = descs w.
Proof.
  intros Hd Hwf Hi.
  destruct (deref_valid_inv _ _ _ _ _ Hd) as (-> & Hc & Hb).
  exists (store_block w p (removed b i)), (removed b i). split_and!.
  - by apply (vvectorRemoveAt_ok w (Some h) h p b i).
  - by apply deref_store_block.
  - by apply wf_removed.
  - split; reflexivity.
  - reflexivity.
  - by apply elements_removed.
  - reflexivity.
  - reflexivity.
  - reflexivity.
Qed.

Lemma same_layout_element_size b b1 :
  same_layout b b1 → vec_get_element_size b1 = vec_get_element_size b.
Proof. intros [Hes _]. unfold vec_get_element_size, get_meta. by rewrite Hes. Qed.

Lemma same_layout_allocator b b1 :
  same_layout b b1 →
  get_realloc b1 = get_realloc b ∧ get_free b1 = get_free b
  ∧ get_malloc b1 = get_malloc b ∧ get_ctx b1 = get_ctx b
  ∧ get_alloc b1 = get_alloc b ∧ has_custom_alloc b1 = has_custom_alloc b.
Proof.
  intros [Hes Hdescr].
  unfold get_realloc, get_free, get_malloc, get_ctx, get_alloc,
    has_custom_alloc, get_meta.
  by rewrite Hes, Hdescr.
Qed.

Lemma same_layout_refl b : same_layout b b.
Proof. by split. Qed.

Lemma same_layout_trans b b1 b2 :
  same_layout b b1 → same_layout b1 b2 → same_layout b b2.
Proof. intros [? ?] [? ?]. split; congruence. Qed.

Lemma length_element_at b i :
  wf_buffer b → 0 ≤ i < Meta.length (meta b) →
  Z.of_nat (length (element_at (vec_get_element_size b) (elements b) i))
  = vec_get_element_size b.
Proof.
  intros Hwf Hi. unfold element_at.
  pose proof (length_elements b Hwf) as HE.
  pose proof (vec_get_element_size_nonneg b) as Hes.
  rewrite length_take, length_drop. nia.
Qed.

(** X1. A NULL handle, and a handle whose buffer pointer is NULL, is
    rejected by every function of the interface and nothing changes:
    the length is 0, the container counts as empty, the get functions
    return NULL, the functions that change the container and
    [vvectorFree] return [VEC_ENOVEC], the demo's emptying loop makes no
    iteration, and the debug functions return [VEC_ENOVEC] or NULL. *)
Theorem invalid_handle_rejected w vec :
  deref w vec = HInvalid →
  vvectorGetLength w vec = Some 0
  ∧ vvectorIsEmpty w vec = Some 1
  ∧ (∀ index, vvectorGetAt w vec index = Some None)
  ∧ vvectorGetFront w vec = Some None
  ∧ vvectorGetBack w vec = Some None
  ∧ (∀ op, run_operation succeeds relocates w vec op = Ret VEC_ENOVEC w)
  ∧ vvectorFree w vec = Ret VEC_ENOVEC w
  ∧ (∀ fuel, remove_until_empty fuel w vec = Done 0 w)
  ∧ vvector_debug_get_element_size w vec = Some VEC_ENOVEC
  ∧ vvector_debug_get_capacity w vec = Some VEC_ENOVEC
  ∧ vvector_debug_get_malloc_fn w vec = Some None
  ∧ vvector_debug_get_free_fn w vec = Some None
  ∧ vvector_debug_get_realloc_fn w vec = Some None
  ∧ vvector_debug_get_ctx w vec = Some 0.
Proof.
  intros Hd. split_and!.
  - unfold vvectorGetLength. by rewrite Hd.
  - unfold vvectorIsEmpty. by rewrite Hd.
  - intros index. unfold vvectorGetAt. by rewrite Hd.
  - unfold vvectorGetFront. by rewrite Hd.
  - unfold vvectorGetBack. by rewrite Hd.
  - intros op. destruct op; unfold run_operation;
      [ unfold vvectorReserve | unfold vvectorShrinkToFit
      | unfold vvectorWriteValueAt | unfold vvectorInsertValueAt
      | unfold vvectorPushBack | unfold vvectorRemoveAt
      | unfold vvectorRemoveBack ]; by rewrite Hd.
  - unfold vvectorFree. by rewrite Hd.
  - intros fuel.
    destruct fuel; cbn [remove_until_empty]; unfold vvectorIsEmpty;
      by rewrite Hd.
  - unfold vvector_debug_get_element_size. by rewrite Hd.
  - unfold vvector_debug_get_capacity. by rewrite Hd.
  - unfold vvector_debug_get_malloc_fn. by rewrite Hd.
  - unfold vvector_debug_get_free_fn. by rewrite Hd.
  - unfold vvector_debug_get_realloc_fn. by rewrite Hd.
  - unfold vvector_debug_get_ctx. by rewrite Hd.
Qed.

(** X2. On a well-formed container, [vvectorGetAt] with an index from
    0 to length - 1 returns the address of that element inside the
    buffer, and the [element_size] bytes read through it are the bytes
    of the element; with an index of length or more it returns NULL. *)
Theorem get_at_reads_element w vec h p b index :
  deref w vec = HValid h p b → wf_buffer b →
  (0 ≤ index < Meta.length (meta b) →
   vvectorGetAt w vec index
   = Some (Some (p, get_start_of_data b + vec_get_element_size b * index))
   ∧ read_value w vec index (vec_get_element_size b)
     = Some (element_at (vec_get_element_size b) (elements b) index)
   ∧ Z.of_nat
       (length (element_at (vec_get_element_size b) (elements b) index))
     = vec_get_element_size b)
  ∧ (Meta.length (meta b) ≤ index →
     vvectorGetAt w vec index = Some None
     ∧ read_value w vec index (vec_get_element_size b) = None).
Proof.
  intros Hd Hwf. split.
  - intros Hi. split_and!.
    + rewrite (vvectorGetAt_valid w vec h p b index Hd).
      by destruct (Z.ltb_spec index (Meta.length (meta b))); [|lia].
    + by apply (read_value_element w vec h p b).
    + by apply length_element_at.
  - intros Hi. unfold read_value.
    rewrite (vvectorGetAt_valid w vec h p b index Hd).
    by destruct (Z.ltb_spec index (Meta.length (meta b))); [lia|].
Qed.

(** X3. On a well-formed container, [vvectorGetFront] and
    [vvectorGetBack] return NULL when the container is empty;
    otherwise they return what [vvectorGetAt] returns for index 0 and
    for index length - 1, and reading through them gives the first and
    the last element. *)
Theorem get_front_back w vec h p b :
  deref w vec = HValid h p b → wf_buffer b →
  (Meta.length (meta b) = 0 →
   vvectorGetFront w vec = Some None ∧ vvectorGetBack w vec = Some None)
  ∧ (0 < Meta.length (meta b) →
     vvectorGetFront w vec = vvectorGetAt w vec 0
     ∧ vvectorGetBack w vec = vvectorGetAt w vec (Meta.length (meta b) - 1)
     ∧ read_front w vec (vec_get_element_size b)
       = Some (element_at (vec_get_element_size b) (elements b) 0)
     ∧ read_back w vec (vec_get_element_size b)
       = Some (element_at (vec_get_element_size b) (elements b)
                 (Meta.length (meta b) - 1))).
Proof.
  intros Hd Hwf. split.
  - intros H0. unfold vvectorGetFront, vvectorGetBack. rewrite Hd.
    unfold get_meta. by rewrite H0.
  - intros Hpos.
    assert (Hf : vvectorGetFront w vec = vvectorGetAt w vec 0).
    { unfold vvectorGetFront. rewrite Hd. unfold get_meta.
      by destruct (Z.eqb_spec (Meta.length (meta b)) 0); [lia|]. }
    assert (Hb : vvectorGetBack w vec
                 = vvectorGetAt w vec (Meta.length (meta b) - 1)).
    { unfold vvectorGetBack. rewrite Hd. unfold get_meta.
      by destruct (Z.eqb_spec (Meta.length (meta b)) 0); [lia|]. }
    split_and!; [done|done| |].
    + unfold read_front. rewrite Hf.
      apply (read_value_element w vec h p b 0 Hd Hwf). lia.
    + unfold read_back. rewrite Hb.
      apply (read_value_element w vec h p b _ Hd Hwf). lia.
Qed.

(** X4. [vvectorWriteValueAt] on a well-formed container: an index of
    length or more gives [VEC_EBADINDEX], also when the value is NULL;
    a NULL value with an index below the length gives [VEC_ENOVALUE];
    in both cases nothing changes.  With an index from 0 to length - 1
    and a value of at least [element_size] bytes it returns 0, calls no
    allocator function, leaves length and capacity as they were,
    replaces the bytes of that element by the first [element_size]
    bytes of the value and leaves every other element as it was. *)
Theorem write_value_at_replaces w vec h p b index value :
  deref w vec = HValid h p b → wf_buffer b →
  (Meta.length (meta b) ≤ index →
   vvectorWriteValueAt w vec index value = Ret VEC_EBADINDEX w)
  ∧ (index < Meta.length (meta b) → value = None →
     vvectorWriteValueAt w vec index value = Ret VEC_ENOVALUE w)
  ∧ (0 ≤ index < Meta.length (meta b) →
     ∀ v, value = Some v →
          vec_get_element_size b ≤ Z.of_nat (length v) →
          ∃ w1 b1,
            vvectorWriteValueAt w vec index value = Ret 0 w1
            ∧ deref w1 vec = HValid h p b1
            ∧ wf_buffer b1
            ∧ meta b1 = meta b ∧ descr b1 = descr b
            ∧ log w1 = log w
            ∧ elements b1
              = replace_element (vec_get_element_size b) (elements b)
                  index v
            ∧ read_value w1 vec index (vec_get_element_size b)
              = Some (take (Z.to_nat (vec_get_element_size b)) v)
            ∧ ∀ j, 0 ≤ j < Meta.length (meta b) → j ≠ index →
                   read_value w1 vec j (vec_get_element_size b)
                   = read_value w vec j (vec_get_element_size b)).
Proof.
  intros Hd Hwf. split_and!.
  - intros Hi. unfold vvectorWriteValueAt. rewrite Hd.
    unfold index_is_invalid, get_meta.
    by destruct (Z.geb_spec index (Meta.length (meta b))); [|lia].
  - intros Hi ->. unfold vvectorWriteValueAt. rewrite Hd.
    unfold index_is_invalid, get_meta.
    by destruct (Z.geb_spec index (Meta.length (meta b))); [lia|].
  - intros Hi v -> Hv.
    destruct (deref_valid_inv _ _ _ _ _ Hd) as (-> & Hc & Hb).
    pose proof (wf_written b index v Hwf Hi Hv) as Hwf1.
    pose proof (elements_written b index v Hwf Hi Hv) as Hel.
    pose proof (length_elements b Hwf) as HE.
    pose proof (vec_get_element_size_nonneg b) as Hes.
    assert (Hd1 : deref (store_block w p (written b index v)) (Some h)
                  = HValid h p (written b index v))
      by by apply deref_store_block.
    assert (Hread : ∀ j, 0 ≤ j < Meta.length (meta b) →
              read_value (store_block w p (written b index v)) (Some h) j
                (vec_get_element_size b)
              = Some (if j =? index
                      then take (Z.to_nat (vec_get_element_size b)) v
                      else element_at (vec_get_element_size b)
                             (elements b) j)).
    { intros j Hj.
      pose proof (read_value_element _ _ h p (written b index v) j
                    Hd1 Hwf1 Hj) as Hr.
      change (vec_get_element_size (written b index v))
        with (vec_get_element_size b) in Hr.
      rewrite Hr, Hel. f_equal. apply element_at_replace; nia. }
    exists (store_block w p (written b index v)), (written b index v).
    split_and!; try done.
    + by apply (vvectorWriteValueAt_ok w (Some h) h p b).
    + rewrite Hread by done. by rewrite Z.eqb_refl.
    + intros j Hj Hne. rewrite Hread by done.
      destruct (Z.eqb_spec j index); [done|].
      symmetry. by apply (read_value_element w (Some h) h p b).
Qed.

Lemma read_value_layout w vec h p b b0 j :
  deref w vec = HValid h p b → wf_buffer b → same_layout b0 b →
  0 ≤ j < Meta.length (meta b) →
  read_value w vec j (vec_get_element_size b0)
  = Some (element_at (vec_get_element_size b0) (elements b) j).
Proof.
  intros Hd Hwf Hlay Hj.
  rewrite <- (same_layout_element_size b0 b Hlay).
  by apply (read_value_element w vec h p b).
Qed.

(** X5. [vvectorInsertValueAt] on a well-formed container, with an
    index from 0 to length, a value of at least [element_size] bytes
    and, when the buffer is full, a reallocation that is granted:
    it returns 0, the length grows by one, the capacity grows by one
    page exactly when the buffer was full, and the only allocator call
    is that reallocation.  Afterwards the element at the index is the
    value, the elements before it are as they were, and each element
    from the index on is found one position further. *)
Theorem insert_value_at_shifts w vec h p b index v :
  deref w vec = HValid h p b → wf_buffer b →
  0 ≤ index ≤ Meta.length (meta b) →
  vec_get_element_size b ≤ Z.of_nat (length v) →
  (is_full b = true →
   ∃ e, grow_request p b = Some e ∧ succeeds (log w) e = true) →
  ∃ w1 p1 b1,
    vvectorInsertValueAt succeeds relocates w vec index (Some v) = Ret 0 w1
    ∧ deref w1 vec = HValid h p1 b1
    ∧ wf_buffer b1
    ∧ Meta.length (meta b1) = Meta.length (meta b) + 1
    ∧ Meta.capacity (meta b1)
      = Meta.capacity (meta b)
        + (if is_full b then NR_ELEM_IN_PAGE * vec_get_element_size b else 0)
    ∧ log w1
      = log w ++ (if is_full b then option_list (grow_request p b) else [])
    ∧ read_value w1 vec index (vec_get_element_size b)
      = Some (take (Z.to_nat (vec_get_element_size b)) v)
    ∧ (∀ j, 0 ≤ j < index →
            read_value w1 vec j (vec_get_element_size b)
            = read_value w vec j (vec_get_element_size b))
    ∧ (∀ j, index ≤ j < Meta.length (meta b) →
            read_value w1 vec (j + 1) (vec_get_element_size b)
            = read_value w vec j (vec_get_element_size b)).
Proof.
  intros Hd Hwf Hi Hv Hgrow.
  destruct (vvectorInsertValueAt_spec w vec h p b index v Hd Hwf Hi Hv Hgrow)
    as (w1 & p1 & b1 & Hins & Hd1 & Hwf1 & Hlay & Hlen & Hel & Hcap & Hlog
        & _).
  pose proof (length_elements b Hwf) as HE.
  pose proof (vec_get_element_size_nonneg b) as Hes.
  assert (Hread : ∀ j, 0 ≤ j < Meta.length (meta b) + 1 →
            read_value w1 vec j (vec_get_element_size b)
            = Some (if j <? index
                    then element_at (vec_get_element_size b) (elements b) j
                    else if j =? index
                    then take (Z.to_nat (vec_get_element_size b)) v
                    else element_at (vec_get_element_size b) (elements b)
                           (j - 1))).
  { intros j Hj.
    rewrite (read_value_layout w1 vec h p1 b1 b j Hd1 Hwf1 Hlay)
      by (rewrite Hlen; lia).
    rewrite Hel. f_equal. apply element_at_insert; nia. }
  exists w1, p1, b1. split_and!; try done.
  - rewrite Hread by lia.
    destruct (Z.ltb_spec index index); [lia|]. by rewrite Z.eqb_refl.
  - intros j Hj. rewrite Hread by lia.
    destruct (Z.ltb_spec j index); [|lia].
    symmetry. apply (read_value_element w vec h p b j Hd Hwf). lia.
  - intros j Hj. rewrite Hread by lia.
    destruct (Z.ltb_spec (j + 1) index); [lia|].
    destruct (Z.eqb_spec (j + 1) index); [lia|].
    replace (j + 1 - 1) with j by lia.
    symmetry. apply (read_value_element w vec h p b j Hd Hwf). lia.
Qed.

(** X6. [vvectorRemoveAt] on a well-formed container: an index of
    length or more gives [VEC_EBADINDEX] and nothing changes.  With an
    index from 0 to length - 1 it returns 0, the length drops by one,
    the capacity and the buffer address stay, and no allocator function
    is called.  Afterwards the elements before the index are as they
    were, each element after the index is found one position earlier,
    and the position of the former last element is out of range. *)
Theorem remove_at_shifts w vec h p b index :
  deref w vec = HValid h p b → wf_buffer b →
  (Meta.length (meta b) ≤ index →
   vvectorRemoveAt w vec index = Ret VEC_EBADINDEX w)
  ∧ (0 ≤ index < Meta.length (meta b) →
     ∃ w1 b1,
       vvectorRemoveAt w vec index = Ret 0 w1
       ∧ deref w1 vec = HValid h p b1
       ∧ wf_buffer b1
       ∧ Meta.length (meta b1) = Meta.length (meta b) - 1
       ∧ Meta.capacity (meta b1) = Meta.capacity (meta b)
       ∧ log w1 = log w
       ∧ (∀ j, 0 ≤ j < index →
               read_value w1 vec j (vec_get_element_size b)
               = read_value w vec j (vec_get_element_size b))
       ∧ (∀ j, index < j < Meta.length (meta b) →
               read_value w1 vec (j - 1) (vec_get_element_size b)
               = read_value w vec j (vec_get_element_size b))
       ∧ vvectorGetAt w1 vec (Meta.length (meta b) - 1) = Some None).
Proof.
  intros Hd Hwf. split.
  - intros Hi. unfold vvectorRemoveAt. rewrite Hd.
    unfold index_is_invalid, get_meta.
    by destruct (Z.geb_spec index (Meta.length (meta b))); [|lia].
  - intros Hi.
    destruct (vvectorRemoveAt_spec w vec h p b index Hd Hwf Hi)
      as (w1 & b1 & Hrem & Hd1 & Hwf1 & Hlay & Hlen & Hel & Hcap & Hlog & _).
    pose proof (length_elements b Hwf) as HE.
    pose proof (vec_get_element_size_nonneg b) as Hes.
    assert (Hread : ∀ j, 0 ≤ j < Meta.length (meta b) - 1 →
              read_value w1 vec j (vec_get_element_size b)
              = Some (if j <? index
                      then element_at (vec_get_element_size b) (elements b) j
                      else element_at (vec_get_element_size b) (elements b)
                             (j + 1))).
    { intros j Hj.
      rewrite (read_value_layout w1 vec h p b1 b j Hd1 Hwf1 Hlay)
        by (rewrite Hlen; lia).
      rewrite Hel. f_equal. apply element_at_remove; nia. }
    exists w1, b1. split_and!; try done.
    + intros j Hj. rewrite Hread by lia.
      destruct (Z.ltb_spec j index); [|lia].
      symmetry. apply (read_value_element w vec h p b j Hd Hwf). lia.
    + intros j Hj. rewrite Hread by lia.
      destruct (Z.ltb_spec (j - 1) index); [lia|].
      replace (j - 1 + 1) with j by lia.
      symmetry. apply (read_value_element w vec h p b j Hd Hwf). lia.
    + rewrite <- Hlen. by apply (vvectorGetAt_length w1 vec h p b1).
Qed.

Lemma insert_element_end es (E : list cell) len v :
  Z.of_nat (length E) = len * es →
  insert_element es E len v = E ++ take (Z.to_nat es) v.
Proof.
  intros HE. unfold insert_element.
  rewrite take_ge, drop_ge by lia. by rewrite app_nil_r.
Qed.

Lemma vvectorPushBack_spec w vec h p b v :
  deref w vec = HValid h p b → wf_buffer b →
  vec_get_element_size b ≤ Z.of_nat (length v) →
  (is_full b = true →
   ∃ e, grow_request p b = Some e ∧ succeeds (log w) e = true) →
  ∃ w1 p1 b1,
    vvectorPushBack succeeds relocates w vec (Some v) = Ret 0 w1
    ∧ deref w1 vec = HValid h p1 b1
    ∧ wf_buffer b1
    ∧ same_layout b b1
    ∧ Meta.length (meta b1) = Meta.length (meta b) + 1
    ∧ elements b1
      = elements b ++ take (Z.to_nat (vec_get_element_size b)) v
    ∧ Meta.capacity (meta b1)
      = Meta.capacity (meta b)
        + (if is_full b then NR_ELEM_IN_PAGE * vec_get_element_size b else 0)
    ∧ log w1
      = log w ++ (if is_full b then option_list (grow_request p b) else [])
    ∧ descs w1 = descs w.
Proof.
  intros Hd Hwf Hv Hgrow. pose proof (wf_length b Hwf) as Hlen.
  destruct (vvectorInsertValueAt_spec w vec h p b (Meta.length (meta b)) v
              Hd Hwf ltac:(lia) Hv Hgrow)
    as (w1 & p1 & b1 & Hins & Hd1 & Hwf1 & Hlay & Hlen1 & Hel & Hcap & Hlog
        & Hdescs).
  exists w1, p1, b1. split_and!; try done.
  - unfold vvectorPushBack. by rewrite Hd.
  - rewrite Hel. apply insert_element_end. by apply length_elements.
Qed.

(** X7. [vvectorPushBack] on a well-formed container: a NULL value
    gives [VEC_ENOVALUE] before anything is reallocated, so nothing
    changes.  With a value of at least [element_size] bytes and, when
    the buffer is full, a reallocation that is granted, it returns 0,
    the element bytes are the former ones followed by the first
    [element_size] bytes of the value, the capacity grows by one page
    exactly when the buffer was full, the only allocator call is that
    reallocation, and [vvectorGetBack] then points to the value. *)
Theorem push_back_appends w vec h p b value :
  deref w vec = HValid h p b → wf_buffer b →
  (value = None →
   vvectorPushBack succeeds relocates w vec value = Ret VEC_ENOVALUE w)
  ∧ (∀ v, value = Some v →
          vec_get_element_size b ≤ Z.of_nat (length v) →
          (is_full b = true →
           ∃ e, grow_request p b = Some e ∧ succeeds (log w) e = true) →
          ∃ w1 p1 b1,
            vvectorPushBack succeeds relocates w vec value = Ret 0 w1
            ∧ deref w1 vec = HValid h p1 b1
            ∧ wf_buffer b1
            ∧ Meta.length (meta b1) = Meta.length (meta b) + 1
            ∧ elements b1
              = elements b ++ take (Z.to_nat (vec_get_element_size b)) v
            ∧ Meta.capacity (meta b1)
              = Meta.capacity (meta b)
                + (if is_full b
                   then NR_ELEM_IN_PAGE * vec_get_element_size b else 0)
            ∧ log w1
              = log w
                ++ (if is_full b then option_list (grow_request p b) else [])
            ∧ read_back w1 vec (vec_get_element_size b)
              = Some (take (Z.to_nat (vec_get_element_size b)) v)).
Proof.
  intros Hd Hwf. split.
  - intros ->. unfold vvectorPushBack. by rewrite Hd.
  - intros v -> Hv Hgrow.
    destruct (vvectorPushBack_spec w vec h p b v Hd Hwf Hv Hgrow)
      as (w1 & p1 & b1 & Hpush & Hd1 & Hwf1 & Hlay & Hlen & Hel & Hcap & Hlog
          & _).
    exists w1, p1, b1. split_and!; try done.
    pose proof (wf_length b Hwf) as Hlen0.
    pose proof (length_elements b Hwf) as HE.
    pose proof (vec_get_element_size_nonneg b) as Hes.
    unfold read_back, vvectorGetBack. rewrite Hd1. unfold get_meta.
    destruct (Z.eqb_spec (Meta.length (meta b1)) 0); [lia|].
    pose proof (read_value_layout w1 vec h p1 b1 b (Meta.length (meta b1) - 1)
                  Hd1 Hwf1 Hlay ltac:(lia)) as Hr.
    unfold read_value in Hr. rewrite Hr, Hel. f_equal.
    unfold element_at.
    replace (Z.to_nat ((Meta.length (meta b1) - 1) * vec_get_element_size b))
      with (length (elements b)) by nia.
    rewrite drop_app_length. rewrite take_take. f_equal. lia.
Qed.

(** X8. [vvectorRemoveBack] on a well-formed container that is not
    empty returns 0 and drops the last element: the length decreases by
    one, the element bytes are the former ones without the last
    [element_size] bytes, the capacity and the buffer address stay, and
    no allocator function is called. *)
Theorem remove_back_drops_last w vec h p b :
  deref w vec = HValid h p b → wf_buffer b → 0 < Meta.length (meta b) →
  ∃ w1 b1,
    vvectorRemoveBack w vec = Ret 0 w1
    ∧ deref w1 vec = HValid h p b1
    ∧ wf_buffer b1
    ∧ Meta.length (meta b1) = Meta.length (meta b) - 1
    ∧ elements b1
      = take (Z.to_nat ((Meta.length (meta b) - 1) * vec_get_element_size b))
          (elements b)
    ∧ Meta.capacity (meta b1) = Meta.capacity (meta b)
    ∧ log w1 = log w.
Proof.
  intros Hd Hwf Hpos.
  destruct (vvectorRemoveAt_spec w vec h p b (Meta.length (meta b) - 1)
              Hd Hwf ltac:(lia))
    as (w1 & b1 & Hrem & Hd1 & Hwf1 & Hlay & Hlen & Hel & Hcap & Hlog & _).
  exists w1, b1. split_and!; try done.
  - unfold vvectorRemoveBack. rewrite Hd. unfold get_meta.
    by destruct (Z.eqb_spec (Meta.length (meta b)) 0); [lia|].
  - rewrite Hel. unfold remove_element.
    pose proof (length_elements b Hwf) as HE.
    rewrite (drop_ge (elements b)) by lia. by rewrite app_nil_r.
Qed.

(** ** Loops of the demo *)

Lemma same_layout_start b b1 :
  same_layout b b1 → get_start_of_data b1 = get_start_of_data b.
Proof.
  intros Hlay. unfold get_start_of_data.
  by destruct (same_layout_allocator b b1 Hlay) as (_ & _ & _ & _ & _ & ->).
Qed.

Lemma full_at_page_end b k :
  0 < vec_get_element_size b →
  Meta.capacity (meta b)
  = get_start_of_data b + k * NR_ELEM_IN_PAGE * vec_get_element_size b →
  is_full b = true ↔ Meta.length (meta b) = k * NR_ELEM_IN_PAGE.
Proof.
  intros Hes Hcap. rewrite is_full_spec, Hcap.
  unfold NR_ELEM_IN_PAGE. split; intros; nia.
Qed.

Lemma push_back_all_spec values :
  (∀ l e, succeeds l e = true) →
  ∀ w h p b k,
    deref w (Some h) = HValid h p b → wf_buffer b →
    0 < vec_get_element_size b →
    Meta.capacity (meta b)
    = get_start_of_data b + k * NR_ELEM_IN_PAGE * vec_get_element_size b →
    Forall (λ v, vec_get_element_size b ≤ Z.of_nat (length v)) values →
    ∃ w2 p2 b2 l,
      push_back_all succeeds relocates w (Some h) values = Ret 0 w2
      ∧ deref w2 (Some h) = HValid h p2 b2
      ∧ wf_buffer b2
      ∧ same_layout b b2
      ∧ Meta.length (meta b2)
        = Meta.length (meta b) + Z.of_nat (length values)
      ∧ elements b2
        = elements b
          ++ concat (take (Z.to_nat (vec_get_element_size b)) <$> values)
      ∧ Meta.capacity (meta b2)
        = get_start_of_data b
          + Z.max k (length_to_pages
                       (Meta.length (meta b) + Z.of_nat (length values))
                       NR_ELEM_IN_PAGE)
            * NR_ELEM_IN_PAGE * vec_get_element_size b
      ∧ log w2 = log w ++ l
      ∧ Z.of_nat (length l)
        = Z.max k (length_to_pages
                     (Meta.length (meta b) + Z.of_nat (length values))
                     NR_ELEM_IN_PAGE) - k
      ∧ descs w2 = descs w.
Proof.
  intros Hok. induction values as [|v rest IH];
    intros w h p b k Hd Hwf Hes Hcap Hfit.
  - exists w, p, b, [].
    destruct (wf_pages b Hwf Hes) as [_ (k' & Hk' & Hcap' & Hle)].
    assert (k' = k) by (unfold NR_ELEM_IN_PAGE in *; nia). subst k'.
    pose proof (length_to_pages_bounds _ (wf_length b Hwf)) as Hb.
    simpl. rewrite Z.add_0_r, !app_nil_r.
    unfold NR_ELEM_IN_PAGE in *.
    rewrite Z.max_l by lia.
    split_and!; try done; try apply same_layout_refl; try lia.
  - inversion Hfit as [|? ? Hv Hrest]; subst.
    destruct (vvectorPushBack_spec w (Some h) h p b v Hd Hwf Hv)
      as (w1 & p1 & b1 & Hpush & Hd1 & Hwf1 & Hlay & Hlen & Hel & Hcap1
          & Hlog & Hdescs).
    { intros _. destruct (grow_request_is_Some p b Hwf) as [e He].
      exists e. split; [done|apply Hok]. }
    pose proof (same_layout_element_size b b1 Hlay) as Hes1.
    pose proof (same_layout_start b b1 Hlay) as Hst1.
    pose proof (full_at_page_end b k Hes Hcap) as Hfull.
    destruct (grow_request_is_Some p b Hwf) as [e He].
    set (k1 := if is_full b then k + 1 else k).
    assert (Hcap1' : Meta.capacity (meta b1)
                     = get_start_of_data b1
                       + k1 * NR_ELEM_IN_PAGE * vec_get_element_size b1).
    { rewrite Hcap1, Hcap, Hst1, Hes1. unfold k1.
      destruct (is_full b); unfold NR_ELEM_IN_PAGE; lia. }
    rewrite <- Hes1 in Hrest, Hes.
    destruct (IH w1 h p1 b1 k1 Hd1 Hwf1 Hes Hcap1' Hrest)
      as (w2 & p2 & b2 & l & Hrun & Hd2 & Hwf2 & Hlay2 & Hlen2 & Hel2
          & Hcap2 & Hlog2 & Hl & Hdescs2).
    rewrite Hes1, Hst1, Hlen in *.
    replace (Meta.length (meta b) + 1 + Z.of_nat (length rest))
      with (Meta.length (meta b) + Z.of_nat (length (v :: rest)))
      in * by (simpl length; lia).
    pose proof (wf_length b Hwf) as Hlen0.
    pose proof (length_to_pages_bounds
                  (Meta.length (meta b) + Z.of_nat (length (v :: rest)))
                  ltac:(lia)) as Hb.
    assert (Hmax : Z.max k1 (length_to_pages
                       (Meta.length (meta b) + Z.of_nat (length (v :: rest)))
                       NR_ELEM_IN_PAGE)
                   = Z.max k (length_to_pages
                       (Meta.length (meta b) + Z.of_nat (length (v :: rest)))
                       NR_ELEM_IN_PAGE)).
    { unfold k1. destruct (is_full b); [|done].
      destruct Hfull as [Hfull _]. specialize (Hfull eq_refl).
      unfold NR_ELEM_IN_PAGE in *. simpl length in *. lia. }
    exists w2, p2, b2,
      ((if is_full b then option_list (grow_request p b) else []) ++ l).
    split_and!.
    + cbn [push_back_all]. rewrite Hpush. exact Hrun.
    + done.
    + done.
    + by eapply same_layout_trans.
    + done.
    + rewrite Hel2, Hel. simpl. by rewrite <- app_assoc.
    + by rewrite Hcap2, Hmax.
    + by rewrite Hlog2, Hlog, app_assoc.
    + rewrite length_app, Nat2Z.inj_add, Hl, Hmax. unfold k1.
      rewrite He. destruct (is_full b); simpl length; [|lia].
      destruct Hfull as [Hfull _]. specialize (Hfull eq_refl).
      unfold NR_ELEM_IN_PAGE in *. simpl length in *. lia.
    + congruence.
Qed.

(** X10. A loop of [vvectorPushBack] over values of at least
    [element_size] bytes, on a well-formed container with a positive
    element size that holds [k] pages, with an allocator that grants
    every call: every push returns 0, the element bytes are the former
    ones followed by the values in order, each value is read back at
    its position, and the buffer ends with the larger of [k] and the
    number of pages the new length needs, reached by one reallocation
    per added page. *)
Theorem push_back_all_appends w h p b k values :
  (∀ l e, succeeds l e = true) →
  deref w (Some h) = HValid h p b → wf_buffer b →
  0 < vec_get_element_size b →
  Meta.capacity (meta b)
  = get_start_of_data b + k * NR_ELEM_IN_PAGE * vec_get_element_size b →
  Forall (λ v, vec_get_element_size b ≤ Z.of_nat (length v)) values →
  ∃ w2 p2 b2 l,
    push_back_all succeeds relocates w (Some h) values = Ret 0 w2
    ∧ deref w2 (Some h) = HValid h p2 b2
    ∧ wf_buffer b2
    ∧ Meta.length (meta b2)
      = Meta.length (meta b) + Z.of_nat (length values)
    ∧ elements b2
      = elements b
        ++ concat (take (Z.to_nat (vec_get_element_size b)) <$> values)
    ∧ Meta.capacity (meta b2)
      = get_start_of_data b
        + Z.max k (length_to_pages
                     (Meta.length (meta b) + Z.of_nat (length values))
                     NR_ELEM_IN_PAGE)
          * NR_ELEM_IN_PAGE * vec_get_element_size b
    ∧ log w2 = log w ++ l
    ∧ Z.of_nat (length l)
      = Z.max k (length_to_pages
                   (Meta.length (meta b) + Z.of_nat (length values))
                   NR_ELEM_IN_PAGE) - k
    ∧ ∀ i v, values !! i = Some v →
             read_value w2 (Some h) (Meta.length (meta b) + Z.of_nat i)
               (vec_get_element_size b)
             = Some (take (Z.to_nat (vec_get_element_size b)) v).
Proof.
  intros Hok Hd Hwf Hes Hcap Hfit.
  destruct (push_back_all_spec values Hok w h p b k Hd Hwf Hes Hcap Hfit)
    as (w2 & p2 & b2 & l & Hrun & Hd2 & Hwf2 & Hlay & Hlen & Hel & Hcap2
        & Hlog & Hl & _).
  exists w2, p2, b2, l. split_and!; try done.
  intros i v Hi. pose proof (lookup_lt_Some _ _ _ Hi) as Hlt.
  pose proof (wf_length b Hwf) as Hlen0.
  rewrite (read_value_layout w2 (Some h) h p2 b2 b _ Hd2 Hwf2 Hlay)
    by (rewrite Hlen; lia).
  rewrite Hel. f_equal.
  apply element_at_appended; try done; try lia.
  by apply length_elements.
Qed.

Lemma vvectorRemoveBack_spec w vec h p b :
  deref w vec = HValid h p b → wf_buffer b → 0 < Meta.length (meta b) →
  ∃ w1 b1,
    vvectorRemoveBack w vec = Ret 0 w1
    ∧ deref w1 vec = HValid h p b1
    ∧ wf_buffer b1
    ∧ same_layout b b1
    ∧ Meta.length (meta b1) = Meta.length (meta b) - 1
    ∧ Meta.capacity (meta b1) = Meta.capacity (meta b)
    ∧ log w1 = log w.
Proof.
  intros Hd Hwf Hpos.
  destruct (vvectorRemoveAt_spec w vec h p b (Meta.length (meta b) - 1)
              Hd Hwf ltac:(lia))
    as (w1 & b1 & Hrem & Hd1 & Hwf1 & Hlay & Hlen & Hel & Hcap & Hlog & _).
  exists w1, b1. split_and!; try done.
  unfold vvectorRemoveBack. rewrite Hd. unfold get_meta.
  by destruct (Z.eqb_spec (Meta.length (meta b)) 0); [lia|].
Qed.

Lemma remove_until_empty_spec n :
  ∀ w vec h p b,
    deref w vec = HValid h p b → wf_buffer b →
    Meta.length (meta b) = Z.of_nat n →
    ∀ fuel, (n ≤ fuel)%nat →
    ∃ w1 b1,
      remove_until_empty fuel w vec = Done n w1
      ∧ deref w1 vec = HValid h p b1
      ∧ wf_buffer b1
      ∧ same_layout b b1
      ∧ Meta.length (meta b1) = 0
      ∧ Meta.capacity (meta b1) = Meta.capacity (meta b)
      ∧ log w1 = log w.
Proof.
  induction n as [|n IH]; intros w vec h p b Hd Hwf Hlen fuel Hfuel.
  - exists w, b. split_and!; try done; try apply same_layout_refl.
    destruct fuel; cbn [remove_until_empty]; unfold vvectorIsEmpty;
      rewrite Hd; unfold get_meta; by rewrite Hlen.
  - destruct fuel as [|fuel]; [lia|].
    destruct (vvectorRemoveBack_spec w vec h p b Hd Hwf ltac:(lia))
      as (w1 & b1 & Hrem & Hd1 & Hwf1 & Hlay & Hlen1 & Hcap & Hlog).
    destruct (IH w1 vec h p b1 Hd1 Hwf1 ltac:(lia) fuel ltac:(lia))
      as (w2 & b2 & Hrun & Hd2 & Hwf2 & Hlay2 & Hlen2 & Hcap2 & Hlog2).
    exists w2, b2. split_and!; try done; try congruence.
    + cbn [remove_until_empty]. unfold vvectorIsEmpty. rewrite Hd.
      unfold get_meta.
      destruct (Z.eqb_spec (Meta.length (meta b)) 0); [lia|].
      cbn [Z.eqb]. rewrite Hrem. cbn [Z.eqb]. by rewrite Hrun.
    + by eapply same_layout_trans.
Qed.

(** X11. The emptying loop of the demo,
    [while (!vvectorIsEmpty(vec)) vvectorRemoveBack(vec)], on a
    well-formed container: it ends after exactly [length] iterations,
    no call fails, the container is then empty, and it keeps its
    capacity and its buffer address and calls no allocator function:
    removing elements never gives memory back. *)
Theorem remove_until_empty_terminates w vec h p b fuel :
  deref w vec = HValid h p b → wf_buffer b →
  Meta.length (meta b) ≤ Z.of_nat fuel →
  ∃ w1 b1,
    remove_until_empty fuel w vec
    = Done (Z.to_nat (Meta.length (meta b))) w1
    ∧ deref w1 vec = HValid h p b1
    ∧ wf_buffer b1
    ∧ vvectorIsEmpty w1 vec = Some 1
    ∧ vvectorGetLength w1 vec = Some 0
    ∧ Meta.capacity (meta b1) = Meta.capacity (meta b)
    ∧ log w1 = log w.
Proof.
  intros Hd Hwf Hfuel. pose proof (wf_length b Hwf) as Hlen.
  destruct (remove_until_empty_spec (Z.to_nat (Meta.length (meta b)))
              w vec h p b Hd Hwf ltac:(lia) fuel ltac:(lia))
    as (w1 & b1 & Hrun & Hd1 & Hwf1 & _ & Hlen1 & Hcap & Hlog).
  exists w1, b1. split_and!; try done.
  - unfold vvectorIsEmpty. rewrite Hd1. unfold get_meta. by rewrite Hlen1.
  - unfold vvectorGetLength. rewrite Hd1. unfold get_meta. by rewrite Hlen1.
Qed.

(** ** Creation and destruction *)

(** X12. [vvectorFree] on a valid container whose free function can be
    resolved returns 0 after exactly two calls of that function, with
    the container's context: first the buffer, with its capacity as
    size, then the handle cell, with the size of a pointer.  Both are
    gone afterwards; using the handle again, or freeing it twice, is an
    access to freed memory. *)
Theorem free_releases w vec h p b f :
  deref w vec = HValid h p b → get_free b = Some f →
  ∃ w1,
    vvectorFree w vec = Ret 0 w1
    ∧ log w1
      = log w ++ [EvFree f p (Meta.capacity (meta b)) (free_ctx b);
                  EvFree f h sizeof_pointer (free_ctx b)]
    ∧ blocks w1 = delete p (blocks w)
    ∧ cells w1 = delete h (cells w)
    ∧ descs w1 = descs w
    ∧ deref w1 vec = HDangling
    ∧ vvectorFree w1 vec = Fault
    ∧ vvectorGetLength w1 vec = None
    ∧ ∀ op, run_operation succeeds relocates w1 vec op = Fault.
Proof.
  intros Hd Hf.
  destruct (deref_valid_inv _ _ _ _ _ Hd) as (-> & Hc & Hb).
  eexists. split.
  { unfold vvectorFree. rewrite Hd, Hf. reflexivity. }
  assert (Hd1 : deref
            (call_free_cell
               (store_cell
                  (call_free_block w f p (vec_get_capacity b)
                     (match get_alloc b with
                      | Some a => ctx a | None => 0 end)) h None)
               f h sizeof_pointer
               (match get_alloc b with Some a => ctx a | None => 0 end))
            (Some h) = HDangling).
  { unfold deref. simpl. by rewrite lookup_delete_eq. }
  split_and!.
  - simpl. by rewrite <- app_assoc.
  - reflexivity.
  - simpl. apply delete_insert_eq.
  - reflexivity.
  - exact Hd1.
  - unfold vvectorFree. by rewrite Hd1.
  - unfold vvectorGetLength. by rewrite Hd1.
  - intros op. destruct op; unfold run_operation;
      [ unfold vvectorReserve | unfold vvectorShrinkToFit
      | unfold vvectorWriteValueAt | unfold vvectorInsertValueAt
      | unfold vvectorPushBack | unfold vvectorRemoveAt
      | unfold vvectorRemoveBack ]; by rewrite Hd1.
Qed.

Lemma vec_new__spec w sizeof_type allocator :
  0 ≤ sizeof_type →
  (∀ d, allocator = Some d → is_Some (descs w !! d)) →
  let a := pointee w allocator in
  let e1 := buffer_request sizeof_type a in
  let e2 := handle_request a in
  ∃ w1,
    vec_new_ succeeds w sizeof_type allocator
    = Ret (if succeeds (log w) e1 && succeeds (log w ++ [e1]) e2
           then Some (S (next w)) else None) w1
    ∧ descs w1 = descs w
    ∧ (succeeds (log w) e1 = false →
       cells w1 = cells w ∧ blocks w1 = blocks w ∧ log w1 = log w ++ [e1])
    ∧ (succeeds (log w) e1 = true →
       blocks w1 = <[next w := created sizeof_type a]> (blocks w)
       ∧ log w1 = log w ++ [e1; e2]
       ∧ cells w1 = if succeeds (log w ++ [e1]) e2
                    then <[S (next w) := Some (next w)]> (cells w)
                    else cells w).
Proof.
  intros Hsz Hd. unfold vec_new_, pointee, buffer_request, handle_request.
  destruct (Z.ltb_spec sizeof_type 0) as [|_]; [lia|].
  destruct allocator as [d|]; simpl.
  - destruct (Hd d eq_refl) as [a ->]. unfold call_malloc. simpl.
    destruct (succeeds (log w) _) eqn:H1; simpl.
    + destruct (succeeds (log w ++ _) _) eqn:H2; simpl;
        eexists; (split; [reflexivity|]); simpl;
        rewrite <- app_assoc; done.
    + eexists. split; [reflexivity|]. done.
  - unfold call_malloc. simpl.
    destruct (succeeds (log w) _) eqn:H1; simpl.
    + destruct (succeeds (log w ++ _) _) eqn:H2; simpl;
        eexists; (split; [reflexivity|]); simpl;
        rewrite <- app_assoc; done.
    + eexists. split; [reflexivity|]. done.
Qed.

(** X13. [vec_new_] with a non-negative element size makes at most two
    requests to the malloc function of the descriptor (the library's
    when there is no descriptor or its malloc pointer is NULL), with
    the descriptor's context: one for the buffer, of the size of the
    header, and one of the size of a pointer for the handle.  If the
    first is refused it returns NULL and nothing is allocated.  If the
    second is refused it returns NULL as well, and the buffer obtained
    by the first stays allocated with no pointer left to it. *)
Theorem vec_new__out_of_memory w sizeof_type allocator :
  0 ≤ sizeof_type →
  (∀ d, allocator = Some d → is_Some (descs w !! d)) →
  (succeeds (log w) (buffer_request sizeof_type (pointee w allocator))
   = false →
   ∃ w1,
     vec_new_ succeeds w sizeof_type allocator = Ret None w1
     ∧ cells w1 = cells w ∧ blocks w1 = blocks w
     ∧ log w1
       = log w ++ [buffer_request sizeof_type (pointee w allocator)])
  ∧ (succeeds (log w) (buffer_request sizeof_type (pointee w allocator))
     = true →
     succeeds
       (log w ++ [buffer_request sizeof_type (pointee w allocator)])
       (handle_request (pointee w allocator)) = false →
     ∃ w1,
       vec_new_ succeeds w sizeof_type allocator = Ret None w1
       ∧ cells w1 = cells w
       ∧ blocks w1
         = <[next w := created sizeof_type (pointee w allocator)]> (blocks w)
       ∧ log w1
         = log w ++ [buffer_request sizeof_type (pointee w allocator);
                     handle_request (pointee w allocator)]).
Proof.
  intros Hsz Hd.
  destruct (vec_new__spec w sizeof_type allocator Hsz Hd)
    as (w1 & Hnew & _ & Hfail & Hok).
  split.
  - intros H1. rewrite H1 in Hnew. destruct (Hfail H1) as (? & ? & ?).
    by exists w1.
  - intros H1 H2. rewrite H1, H2 in Hnew.
    destruct (Hok H1) as (? & ? & Hcells). rewrite H2 in Hcells.
    by exists w1.
Qed.

Lemma get_free_created sizeof_type allocator :
  0 ≤ sizeof_type →
  get_free (created sizeof_type allocator)
  = Some (match allocator with
          | Some a =>
              if sizeof_type =? 0 then vvector_lib_free
              else match free_fn a with
                   | Some f => f | None => vvector_lib_free end
          | None => vvector_lib_free
          end)
  ∧ free_ctx (created sizeof_type allocator)
    = match allocator with
      | Some a => if sizeof_type =? 0 then 0 else ctx a
      | None => 0
      end.
Proof.
  intros Hsz. unfold get_free, free_ctx, get_alloc, has_custom_alloc, get_meta.
  destruct allocator as [a|]; simpl.
  - destruct (Z.eqb_spec sizeof_type 0) as [->|Hne]; [done|].
    by destruct (Z.ltb_spec (- sizeof_type) 0); [|lia].
  - by destruct (Z.ltb_spec sizeof_type 0); [lia|].
Qed.

(** X14. Creating a container and freeing it right away, with an
    allocator that grants both requests and returns addresses that are
    not in use: [vec_new_] returns a handle, [vvectorFree] returns 0,
    and the heap is as it was before, with four allocator calls made:
    the two requests, then the release of the buffer and of the handle
    cell through the container's free function. *)
Theorem create_then_free_restores w sizeof_type allocator :
  0 ≤ sizeof_type →
  (∀ d, allocator = Some d → is_Some (descs w !! d)) →
  blocks w !! next w = None → cells w !! S (next w) = None →
  succeeds (log w) (buffer_request sizeof_type (pointee w allocator))
  = true →
  succeeds (log w ++ [buffer_request sizeof_type (pointee w allocator)])
    (handle_request (pointee w allocator)) = true →
  ∃ h w1 w2 f,
    vec_new_ succeeds w sizeof_type allocator = Ret (Some h) w1
    ∧ deref w1 (Some h)
      = HValid h (next w) (created sizeof_type (pointee w allocator))
    ∧ get_free (created sizeof_type (pointee w allocator)) = Some f
    ∧ vvectorFree w1 (Some h) = Ret 0 w2
    ∧ cells w2 = cells w ∧ blocks w2 = blocks w ∧ descs w2 = descs w
    ∧ log w2
      = log w
        ++ [buffer_request sizeof_type (pointee w allocator);
            handle_request (pointee w allocator);
            EvFree f (next w)
              (Meta.capacity
                 (meta (created sizeof_type (pointee w allocator))))
              (free_ctx (created sizeof_type (pointee w allocator)));
            EvFree f h sizeof_pointer
              (free_ctx (created sizeof_type (pointee w allocator)))].
Proof.
  intros Hsz Hd Hfresh_b Hfresh_c H1 H2.
  destruct (vec_new__spec w sizeof_type allocator Hsz Hd)
    as (w1 & Hnew & Hdescs & _ & Hok).
  rewrite H1, H2 in Hnew. destruct (Hok H1) as (Hblocks & Hlog & Hcells).
  rewrite H2 in Hcells.
  destruct (get_free_created sizeof_type (pointee w allocator) Hsz)
    as [Hfree _].
  assert (Hd1 : deref w1 (Some (S (next w)))
                = HValid (S (next w)) (next w)
                    (created sizeof_type (pointee w allocator))).
  { apply deref_valid.
    - rewrite Hcells. apply lookup_insert_eq.
    - rewrite Hblocks. apply lookup_insert_eq. }
  eexists (S (next w)), w1, _, _. split; [exact Hnew|].
  split; [exact Hd1|]. split; [exact Hfree|]. split.
  { unfold vvectorFree. rewrite Hd1, Hfree. reflexivity. }
  simpl. rewrite Hcells, Hblocks, Hlog, Hdescs. split_and!.
  - rewrite insert_insert_eq. by apply delete_insert_id.
  - by apply delete_insert_id.
  - done.
  - by rewrite <- !app_assoc.
Qed.

(** X15. With element size 0 the mark of a descriptor, a negative
    element size, is lost.  [vec_new_(0, &descriptor)] obtains the
    buffer and the handle from the descriptor's malloc function and
    stores the descriptor, but the container then counts as one without
    descriptor: the debug functions return NULL for the three functions
    and the context, reallocation resolves to the library's function,
    and [vvectorFree] hands both blocks to the library's free function
    with a NULL context. *)
Theorem zero_size_ignores_descriptor w d a :
  descs w !! d = Some a →
  succeeds (log w) (buffer_request 0 (Some a)) = true →
  succeeds (log w ++ [buffer_request 0 (Some a)]) (handle_request (Some a))
  = true →
  ∃ h w1 w2,
    vec_new_ succeeds w 0 (Some d) = Ret (Some h) w1
    ∧ deref w1 (Some h) = HValid h (next w) (created 0 (Some a))
    ∧ descr (created 0 (Some a)) = Some (with_defaults a)
    ∧ log w1
      = log w
        ++ [EvMalloc (creation_malloc (Some a))
              (sizeof_vvectorMetadata_ + sizeof_vvectorAlloc) (ctx a);
            EvMalloc (creation_malloc (Some a)) sizeof_pointer (ctx a)]
    ∧ vvector_debug_get_element_size w1 (Some h) = Some 0
    ∧ vvector_debug_get_malloc_fn w1 (Some h) = Some None
    ∧ vvector_debug_get_free_fn w1 (Some h) = Some None
    ∧ vvector_debug_get_realloc_fn w1 (Some h) = Some None
    ∧ vvector_debug_get_ctx w1 (Some h) = Some 0
    ∧ get_realloc (created 0 (Some a)) = Some vvector_lib_realloc
    ∧ get_ctx (created 0 (Some a)) = Some 0
    ∧ vvectorFree w1 (Some h) = Ret 0 w2
    ∧ log w2
      = log w1
        ++ [EvFree vvector_lib_free (next w)
              (sizeof_vvectorMetadata_ + sizeof_vvectorAlloc) 0;
            EvFree vvector_lib_free h sizeof_pointer 0].
Proof.
  intros Ha H1 H2.
  destruct (vec_new__spec w 0 (Some d) ltac:(lia)) as
    (w1 & Hnew & Hdescs & _ & Hok).
  { intros d' [= <-]. rewrite Ha. eauto. }
  unfold pointee in Hnew, Hok. simpl in Hnew, Hok. rewrite Ha in Hnew, Hok.
  rewrite H1, H2 in Hnew. destruct (Hok H1) as (Hblocks & Hlog & Hcells).
  rewrite H2 in Hcells.
  assert (Hd1 : deref w1 (Some (S (next w)))
                = HValid (S (next w)) (next w) (created 0 (Some a))).
  { apply deref_valid.
    - rewrite Hcells. apply lookup_insert_eq.
    - rewrite Hblocks. apply lookup_insert_eq. }
  eexists (S (next w)), w1, _. split; [exact Hnew|].
  split; [exact Hd1|]. split; [reflexivity|]. split; [exact Hlog|].
  unfold vvector_debug_get_element_size, vvector_debug_get_malloc_fn,
    vvector_debug_get_free_fn, vvector_debug_get_realloc_fn,
    vvector_debug_get_ctx, vvectorFree.
  rewrite Hd1. split_and!; try reflexivity.
  simpl. by rewrite <- app_assoc.
Qed.

(** X16. After [vec_new_] with a positive element size, the debug
    functions return what was stored at creation: the capacity is the
    size of the header, the raw element size is the size given, negated
    when there is a descriptor, and the three functions and the context
    are those of the descriptor, a NULL function pointer replaced by
    the library's function; without descriptor they are NULL. *)
Theorem debug_functions_after_creation w sizeof_type allocator h w1 :
  0 < sizeof_type →
  vec_new_ succeeds w sizeof_type allocator = Ret (Some h) w1 →
  vvector_debug_get_capacity w1 (Some h)
  = Some (match allocator with
          | Some _ => sizeof_vvectorMetadata_ + sizeof_vvectorAlloc
          | None => sizeof_vvectorMetadata_
          end)
  ∧ vvector_debug_get_element_size w1 (Some h)
    = Some (match allocator with
            | Some _ => - sizeof_type | None => sizeof_type end)
  ∧ vvector_debug_get_malloc_fn w1 (Some h)
    = Some (pointee w allocator ≫= λ a, malloc_fn (with_defaults a))
  ∧ vvector_debug_get_free_fn w1 (Some h)
    = Some (pointee w allocator ≫= λ a, free_fn (with_defaults a))
  ∧ vvector_debug_get_realloc_fn w1 (Some h)
    = Some (pointee w allocator ≫= λ a, realloc_fn (with_defaults a))
  ∧ vvector_debug_get_ctx w1 (Some h)
    = Some (creation_ctx (pointee w allocator))
  ∧ vvectorGetLength w1 (Some h) = Some 0
  ∧ vvectorIsEmpty w1 (Some h) = Some 1.
Proof.
  intros Hsz Hnew.
  destruct (vec_new__inv succeeds w sizeof_type allocator h w1 Hnew)
    as (_ & Hd & _ & p & Hd1).
  unfold vvector_debug_get_capacity, vvector_debug_get_element_size,
    vvector_debug_get_malloc_fn, vvector_debug_get_free_fn,
    vvector_debug_get_realloc_fn, vvector_debug_get_ctx,
    vvectorGetLength, vvectorIsEmpty.
  rewrite Hd1. unfold pointee, get_alloc, has_custom_alloc, get_meta.
  destruct allocator as [d|]; simpl.
  - destruct (Hd d eq_refl) as [a ->]. simpl.
    destruct (Z.ltb_spec (- sizeof_type) 0); [|lia]. done.
  - destruct (Z.ltb_spec sizeof_type 0); [lia|]. done.
Qed.

(** ** Shrinking and reserving *)

Lemma shrink_request_wf p b k :
  wf_buffer b → 0 < vec_get_element_size b →
  Meta.capacity (meta b)
  = get_start_of_data b + k * NR_ELEM_IN_PAGE * vec_get_element_size b →
  ∃ f c,
    get_realloc b = Some f ∧ get_ctx b = Some c
    ∧ shrink_request p b
      = Some (EvRealloc f p
                (vec_get_capacity b
                 - (k - nr_pages_used b)
                   * vec_get_element_size b * NR_ELEM_IN_PAGE)
                (vec_get_capacity b) c).
Proof.
  intros Hwf Hes Hcap.
  destruct (wf_realloc b Hwf) as [f Hf]. destruct (wf_ctx b Hwf) as [c Hc].
  exists f, c. unfold shrink_request.
  by rewrite Hf, Hc, (nr_pages_available_wf b k Hes Hcap).
Qed.

Lemma vvectorShrinkToFit_fails w h p b k e :
  deref w (Some h) = HValid h p b → wf_buffer b →
  0 < vec_get_element_size b →
  Meta.capacity (meta b)
  = get_start_of_data b + k * NR_ELEM_IN_PAGE * vec_get_element_size b →
  k ≠ nr_pages_used b →
  shrink_request p b = Some e → succeeds (log w) e = false →
  vvectorShrinkToFit succeeds relocates w (Some h)
  = Ret 1 (store_cell (log_event w e) h None).
Proof.
  intros Hd Hwf Hes Hcap Hk He Hok.
  destruct (deref_valid_inv _ _ _ _ _ Hd) as (_ & Hc & Hb).
  destruct (shrink_request_wf p b k Hwf Hes Hcap) as (f & c & Hf & Hc' & He').
  rewrite He' in He. injection He as <-.
  unfold vvectorShrinkToFit, has_empty_pages.
  rewrite Hd, (nr_pages_available_wf b k Hes Hcap), Hf, Hc'.
  destruct (Z.eqb_spec (k - nr_pages_used b) 0) as [|_]; [lia|].
  simpl. by rewrite (call_realloc_fails _ _ _ _ _ _ _ _ _ Hb Hok).
Qed.

Lemma nr_pages_available_shrunk b :
  0 < vec_get_element_size b →
  nr_pages_available (shrunk b) = Some (nr_pages_used (shrunk b)).
Proof.
  intros Hes. by apply nr_pages_available_wf.
Qed.

(** X17. On a well-formed container with a positive element size, a
    [vvectorShrinkToFit] that returned 0 leaves nothing to shrink: a
    second call right after it returns 0 without calling the allocator
    and without changing anything. *)
Theorem shrink_to_fit_idempotent w vec h p b w1 :
  deref w vec = HValid h p b → wf_buffer b → 0 < vec_get_element_size b →
  vvectorShrinkToFit succeeds relocates w vec = Ret 0 w1 →
  vvectorShrinkToFit succeeds relocates w1 vec = Ret 0 w1.
Proof.
  intros Hd Hwf Hes Hrun.
  destruct (deref_valid_inv _ _ _ _ _ Hd) as (-> & Hc & Hb).
  destruct (wf_pages b Hwf Hes) as [Hst (k & Hk & Hcap & Hle)].
  pose proof (nr_pages_available_wf b k Hes Hcap) as Havail.
  destruct (decide (k = nr_pages_used b)) as [Hk'|Hk'].
  - rewrite (vvectorShrinkToFit_noop succeeds relocates w h p b Hd)
      in Hrun by congruence.
    injection Hrun as <-.
    apply (vvectorShrinkToFit_noop succeeds relocates w h p b Hd).
    congruence.
  - destruct (shrink_request_wf p b k Hwf Hes Hcap)
      as (f & c & Hf & Hc' & He).
    destruct (succeeds (log w)
                (EvRealloc f p
                   (vec_get_capacity b
                    - (k - nr_pages_used b)
                      * vec_get_element_size b * NR_ELEM_IN_PAGE)
                   (vec_get_capacity b) c)) eqn:Hok.
    + destruct (vvectorShrinkToFit_shrinks succeeds relocates w h p b k _
                  Hd Hwf Hes Hcap Hk' He Hok)
        as (w1' & p1 & Hrun' & Hd1 & Hwf1 & _).
      rewrite Hrun' in Hrun. injection Hrun as <-.
      apply (vvectorShrinkToFit_noop succeeds relocates w1' h p1 (shrunk b)
               Hd1).
      by apply nr_pages_available_shrunk.
    + rewrite (vvectorShrinkToFit_fails w h p b k _ Hd Hwf Hes Hcap Hk' He Hok)
        in Hrun.
      done.
Qed.

(** X18. When the reallocation of [vvectorShrinkToFit] is refused, on a
    well-formed container with a positive element size and more pages
    than its length needs, the call returns 1, after storing the NULL
    result in the handle: the handle is invalid from then on, and the
    buffer, which the allocator left as it was, stays allocated with no
    pointer to it. *)
Theorem shrink_to_fit_failure w vec h p b e :
  deref w vec = HValid h p b → wf_buffer b → 0 < vec_get_element_size b →
  nr_pages_available b ≠ Some (nr_pages_used b) →
  shrink_request p b = Some e → succeeds (log w) e = false →
  ∃ w1,
    vvectorShrinkToFit succeeds relocates w vec = Ret 1 w1
    ∧ deref w1 vec = HInvalid
    ∧ cells w1 !! h = Some None
    ∧ blocks w1 !! p = Some b
    ∧ log w1 = log w ++ [e].
Proof.
  intros Hd Hwf Hes Havail He Hok.
  destruct (deref_valid_inv _ _ _ _ _ Hd) as (-> & Hc & Hb).
  destruct (wf_pages b Hwf Hes) as [Hst (k & Hk & Hcap & Hle)].
  rewrite (nr_pages_available_wf b k Hes Hcap) in Havail.
  assert (Hk' : k ≠ nr_pages_used b) by congruence.
  eexists. split.
  { by apply (vvectorShrinkToFit_fails w h p b k e). }
  split_and!.
  - unfold deref. simpl. by rewrite lookup_insert_eq.
  - simpl. by rewrite lookup_insert_eq.
  - done.
  - done.
Qed.

(** X19. [vvectorReserve] on a well-formed container, with a count
    that is not negative and small enough for the requested capacity
    to be a [ptrdiff_t], makes one reallocation request, also for a
    count of 0 and for an element size of 0.  When it is granted the
    call returns 0, the capacity has grown by the pages the count
    needs, and the length and the element bytes are as they were. *)
Theorem reserve_preserves_elements w vec h p b n e :
  deref w vec = HValid h p b → wf_buffer b → 0 ≤ n →
  reserve_in_range b n →
  reserve_request p b n = Some e → succeeds (log w) e = true →
  ∃ w1 p1 b1,
    vvectorReserve succeeds relocates w vec n = Ret 0 w1
    ∧ deref w1 vec = HValid h p1 b1
    ∧ wf_buffer b1
    ∧ Meta.length (meta b1) = Meta.length (meta b)
    ∧ elements b1 = elements b
    ∧ Meta.capacity (meta b1)
      = Meta.capacity (meta b)
        + length_to_pages n NR_ELEM_IN_PAGE
          * NR_ELEM_IN_PAGE * vec_get_element_size b
    ∧ log w1 = log w ++ [e]
    ∧ (relocates (log w) e = false → p1 = p).
Proof.
  intros Hd Hwf Hn Hrange He Hok.
  destruct (deref_valid_inv _ _ _ _ _ Hd) as (-> & Hc & Hb).
  unfold reserve_request in He.
  destruct (get_realloc b) as [f|] eqn:Hf; [|done].
  destruct (get_ctx b) as [c|] eqn:Hc'; [|done].
  injection He as <-.
  rewrite (reserve_capacity_in_range b n Hwf Hn Hrange) in *.
  pose proof (length_to_pages_bounds n Hn) as Hpages.
  pose proof (vec_get_element_size_nonneg b) as Hes.
  pose proof (wf_block b Hwf) as Hblock.
  pose proof (wf_elements_fit b Hwf) as Hfit.
  remember (length_to_pages n NR_ELEM_IN_PAGE * vec_get_element_size b
            * NR_ELEM_IN_PAGE + vec_get_capacity b)
    as new_capacity eqn:Hsize.
  assert (Hge : Meta.capacity (meta b) ≤ new_capacity).
  { rewrite Hsize. unfold vec_get_capacity, get_meta, NR_ELEM_IN_PAGE in *.
    nia. }
  assert (Hph : phys_header b ≤ new_capacity)
    by (unfold block_size in *; lia).
  destruct (realloc_sequence succeeds relocates
              (λ _, set_capacity (get_meta b) new_capacity) VEC_ENOVEC
              w h p b f c new_capacity ltac:(done) Hd Hok Hph)
    as (w1 & p1 & Hrun & Hd1 & Hsame & Hlog & _).
  exists w1, p1, (resized b new_capacity). split_and!; try done.
  - unfold vvectorReserve. rewrite Hd, Hf, Hc'.
    destruct (Z.ltb_spec n 0) as [|_]; [lia|].
    cbv zeta. fold (reserve_capacity b n).
    rewrite (reserve_capacity_in_range b n Hwf Hn Hrange), <- Hsize.
    exact Hrun.
  - apply wf_resized; [done|done|]. intros Hpos.
    destruct (wf_pages b Hwf Hpos) as [Hst (k & Hk & Hcap & Hle)].
    exists (k + length_to_pages n NR_ELEM_IN_PAGE).
    rewrite Hsize. unfold vec_get_capacity, get_meta, NR_ELEM_IN_PAGE in *.
    lia.
  - apply elements_resized; [done|lia].
  - simpl. rewrite Hsize. unfold vec_get_capacity, get_meta. lia.
Qed.

(** ** The allocator along sequences of operations *)

Lemma routed_refl f c w h p b :
  deref w (Some h) = HValid h p b → routed succeeds f c h b w w.
Proof.
  intros Hd. exists []. rewrite app_nil_r. split; [done|].
  split; [constructor|]. right. exists p, b.
  split; [done|apply same_layout_refl].
Qed.

Lemma routed_store f c w w0 h p0 b b0 b1 :
  routed succeeds f c h b w w0 → deref w0 (Some h) = HValid h p0 b0 →
  same_layout b b1 →
  routed succeeds f c h b w (store_block w0 p0 b1).
Proof.
  intros (l & Hlog & Hl & _) Hd0 Hlay. exists l.
  split; [exact Hlog|]. split; [exact Hl|].
  destruct (deref_valid_inv _ _ _ _ _ Hd0) as (_ & Hc & _).
  right. exists p0, b1. split; [by apply deref_store_block|done].
Qed.

Lemma realloc_sequence_routed (mk : buffer → vvectorMetadata_) (failed : Z)
    w h p b f c new_size r w1 :
  (∀ d, mk (set_data b d) = set_capacity (get_meta b) new_size) →
  deref w (Some h) = HValid h p b →
  match
    call_realloc succeeds relocates w f p new_size (vec_get_capacity b) c
  with
  | None => Fault
  | Some (r, w1) =>
      let w2 := store_cell w1 h r in
      match r with
      | None => Ret failed w2
      | Some p' =>
          match blocks w2 !! p' with
          | None => Fault
          | Some b' => Ret 0 (store_block w2 p' (set_meta b' (mk b')))
          end
      end
  end = Ret r w1 →
  routed succeeds f c h b w w1.
Proof.
  intros Hmk Hd.
  destruct (deref_valid_inv _ _ _ _ _ Hd) as (_ & Hc & Hb).
  unfold call_realloc. rewrite Hb.
  destruct (succeeds _ _) eqn:Hok.
  - destruct (Z.ltb_spec new_size (phys_header b)); [done|].
    destruct (relocates _ _); simpl; rewrite lookup_insert_eq, Hmk;
      intros [= <- <-]; eexists [_];
      (split; [reflexivity|]); (split; [by repeat constructor|]);
      right; eexists _, _;
      (split; [apply deref_valid; simpl; apply lookup_insert_eq|]);
      split; reflexivity.
  - simpl. intros [= <- <-]. eexists [_]. split; [reflexivity|].
    split; [by repeat constructor|]. left. split.
    + unfold deref. simpl. by rewrite lookup_insert_eq.
    + eexists [], _, []. split; [reflexivity|]. by rewrite app_nil_r.
Qed.

Lemma add_page_if_needed_routed w h p b f c r w1 :
  deref w (Some h) = HValid h p b →
  get_realloc b = Some f → get_ctx b = Some c →
  add_page_if_needed succeeds relocates w h = Ret r w1 →
  routed succeeds f c h b w w1.
Proof.
  intros Hd Hf Hc. unfold add_page_if_needed. rewrite Hd.
  destruct (is_full b); simpl.
  - rewrite Hf, Hc.
    apply (realloc_sequence_routed
             (λ b', set_capacity (get_meta b')
                      (vec_get_capacity b
                       + NR_ELEM_IN_PAGE * vec_get_element_size b)) 1);
      done.
  - intros [= <- <-]. by apply (routed_refl f c w h p b).
Qed.

Lemma vvectorReserve_routed w h p b f c n r w1 :
  deref w (Some h) = HValid h p b →
  get_realloc b = Some f → get_ctx b = Some c →
  vvectorReserve succeeds relocates w (Some h) n = Ret r w1 →
  routed succeeds f c h b w w1.
Proof.
  intros Hd Hf Hc. unfold vvectorReserve. rewrite Hd.
  destruct (n <? 0).
  - intros [= <- <-]. by apply (routed_refl f c w h p b).
  - rewrite Hf, Hc. cbv zeta.
    fold (reserve_capacity b n).
    apply (realloc_sequence_routed
             (λ _, set_capacity (get_meta b) (reserve_capacity b n))
             VEC_ENOVEC);
      done.
Qed.

Lemma vvectorShrinkToFit_routed w h p b f c r w1 :
  deref w (Some h) = HValid h p b →
  get_realloc b = Some f → get_ctx b = Some c →
  vvectorShrinkToFit succeeds relocates w (Some h) = Ret r w1 →
  routed succeeds f c h b w w1.
Proof.
  intros Hd Hf Hc. unfold vvectorShrinkToFit. rewrite Hd.
  destruct (has_empty_pages b) as [[|]|]; [| |done].
  - destruct (nr_pages_available b) as [avail|]; [|done].
    rewrite Hf, Hc. cbv zeta.
    apply (realloc_sequence_routed
             (λ _, set_capacity (get_meta b)
                     (vec_get_capacity b
                      - (avail - nr_pages_used b)
                        * vec_get_element_size b * NR_ELEM_IN_PAGE)) 1);
      done.
  - intros [= <- <-]. by apply (routed_refl f c w h p b).
Qed.

Lemma vvectorWriteValueAt_routed w h p b f c index value r w1 :
  deref w (Some h) = HValid h p b →
  vvectorWriteValueAt w (Some h) index value = Ret r w1 →
  routed succeeds f c h b w w1.
Proof.
  intros Hd. unfold vvectorWriteValueAt. rewrite Hd.
  pose proof (routed_refl f c w h p b Hd) as Hrefl.
  destruct (index_is_invalid b index); [by intros [= <- <-]|].
  destruct value as [v|]; [|by intros [= <- <-]].
  destruct (memcpy_from b _ _ _) as [b1|] eqn:Hcopy; [|done].
  intros [= <- <-].
  destruct (memcpy_from_Some _ _ _ _ _ Hcopy) as (Hm1 & Hdescr1 & _).
  apply (routed_store f c w w h p b b b1); [done|done|].
  split; [by rewrite Hm1|done].
Qed.

Lemma vvectorRemoveAt_routed w h p b f c index r w1 :
  deref w (Some h) = HValid h p b →
  vvectorRemoveAt w (Some h) index = Ret r w1 →
  routed succeeds f c h b w w1.
Proof.
  intros Hd. unfold vvectorRemoveAt. rewrite Hd.
  pose proof (routed_refl f c w h p b Hd) as Hrefl.
  destruct (index_is_invalid b index); [by intros [= <- <-]|].
  destruct (memmove b _ _ _) as [b1|] eqn:Hmove; [|done].
  intros [= <- <-].
  destruct (memmove_Some _ _ _ _ _ Hmove) as (Hm1 & Hdescr1 & _).
  apply (routed_store f c w w h p b b); [done|done|].
  split; simpl; unfold get_meta; [by rewrite Hm1|done].
Qed.

Lemma vvectorInsertValueAt_routed w h p b f c index value r w1 :
  deref w (Some h) = HValid h p b →
  get_realloc b = Some f → get_ctx b = Some c →
  vvectorInsertValueAt succeeds relocates w (Some h) index value = Ret r w1 →
  routed succeeds f c h b w w1.
Proof.
  intros Hd Hf Hc. unfold vvectorInsertValueAt. rewrite Hd.
  destruct (add_page_if_needed succeeds relocates w h) as [r0 w0|] eqn:Hpage;
    [|done].
  pose proof (add_page_if_needed_routed w h p b f c r0 w0 Hd Hf Hc Hpage)
    as Hr0.
  destruct Hr0 as (l & Hlog & Hl & [[Hinv _]|(p0 & b0 & Hd0 & Hlay)]).
  { by rewrite Hinv. }
  assert (Hr0 : routed succeeds f c h b w w0).
  { exists l. split; [done|]. split; [done|]. right. by exists p0, b0. }
  rewrite Hd0.
  destruct (index >? Meta.length (get_meta b0)); [by intros [= <- <-]|].
  destruct value as [v|]; [|by intros [= <- <-]].
  destruct (memmove b0 _ _ _) as [b1|] eqn:Hmove; [|done].
  destruct (memcpy_from b1 _ _ _) as [b2|] eqn:Hcopy; [|done].
  intros [= <- <-].
  destruct (memmove_Some _ _ _ _ _ Hmove) as (Hm1 & Hdescr1 & _).
  destruct (memcpy_from_Some _ _ _ _ _ Hcopy) as (Hm2 & Hdescr2 & _).
  apply (routed_store f c w w0 h p0 b b0); [done|done|].
  destruct Hlay as [Hes Hdescr].
  split; simpl; unfold get_meta; [rewrite Hm2, Hm1; done|congruence].
Qed.

Lemma run_operation_routed w h p b f c op r w1 :
  deref w (Some h) = HValid h p b →
  get_realloc b = Some f → get_ctx b = Some c →
  run_operation succeeds relocates w (Some h) op = Ret r w1 →
  routed succeeds f c h b w w1.
Proof.
  intros Hd Hf Hc Hrun.
  destruct op as [n| |index value|index value|value|index|];
    unfold run_operation in Hrun.
  - by apply (vvectorReserve_routed w h p b f c n r w1).
  - by apply (vvectorShrinkToFit_routed w h p b f c r w1).
  - by apply (vvectorWriteValueAt_routed w h p b f c index value r w1).
  - by apply (vvectorInsertValueAt_routed w h p b f c index value r w1).
  - unfold vvectorPushBack in Hrun. rewrite Hd in Hrun.
    destruct value as [v|].
    + by apply (vvectorInsertValueAt_routed w h p b f c
                  (Meta.length (get_meta b)) (Some v) r w1).
    + injection Hrun as <- <-. by apply (routed_refl f c w h p b).
  - by apply (vvectorRemoveAt_routed w h p b f c index r w1).
  - unfold vvectorRemoveBack in Hrun. rewrite Hd in Hrun.
    destruct (Meta.length (get_meta b) =? 0).
    + injection Hrun as <- <-. by apply (routed_refl f c w h p b).
    + by apply (vvectorRemoveAt_routed w h p b f c
                  (Meta.length (get_meta b) - 1) r w1).
Qed.

Lemma run_operations_invalid ops :
  ∀ w vec w1,
    deref w vec = HInvalid →
    run_operations succeeds relocates w vec ops = Some w1 → w1 = w.
Proof.
  induction ops as [|op ops IH]; intros w vec w1 Hd Hrun;
    cbn [run_operations] in Hrun.
  - by injection Hrun as <-.
  - destruct (run_operation succeeds relocates w vec op) as [r w0|] eqn:Hop;
      [|done].
    pose proof (run_operation_invalid succeeds relocates w vec op r w0 Hd Hop)
      as ->.
    by apply (IH w vec).
Qed.

Lemma refused_later l0 l l' :
  refused succeeds (l0 ++ l) l' → refused succeeds l0 (l ++ l').
Proof.
  intros (l1 & e & l2 & -> & Hno). exists (l ++ l1), e, l2.
  split; [by rewrite <- app_assoc|]. by rewrite app_assoc.
Qed.

Lemma refused_earlier l0 l l' :
  refused succeeds l0 l → refused succeeds l0 (l ++ l').
Proof.
  intros (l1 & e & l2 & -> & Hno). exists l1, e, (l2 ++ l').
  split; [by rewrite <- app_assoc|done].
Qed.

Lemma run_operations_routed ops :
  ∀ w h p b f c w1,
    deref w (Some h) = HValid h p b →
    get_realloc b = Some f → get_ctx b = Some c →
    run_operations succeeds relocates w (Some h) ops = Some w1 →
    routed succeeds f c h b w w1.
Proof.
  induction ops as [|op ops IH]; intros w h p b f c w1 Hd Hf Hc Hrun;
    cbn [run_operations] in Hrun.
  - injection Hrun as <-. by apply (routed_refl f c w h p b).
  - destruct (run_operation succeeds relocates w (Some h) op) as [r w0|]
      eqn:Hop; [|done].
    destruct (run_operation_routed w h p b f c op r w0 Hd Hf Hc Hop)
      as (l & Hlog & Hl & [[Hinv Href]|(p0 & b0 & Hd0 & Hlay)]).
    + rewrite (run_operations_invalid ops w0 (Some h) w1 Hinv Hrun).
      exists l. split; [done|]. split; [done|]. by left.
    + destruct (same_layout_allocator b b0 Hlay)
        as (Hf0 & _ & _ & Hc0 & _).
      destruct (IH w0 h p0 b0 f c w1 Hd0 ltac:(congruence) ltac:(congruence)
                  Hrun)
        as (l' & Hlog' & Hl' & Hend).
      exists (l ++ l'). split; [by rewrite Hlog', Hlog, app_assoc|].
      split; [by apply Forall_app|].
      destruct Hend as [[Hinv Href]|(p1 & b1 & Hd1 & Hlay1)].
      * left. split; [done|]. apply refused_later. by rewrite <- Hlog.
      * right. exists p1, b1. split; [done|].
        by apply (same_layout_trans b b0 b1).
Qed.

(** X20. Whatever the calls made on a well-formed container between
    creation and destruction, with index arguments that are not
    negative, and whatever the allocator answers: as long as no call
    faults, the only allocator function they call is the container's
    reallocate function, always with the container's context.  The
    handle is cleared only if one of these reallocations was refused;
    otherwise the signed element size and the descriptor in the buffer
    are those it started with, so that the debug functions keep
    returning the same values. *)
Theorem allocator_fixed_for_life w h p b f c ops w1 :
  deref w (Some h) = HValid h p b → wf_buffer b →
  get_realloc b = Some f → get_ctx b = Some c →
  Forall nonnegative_index ops →
  run_operations succeeds relocates w (Some h) ops = Some w1 →
  ∃ l,
    log w1 = log w ++ l
    ∧ Forall (realloc_by f c) l
    ∧ ((deref w1 (Some h) = HInvalid ∧ refused succeeds (log w) l)
       ∨ ∃ p1 b1,
           deref w1 (Some h) = HValid h p1 b1
           ∧ Meta.element_size (meta b1) = Meta.element_size (meta b)
           ∧ descr b1 = descr b
           ∧ get_realloc b1 = Some f ∧ get_ctx b1 = Some c
           ∧ vvector_debug_get_element_size w1 (Some h)
             = vvector_debug_get_element_size w (Some h)
           ∧ vvector_debug_get_malloc_fn w1 (Some h)
             = vvector_debug_get_malloc_fn w (Some h)
           ∧ vvector_debug_get_free_fn w1 (Some h)
             = vvector_debug_get_free_fn w (Some h)
           ∧ vvector_debug_get_realloc_fn w1 (Some h)
             = vvector_debug_get_realloc_fn w (Some h)
           ∧ vvector_debug_get_ctx w1 (Some h)
             = vvector_debug_get_ctx w (Some h)).
Proof.
  intros Hd _ Hf Hc _ Hrun.
  destruct (run_operations_routed ops w h p b f c w1 Hd Hf Hc Hrun)
    as (l & Hlog & Hl & Hend).
  exists l. split; [exact Hlog|]. split; [exact Hl|].
  destruct Hend as [?|(p1 & b1 & Hd1 & Hlay)]; [by left|].
  right. exists p1, b1.
  destruct (same_layout_allocator b b1 Hlay)
    as (Hf1 & _ & _ & Hc1 & Ha1 & Hcu1).
  destruct Hlay as [Hes Hdescr].
  unfold vvector_debug_get_element_size, vvector_debug_get_malloc_fn,
    vvector_debug_get_free_fn, vvector_debug_get_realloc_fn,
    vvector_debug_get_ctx.
  rewrite Hd, Hd1, Ha1, Hcu1. unfold get_meta. rewrite Hes.
  split_and!; congruence.
Qed.

(** ** The demo's vector of 100 numbers *)

Lemma length_int_bytes i : length (int_bytes i) = 4%nat.
Proof. reflexivity. Qed.

(** X21. [create_vector_of_100_numbers] of the demo, with an allocator
    that grants every call, wherever reallocation moves the buffer:
    it returns a container of [int]s of length 100 whose element [i]
    is the number [i], in a buffer of four pages (536 bytes with the
    header). *)
Theorem create_vector_of_100_numbers_returns w :
  (∀ l e, succeeds l e = true) →
  ∃ h p b w1,
    create_vector_of_100_numbers succeeds relocates w = Ret (Some h) w1
    ∧ deref w1 (Some h) = HValid h p b
    ∧ wf_buffer b
    ∧ vvectorGetLength w1 (Some h) = Some 100
    ∧ vvector_debug_get_capacity w1 (Some h) = Some 536
    ∧ ∀ i, 0 ≤ i < 100 →
           read_value w1 (Some h) i 4 = Some (int_bytes i).
Proof.
  intros Hok.
  destruct (vec_new__returns succeeds w 4 None Hok ltac:(lia) ltac:(done))
    as (h & w0 & Hnew).
  destruct (vec_new__inv succeeds w 4 None h w0 Hnew)
    as (_ & _ & _ & p0 & Hd0).
  change (pointee w None) with (@None vvectorAlloc) in Hd0.
  assert (Hfit : Forall (λ v, vec_get_element_size (created 4 None)
                              ≤ Z.of_nat (length v))
                   (int_bytes <$> seqZ 0 100)).
  { apply Forall_fmap, Forall_true. intros i. cbv beta.
    unfold compose. rewrite length_int_bytes. by vm_compute. }
  destruct (push_back_all_spec (int_bytes <$> seqZ 0 100) Hok w0 h p0
              (created 4 None) 0 Hd0 (wf_created 4 None ltac:(lia))
              ltac:(by vm_compute) ltac:(by vm_compute) Hfit)
    as (w1 & p1 & b1 & l & Hrun & Hd1 & Hwf1 & Hlay & Hlen & Hel & Hcap & _).
  exists h, p1, b1, w1. split_and!; try done.
  - unfold create_vector_of_100_numbers. by rewrite Hnew, Hrun.
  - unfold vvectorGetLength. rewrite Hd1. unfold get_meta. by rewrite Hlen.
  - unfold vvector_debug_get_capacity. rewrite Hd1. unfold get_meta.
    by rewrite Hcap.
  - intros i Hi.
    pose proof (read_value_layout w1 (Some h) h p1 b1 (created 4 None) i
                  Hd1 Hwf1 Hlay) as Hr.
    change (vec_get_element_size (created 4 None)) with 4 in Hr.
    rewrite Hr by (rewrite Hlen; simpl; lia).
    rewrite Hel. f_equal.
    change (elements (created 4 None)) with (@nil cell).
    change (vec_get_element_size (created 4 None)) with 4.
    replace i with (0 + Z.of_nat (Z.to_nat i)) at 1 by lia.
    rewrite (element_at_appended 4 [] 0 (int_bytes <$> seqZ 0 100)
               (Z.to_nat i) (int_bytes i)); try done.
    rewrite list_lookup_fmap.
    rewrite (proj2 (lookup_seqZ 0 100 (Z.to_nat i) i)); [done|lia].
Qed.

End Calls.

(** ** Pages *)

(** X22. For a length that is not negative and a positive page size,
    [length_to_pages] is the ceiling of their quotient: the smallest
    number of pages that holds that many elements.  For a negative
    length above minus the page size it is 1, since C's division
    truncates toward zero. *)
Theorem length_to_pages_minimal len n :
  0 < n →
  (0 ≤ len →
   length_to_pages len n = pages_needed len n
   ∧ len ≤ length_to_pages len n * n
   ∧ ∀ k, len ≤ k * n → length_to_pages len n ≤ k)
  ∧ (- n < len < 0 → length_to_pages len n = 1).
Proof.
  intros Hn. split.
  - intros Hlen.
    assert (Hb : len ≤ n * length_to_pages len n < len + n).
    { unfold length_to_pages.
      rewrite Z.rem_mod_nonneg, Z.quot_div_nonneg by lia.
      pose proof (Z.div_mod len n ltac:(lia)) as Hdm.
      pose proof (Z.mod_pos_bound len n ltac:(lia)) as Hmod.
      destruct (Z.eqb_spec (len `mod` n) 0); lia. }
    split_and!.
    + unfold pages_needed.
      apply Z.div_unique with (r := len + n - 1 - n * length_to_pages len n);
        lia.
    + lia.
    + intros k Hk. nia.
  - intros Hlen. unfold length_to_pages.
    replace len with (- (- len)) by lia.
    rewrite Z.rem_opp_l, Z.quot_opp_l by lia.
    rewrite Z.rem_small, Z.quot_small by lia.
    destruct (Z.eqb_spec (- - len) 0); lia.
Qed.

(** ** Concrete instances *)

Lemma invalid_handle_rejected_witness :
  vvectorGetLength cleared_world fresh_vec = Some 0
  ∧ vvectorIsEmpty cleared_world fresh_vec = Some 1
  ∧ (∀ index, vvectorGetAt cleared_world fresh_vec index = Some None)
  ∧ vvectorGetFront cleared_world fresh_vec = Some None
  ∧ vvectorGetBack cleared_world fresh_vec = Some None
  ∧ (∀ op, run_operation always never cleared_world fresh_vec op
           = Ret VEC_ENOVEC cleared_world)
  ∧ vvectorFree cleared_world fresh_vec = Ret VEC_ENOVEC cleared_world
  ∧ (∀ fuel, remove_until_empty fuel cleared_world fresh_vec
             = Done 0 cleared_world)
  ∧ vvector_debug_get_element_size cleared_world fresh_vec = Some VEC_ENOVEC
  ∧ vvector_debug_get_capacity cleared_world fresh_vec = Some VEC_ENOVEC
  ∧ vvector_debug_get_malloc_fn cleared_world fresh_vec = Some None
  ∧ vvector_debug_get_free_fn cleared_world fresh_vec = Some None
  ∧ vvector_debug_get_realloc_fn cleared_world fresh_vec = Some None
  ∧ vvector_debug_get_ctx cleared_world fresh_vec = Some 0.
Proof.
  apply (invalid_handle_rejected always never cleared_world fresh_vec).
  reflexivity.
Defined.

Lemma get_at_reads_element_witness :
  vvectorGetAt two_world fresh_vec 1 = Some (Some (1%nat, 28))
  ∧ read_value two_world fresh_vec 1 4 = Some other_value
  ∧ vvectorGetAt two_world fresh_vec 2 = Some None.
Proof.
  destruct (get_at_reads_element two_world fresh_vec 2 1 two_block 1
              eq_refl ltac:(wf_by_computation 1)) as [Hin _].
  destruct (get_at_reads_element two_world fresh_vec 2 1 two_block 2
              eq_refl ltac:(wf_by_computation 1)) as [_ Hout].
  destruct (Hin ltac:(by vm_compute)) as (Hget & Hread & _).
  destruct (Hout ltac:(by vm_compute)) as (Hnull & _).
  split; [exact Hget|]. split; [exact Hread|exact Hnull].
Defined.

Lemma get_front_back_witness :
  vvectorGetFront two_world fresh_vec = vvectorGetAt two_world fresh_vec 0
  ∧ vvectorGetBack two_world fresh_vec = vvectorGetAt two_world fresh_vec 1
  ∧ read_front two_world fresh_vec 4 = Some some_value
  ∧ read_back two_world fresh_vec 4 = Some other_value.
Proof.
  exact (proj2 (get_front_back two_world fresh_vec 2 1 two_block
                  eq_refl ltac:(wf_by_computation 1))
           ltac:(by vm_compute)).
Defined.

Lemma write_value_at_replaces_witness :
  vvectorWriteValueAt two_world fresh_vec 2 (Some other_value)
  = Ret VEC_EBADINDEX two_world
  ∧ ∃ w1 b1,
      vvectorWriteValueAt two_world fresh_vec 0 (Some other_value) = Ret 0 w1
      ∧ deref w1 fresh_vec = HValid 2 1 b1
      ∧ read_value w1 fresh_vec 0 4 = Some other_value
      ∧ read_value w1 fresh_vec 1 4 = Some other_value.
Proof.
  split.
  - apply (write_value_at_replaces two_world fresh_vec 2 1 two_block 2
             (Some other_value) eq_refl ltac:(wf_by_computation 1)).
    by vm_compute.
  - destruct (write_value_at_replaces two_world fresh_vec 2 1 two_block 0
                (Some other_value) eq_refl ltac:(wf_by_computation 1))
      as (_ & _ & Hok).
    destruct (Hok ltac:(by vm_compute) other_value eq_refl
                ltac:(by vm_compute))
      as (w1 & b1 & Hw & Hd & _ & _ & _ & _ & _ & Hsame & Hother).
    exists w1, b1. split; [exact Hw|]. split; [exact Hd|].
    split; [exact Hsame|].
    exact (Hother 1 ltac:(by vm_compute) ltac:(done)).
Defined.

Lemma insert_value_at_shifts_witness :
  ∃ w1 p1 b1,
    vvectorInsertValueAt always never two_world fresh_vec 1 (Some some_value)
    = Ret 0 w1
    ∧ deref w1 fresh_vec = HValid 2 p1 b1
    ∧ Meta.length (meta b1) = 3
    ∧ Meta.capacity (meta b1) = 152
    ∧ log w1 = log two_world
    ∧ read_value w1 fresh_vec 0 4 = Some some_value
    ∧ read_value w1 fresh_vec 1 4 = Some some_value
    ∧ read_value w1 fresh_vec 2 4 = Some other_value.
Proof.
  destruct (insert_value_at_shifts always never two_world fresh_vec 2 1
              two_block 1 some_value eq_refl ltac:(wf_by_computation 1)
              ltac:(by vm_compute) ltac:(by vm_compute)
              ltac:(intros H; by vm_compute in H))
    as (w1 & p1 & b1 & Hins & Hd & _ & Hlen & Hcap & Hlog & Hat & Hbefore
        & Hafter).
  exists w1, p1, b1. split; [exact Hins|]. split; [exact Hd|].
  split; [exact Hlen|]. split; [exact Hcap|]. split; [exact Hlog|].
  split; [exact (Hbefore 0 ltac:(by vm_compute))|].
  split; [exact Hat|]. exact (Hafter 1 ltac:(by vm_compute)).
Defined.

Lemma remove_at_shifts_witness :
  vvectorRemoveAt two_world fresh_vec 2 = Ret VEC_EBADINDEX two_world
  ∧ ∃ w1 b1,
      vvectorRemoveAt two_world fresh_vec 0 = Ret 0 w1
      ∧ deref w1 fresh_vec = HValid 2 1 b1
      ∧ Meta.length (meta b1) = 1
      ∧ Meta.capacity (meta b1) = 152
      ∧ log w1 = log two_world
      ∧ read_value w1 fresh_vec 0 4 = Some other_value
      ∧ vvectorGetAt w1 fresh_vec 1 = Some None.
Proof.
  split.
  - apply (remove_at_shifts two_world fresh_vec 2 1 two_block 2
             eq_refl ltac:(wf_by_computation 1)).
    by vm_compute.
  - destruct (proj2 (remove_at_shifts two_world fresh_vec 2 1 two_block 0
                       eq_refl ltac:(wf_by_computation 1))
                ltac:(by vm_compute))
      as (w1 & b1 & Hrem & Hd & _ & Hlen & Hcap & Hlog & _ & Hafter & Hlast).
    exists w1, b1. split; [exact Hrem|]. split; [exact Hd|].
    split; [exact Hlen|]. split; [exact Hcap|]. split; [exact Hlog|].
    split; [exact (Hafter 1 ltac:(by vm_compute))|exact Hlast].
Defined.

Lemma push_back_appends_witness :
  vvectorPushBack always never (fresh_world 4) fresh_vec None
  = Ret VEC_ENOVALUE (fresh_world 4)
  ∧ ∃ w1 p1 b1,
      vvectorPushBack always never (fresh_world 4) fresh_vec (Some some_value)
      = Ret 0 w1
      ∧ deref w1 fresh_vec = HValid 2 p1 b1
      ∧ Meta.length (meta b1) = 1
      ∧ elements b1 = some_value
      ∧ Meta.capacity (meta b1) = 152
      ∧ log w1
        = log (fresh_world 4) ++ [EvRealloc vvector_lib_realloc 1 152 24 0]
      ∧ read_back w1 fresh_vec 4 = Some some_value.
Proof.
  destruct (push_back_appends always never (fresh_world 4) fresh_vec 2 1
              (created 4 None) None eq_refl ltac:(wf_by_computation 0))
    as [Hnull _].
  destruct (push_back_appends always never (fresh_world 4) fresh_vec 2 1
              (created 4 None) (Some some_value) eq_refl
              ltac:(wf_by_computation 0))
    as [_ Hpush].
  split; [exact (Hnull eq_refl)|].
  destruct (Hpush some_value eq_refl ltac:(by vm_compute)
              ltac:(intros _; eexists; split; reflexivity))
    as (w1 & p1 & b1 & Hp & Hd & _ & Hlen & Hel & Hcap & Hlog & Hback).
  exists w1, p1, b1. split; [exact Hp|]. split; [exact Hd|].
  split; [exact Hlen|]. split; [exact Hel|]. split; [exact Hcap|].
  split; [exact Hlog|exact Hback].
Defined.

Lemma remove_back_drops_last_witness :
  ∃ w1 b1,
    vvectorRemoveBack two_world fresh_vec = Ret 0 w1
    ∧ deref w1 fresh_vec = HValid 2 1 b1
    ∧ Meta.length (meta b1) = 1
    ∧ elements b1 = some_value
    ∧ Meta.capacity (meta b1) = 152
    ∧ log w1 = log two_world.
Proof.
  destruct (remove_back_drops_last two_world fresh_vec 2 1 two_block
              eq_refl ltac:(wf_by_computation 1) ltac:(by vm_compute))
    as (w1 & b1 & Hrem & Hd & _ & Hlen & Hel & Hcap & Hlog).
  exists w1, b1. split; [exact Hrem|]. split; [exact Hd|].
  split; [exact Hlen|]. split; [exact Hel|]. split; [exact Hcap|exact Hlog].
Defined.

Lemma push_back_all_appends_witness :
  ∃ w2 p2 b2 l,
    push_back_all always never (fresh_world 4) fresh_vec
      [some_value; other_value] = Ret 0 w2
    ∧ deref w2 fresh_vec = HValid 2 p2 b2
    ∧ Meta.length (meta b2) = 2
    ∧ elements b2 = some_value ++ other_value
    ∧ Meta.capacity (meta b2) = 152
    ∧ log w2 = log (fresh_world 4) ++ l
    ∧ Z.of_nat (length l) = 1
    ∧ read_value w2 fresh_vec 1 4 = Some other_value.
Proof.
  destruct (push_back_all_appends always never (fresh_world 4) 2 1
              (created 4 None) 0 [some_value; other_value]
              ltac:(done) eq_refl ltac:(wf_by_computation 0)
              ltac:(by vm_compute) ltac:(by vm_compute)
              ltac:(repeat constructor; by vm_compute))
    as (w2 & p2 & b2 & l & Hrun & Hd & _ & Hlen & Hel & Hcap & Hlog & Hl
        & Hread).
  exists w2, p2, b2, l. split; [exact Hrun|]. split; [exact Hd|].
  split; [exact Hlen|]. split; [exact Hel|]. split; [exact Hcap|].
  split; [exact Hlog|]. split; [exact Hl|].
  exact (Hread 1%nat other_value eq_refl).
Defined.

Lemma remove_until_empty_terminates_witness :
  ∃ w1 b1,
    remove_until_empty 5 two_world fresh_vec = Done 2 w1
    ∧ deref w1 fresh_vec = HValid 2 1 b1
    ∧ vvectorIsEmpty w1 fresh_vec = Some 1
    ∧ vvectorGetLength w1 fresh_vec = Some 0
    ∧ Meta.capacity (meta b1) = 152
    ∧ log w1 = log two_world.
Proof.
  destruct (remove_until_empty_terminates two_world fresh_vec 2 1 two_block 5
              eq_refl ltac:(wf_by_computation 1) ltac:(by vm_compute))
    as (w1 & b1 & Hrun & Hd & _ & Hempty & Hlen & Hcap & Hlog).
  exists w1, b1. split; [exact Hrun|]. split; [exact Hd|].
  split; [exact Hempty|]. split; [exact Hlen|]. split; [exact Hcap|exact Hlog].
Defined.

Lemma free_releases_witness :
  ∃ w1,
    vvectorFree two_world fresh_vec = Ret 0 w1
    ∧ log w1
      = log two_world ++ [EvFree vvector_lib_free 1 152 0;
                          EvFree vvector_lib_free 2 8 0]
    ∧ blocks w1 = delete 1%nat (blocks two_world)
    ∧ cells w1 = delete 2%nat (cells two_world)
    ∧ deref w1 fresh_vec = HDangling
    ∧ vvectorFree w1 fresh_vec = Fault
    ∧ vvectorGetLength w1 fresh_vec = None.
Proof.
  destruct (free_releases always never two_world fresh_vec 2 1 two_block
              vvector_lib_free eq_refl eq_refl)
    as (w1 & Hfree & Hlog & Hblocks & Hcells & _ & Hd & Htwice & Hlen & _).
  exists w1. split; [exact Hfree|]. split; [exact Hlog|].
  split; [exact Hblocks|]. split; [exact Hcells|]. split; [exact Hd|].
  split; [exact Htwice|exact Hlen].
Defined.

Lemma vec_new__out_of_memory_witness :
  (∃ w1,
     vec_new_ never empty_world 4 None = Ret None w1
     ∧ cells w1 = ∅ ∧ blocks w1 = ∅
     ∧ log w1 = [EvMalloc vvector_lib_malloc 24 0])
  ∧ (∃ w1,
       vec_new_ (fails_after 1) empty_world 4 None = Ret None w1
       ∧ cells w1 = ∅
       ∧ blocks w1 = <[1%nat := created 4 None]> ∅
       ∧ log w1 = [EvMalloc vvector_lib_malloc 24 0;
                   EvMalloc vvector_lib_malloc 8 0]).
Proof.
  split.
  - exact (proj1 (vec_new__out_of_memory never empty_world 4 None
                    ltac:(by vm_compute) ltac:(done)) eq_refl).
  - exact (proj2 (vec_new__out_of_memory (fails_after 1) empty_world 4 None
                    ltac:(by vm_compute) ltac:(done)) eq_refl eq_refl).
Defined.

Lemma create_then_free_restores_witness :
  ∃ h w1 w2 f,
    vec_new_ always caller_world 4 (Some 7%nat) = Ret (Some h) w1
    ∧ deref w1 (Some h)
      = HValid h 1 (created 4 (Some caller_descriptor))
    ∧ get_free (created 4 (Some caller_descriptor)) = Some f
    ∧ vvectorFree w1 (Some h) = Ret 0 w2
    ∧ cells w2 = cells caller_world ∧ blocks w2 = blocks caller_world
    ∧ descs w2 = descs caller_world
    ∧ log w2
      = [EvMalloc (user_fn 1) 56 42; EvMalloc (user_fn 1) 8 42;
         EvFree f 1 56 42; EvFree f h 8 42].
Proof.
  exact (create_then_free_restores always caller_world 4 (Some 7%nat)
           ltac:(by vm_compute)
           ltac:(intros d [= <-]; by eexists)
           eq_refl eq_refl eq_refl eq_refl).
Defined.

Lemma zero_size_ignores_descriptor_witness :
  ∃ h w1 w2,
    vec_new_ always caller_world 0 (Some 7%nat) = Ret (Some h) w1
    ∧ deref w1 (Some h) = HValid h 1 (created 0 (Some caller_descriptor))
    ∧ descr (created 0 (Some caller_descriptor))
      = Some (with_defaults caller_descriptor)
    ∧ log w1 = [EvMalloc (user_fn 1) 56 42; EvMalloc (user_fn 1) 8 42]
    ∧ vvector_debug_get_element_size w1 (Some h) = Some 0
    ∧ vvector_debug_get_malloc_fn w1 (Some h) = Some None
    ∧ vvector_debug_get_free_fn w1 (Some h) = Some None
    ∧ vvector_debug_get_realloc_fn w1 (Some h) = Some None
    ∧ vvector_debug_get_ctx w1 (Some h) = Some 0
    ∧ get_realloc (created 0 (Some caller_descriptor))
      = Some vvector_lib_realloc
    ∧ get_ctx (created 0 (Some caller_descriptor)) = Some 0
    ∧ vvectorFree w1 (Some h) = Ret 0 w2
    ∧ log w2
      = log w1 ++ [EvFree vvector_lib_free 1 56 0;
                   EvFree vvector_lib_free h 8 0].
Proof.
  exact (zero_size_ignores_descriptor always caller_world 7 caller_descriptor
           eq_refl eq_refl eq_refl).
Defined.

Lemma debug_functions_after_creation_witness :
  vvector_debug_get_capacity caller_vec_world (Some 2%nat) = Some 56
  ∧ vvector_debug_get_element_size caller_vec_world (Some 2%nat) = Some (-4)
  ∧ vvector_debug_get_malloc_fn caller_vec_world (Some 2%nat)
    = Some (Some (user_fn 1))
  ∧ vvector_debug_get_free_fn caller_vec_world (Some 2%nat)
    = Some (Some vvector_lib_free)
  ∧ vvector_debug_get_realloc_fn caller_vec_world (Some 2%nat)
    = Some (Some (user_fn 3))
  ∧ vvector_debug_get_ctx caller_vec_world (Some 2%nat) = Some 42
  ∧ vvectorGetLength caller_vec_world (Some 2%nat) = Some 0
  ∧ vvectorIsEmpty caller_vec_world (Some 2%nat) = Some 1.
Proof.
  exact (debug_functions_after_creation always caller_world 4 (Some 7%nat) 2
           caller_vec_world ltac:(by vm_compute) eq_refl).
Defined.

Lemma shrink_to_fit_idempotent_witness :
  vvectorShrinkToFit always never shrunk_world fresh_vec = Ret 0 shrunk_world.
Proof.
  exact (shrink_to_fit_idempotent always never emptied_world fresh_vec 2 1
           emptied_block shrunk_world eq_refl ltac:(wf_by_computation 1)
           ltac:(by vm_compute) eq_refl).
Defined.

Lemma shrink_to_fit_failure_witness :
  ∃ w1,
    vvectorShrinkToFit never never emptied_world fresh_vec = Ret 1 w1
    ∧ deref w1 fresh_vec = HInvalid
    ∧ cells w1 !! 2%nat = Some None
    ∧ blocks w1 !! 1%nat = Some emptied_block
    ∧ log w1
      = log emptied_world ++ [EvRealloc vvector_lib_realloc 1 24 152 0].
Proof.
  exact (shrink_to_fit_failure never never emptied_world fresh_vec 2 1
           emptied_block (EvRealloc vvector_lib_realloc 1 24 152 0)
           eq_refl ltac:(wf_by_computation 1) ltac:(by vm_compute)
           ltac:(by vm_compute) eq_refl eq_refl).
Defined.

Lemma reserve_preserves_elements_witness :
  ∃ w1 p1 b1,
    vvectorReserve always never two_world fresh_vec 40 = Ret 0 w1
    ∧ deref w1 fresh_vec = HValid 2 p1 b1
    ∧ wf_buffer b1
    ∧ Meta.length (meta b1) = 2
    ∧ elements b1 = some_value ++ other_value
    ∧ Meta.capacity (meta b1) = 408
    ∧ log w1
      = log two_world ++ [EvRealloc vvector_lib_realloc 1 408 152 0]
    ∧ (never (log two_world) (EvRealloc vvector_lib_realloc 1 408 152 0)
       = false → p1 = 1%nat).
Proof.
  exact (reserve_preserves_elements always never two_world fresh_vec 2 1
           two_block 40 (EvRealloc vvector_lib_realloc 1 408 152 0)
           eq_refl ltac:(wf_by_computation 1) ltac:(by vm_compute)
           ltac:(by vm_compute) ltac:(by vm_compute) eq_refl).
Defined.

Lemma allocator_fixed_for_life_witness :
  ∃ l p1 b1,
    log sample_world = log (fresh_world 4) ++ l
    ∧ Forall (realloc_by vvector_lib_realloc 0) l
    ∧ deref sample_world fresh_vec = HValid 2 p1 b1
    ∧ Meta.element_size (meta b1) = 4
    ∧ descr b1 = None
    ∧ get_realloc b1 = Some vvector_lib_realloc
    ∧ get_ctx b1 = Some 0
    ∧ vvector_debug_get_element_size sample_world fresh_vec = Some 4
    ∧ vvector_debug_get_malloc_fn sample_world fresh_vec = Some None
    ∧ vvector_debug_get_free_fn sample_world fresh_vec = Some None
    ∧ vvector_debug_get_realloc_fn sample_world fresh_vec = Some None
    ∧ vvector_debug_get_ctx sample_world fresh_vec = Some 0.
Proof.
  destruct (allocator_fixed_for_life always never (fresh_world 4) 2 1
              (created 4 None) vvector_lib_realloc 0 sample_operations
              sample_world ltac:(by vm_compute) ltac:(wf_by_computation 0)
              eq_refl eq_refl ltac:(repeat constructor; by vm_compute)
              ltac:(by vm_compute))
    as (l & Hlog & Hl & Hend).
  destruct Hend as [[Hinv _]|(p1 & b1 & Hd & Hes & Hdescr & Hf & Hc & H1 & H2
                              & H3 & H4 & H5)];
    [by vm_compute in Hinv|].
  exists l, p1, b1. split; [exact Hlog|]. split; [exact Hl|].
  split; [exact Hd|]. split; [exact Hes|].
  split; [exact Hdescr|]. split; [exact Hf|]. split; [exact Hc|].
  split; [etrans; [exact H1|by vm_compute]|].
  split; [etrans; [exact H2|by vm_compute]|].
  split; [etrans; [exact H3|by vm_compute]|].
  split; [etrans; [exact H4|by vm_compute]|].
  etrans; [exact H5|by vm_compute].
Defined.

Lemma create_vector_of_100_numbers_returns_witness :
  ∃ h p b w1,
    create_vector_of_100_numbers always always empty_world = Ret (Some h) w1
    ∧ deref w1 (Some h) = HValid h p b
    ∧ wf_buffer b
    ∧ vvectorGetLength w1 (Some h) = Some 100
    ∧ vvector_debug_get_capacity w1 (Some h) = Some 536
    ∧ ∀ i, 0 ≤ i < 100 →
           read_value w1 (Some h) i 4 = Some (int_bytes i).
Proof.
  exact (create_vector_of_100_numbers_returns always always empty_world
           ltac:(done)).
Defined.

Lemma length_to_pages_minimal_witness :
  (length_to_pages 100 32 = pages_needed 100 32
   ∧ 100 ≤ length_to_pages 100 32 * 32
   ∧ ∀ k, 100 ≤ k * 32 → length_to_pages 100 32 ≤ k)
  ∧ length_to_pages (-1) 32 = 1.
Proof.
  split.
  - exact (proj1 (length_to_pages_minimal 100 32 ltac:(lia)) ltac:(lia)).
  - exact (proj2 (length_to_pages_minimal (-1) 32 ltac:(lia)) ltac:(lia)).
Defined.

(** * Elements of size zero, and the invariant of length and capacity *)

Section Sequences.
Variable succeeds : list event → event → bool.
Variable relocates : list event → event → bool.

(** With elements of size zero a buffer is full exactly when its
    capacity is the size the code takes for its header, whatever its
    length. *)
Lemma is_full_zero_size b :
  vec_get_element_size b = 0 →
  is_full b = true ↔ Meta.capacity (meta b) = getLengthOfMetadata b.
Proof.
  intros Hes. rewrite is_full_spec, Hes.
  change (getLengthOfMetadata b) with (get_start_of_data b). lia.
Qed.

Lemma is_full_same_layout b b1 :
  vec_get_element_size b = 0 → same_layout b b1 →
  Meta.capacity (meta b1) = Meta.capacity (meta b) →
  is_full b1 = is_full b.
Proof.
  intros Hes Hlay Hcap.
  pose proof (same_layout_element_size b b1 Hlay) as Hes1.
  pose proof (same_layout_start b b1 Hlay) as Hst1.
  pose proof (is_full_zero_size b Hes) as Hb.
  pose proof (is_full_zero_size b1 ltac:(congruence)) as Hb1.
  change (getLengthOfMetadata b) with (get_start_of_data b) in Hb.
  change (getLengthOfMetadata b1) with (get_start_of_data b1) in Hb1.
  destruct (is_full b), (is_full b1); try done.
  - destruct Hb as [Hb _]. destruct Hb1 as [_ Hb1].
    apply Hb1. rewrite Hcap, Hst1. by apply Hb.
  - destruct Hb as [_ Hb]. destruct Hb1 as [Hb1 _].
    symmetry. apply Hb. rewrite <- Hcap, <- Hst1. by apply Hb1.
Qed.

Lemma push_back_all_zero_size values :
  (∀ l e, succeeds l e = true) →
  ∀ w h p b,
    deref w (Some h) = HValid h p b → wf_buffer b →
    vec_get_element_size b = 0 →
    ∃ w2 p2 b2 l,
      push_back_all succeeds relocates w (Some h) values = Ret 0 w2
      ∧ deref w2 (Some h) = HValid h p2 b2
      ∧ Meta.length (meta b2)
        = Meta.length (meta b) + Z.of_nat (length values)
      ∧ Meta.capacity (meta b2) = Meta.capacity (meta b)
      ∧ log w2 = log w ++ l
      ∧ (is_full b = true →
         length l = length values
         ∧ Forall (same_size_request (Meta.capacity (meta b))) l)
      ∧ (is_full b = false → l = []).
Proof.
  intros Hok. induction values as [|v values IH]; intros w h p b Hd Hwf Hes.
  - exists w, p, b, []. cbn [push_back_all length]. rewrite app_nil_r.
    split_and!; try done. lia.
  - destruct (vvectorPushBack_spec succeeds relocates w (Some h) h p b v
                Hd Hwf)
      as (w1 & p1 & b1 & Hpush & Hd1 & Hwf1 & Hlay & Hlen1 & _ & Hcap1 & Hlog1
          & _).
    { rewrite Hes. lia. }
    { intros _. destruct (grow_request_is_Some p b Hwf) as [e He].
      exists e. split; [done|apply Hok]. }
    assert (Hcap : Meta.capacity (meta b1) = Meta.capacity (meta b)).
    { rewrite Hcap1, Hes. destruct (is_full b); lia. }
    pose proof (same_layout_element_size b b1 Hlay) as Hes1.
    pose proof (is_full_same_layout b b1 Hes Hlay Hcap) as Hfull1.
    destruct (IH w1 h p1 b1 Hd1 Hwf1 ltac:(congruence))
      as (w2 & p2 & b2 & l & Hrun & Hd2 & Hlen2 & Hcap2 & Hlog2 & Hfull
          & Hroom).
    exists w2, p2, b2,
      ((if is_full b then option_list (grow_request p b) else []) ++ l).
    split_and!.
    + cbn [push_back_all]. rewrite Hpush. exact Hrun.
    + done.
    + rewrite Hlen2, Hlen1. cbn [length]. lia.
    + congruence.
    + by rewrite Hlog2, Hlog1, app_assoc.
    + intros Hb. rewrite Hb. rewrite Hfull1, Hcap in Hfull.
      destruct (Hfull Hb) as [Hl Hall].
      destruct (wf_realloc b Hwf) as [f Hf].
      destruct (wf_ctx b Hwf) as [c Hc].
      unfold grow_request. rewrite Hf, Hc. simpl.
      split; [by f_equal|].
      constructor; [|done]. unfold same_size_request, vec_get_capacity,
        get_meta. rewrite Hes. lia.
    + intros Hb. rewrite Hb. rewrite Hfull1 in Hroom.
      by rewrite (Hroom Hb).
Qed.

(** C10, amended: [vec_new_] rejects only a negative element size.
    With element size 0 and an allocator that grants every call it
    returns a valid container of length 0, and any sequence of
    [vvectorPushBack] calls with non-null values then returns 0 each
    time, the length ends as the number of values pushed, and the
    capacity never changes.  Without a descriptor the capacity is the
    size of the header, and every push makes one reallocation request
    for as many bytes as the buffer has: an increase by zero bytes.
    With a descriptor the capacity is the size of metadata and
    descriptor together, which is not the size the code takes for the
    header of this container, and the pushes make no request at
    all. *)
Theorem zero_element_size_container w allocator values :
  (∀ l e, succeeds l e = true) →
  (∀ d, allocator = Some d → is_Some (descs w !! d)) →
  (∀ sz, sz < 0 → vec_new_ succeeds w sz allocator = Ret None w)
  ∧ ∃ h p b w1,
      vec_new_ succeeds w 0 allocator = Ret (Some h) w1
      ∧ deref w1 (Some h) = HValid h p b
      ∧ Meta.length (meta b) = 0
      ∧ getLengthOfMetadata b = sizeof_vvectorMetadata_
      ∧ ∃ w2 p2 b2 l,
          push_back_all succeeds relocates w1 (Some h) values = Ret 0 w2
          ∧ deref w2 (Some h) = HValid h p2 b2
          ∧ Meta.length (meta b2) = Z.of_nat (length values)
          ∧ Meta.capacity (meta b2) = Meta.capacity (meta b)
          ∧ log w2 = log w1 ++ l
          ∧ (allocator = None →
             Meta.capacity (meta b) = getLengthOfMetadata b
             ∧ length l = length values
             ∧ Forall (same_size_request (getLengthOfMetadata b)) l)
          ∧ (allocator ≠ None →
             Meta.capacity (meta b)
             = sizeof_vvectorMetadata_ + sizeof_vvectorAlloc
             ∧ l = []).
Proof.
  intros Hok Hd. split.
  - intros sz Hsz. by apply vec_new__negative.
  - destruct (vec_new__returns succeeds w 0 allocator Hok ltac:(lia) Hd)
      as (h & w1 & Hnew).
    destruct (vec_new__inv succeeds w 0 allocator h w1 Hnew)
      as (_ & _ & _ & p & Hd1).
    pose proof (wf_created 0 (pointee w allocator) ltac:(lia)) as Hwf.
    assert (Hes : vec_get_element_size (created 0 (pointee w allocator)) = 0).
    { by destruct (pointee w allocator). }
    destruct (push_back_all_zero_size values Hok w1 h p _ Hd1 Hwf Hes)
      as (w2 & p2 & b2 & l & Hrun & Hd2 & Hlen2 & Hcap2 & Hlog2 & Hfull
          & Hroom).
    exists h, p, (created 0 (pointee w allocator)), w1.
    split; [done|]. split; [done|].
    split; [by destruct (pointee w allocator)|].
    split; [by destruct (pointee w allocator)|].
    exists w2, p2, b2, l. split; [done|]. split; [done|]. split.
    { rewrite Hlen2. by destruct (pointee w allocator). }
    split; [done|]. split; [done|]. split.
    + intros ->. change (pointee w None) with (@None vvectorAlloc) in *.
      split; [reflexivity|]. by apply Hfull.
    + intros Hsome. destruct allocator as [d|]; [|done].
      destruct (Hd d eq_refl) as [a Ha].
      unfold pointee in *. cbn [mbind option_bind] in *. rewrite Ha in *.
      split; [reflexivity|]. by apply Hroom.
Qed.


End Sequences.

(** * The claims on concrete containers *)

Lemma insert_then_remove_restores_witness :
  (∃ w1 w2 p2 b2,
     vvectorInsertValueAt always never two_world fresh_vec 1
       (Some (int_bytes 9)) = Ret 0 w1
     ∧ vvectorRemoveAt w1 fresh_vec 1 = Ret 0 w2
     ∧ deref w2 fresh_vec = HValid 2 p2 b2
     ∧ Meta.length (meta b2) = 2
     ∧ elements b2 = some_value ++ other_value)
  ∧ (∃ w1 w2 p2 b2,
       vvectorInsertValueAt always always full_page_world fresh_vec 5
         (Some (int_bytes 99)) = Ret 0 w1
       ∧ vvectorRemoveAt w1 fresh_vec 5 = Ret 0 w2
       ∧ deref w2 fresh_vec = HValid 2 p2 b2
       ∧ Meta.length (meta b2) = 32
       ∧ elements b2 = concat (int_bytes <$> seqZ 0 32)).
Proof.
  split.
  - destruct (insert_then_remove_restores always never two_world fresh_vec
                2 1 two_block 1 (int_bytes 9)
                ltac:(by vm_compute) ltac:(wf_by_vm 1)
                ltac:(by vm_compute) ltac:(by vm_compute)
                ltac:(intros Hfull; by vm_compute in Hfull))
      as (w1 & w2 & p2 & b2 & Hins & Hrem & Hd & Hlen & Hel).
    exists w1, w2, p2, b2. split; [exact Hins|]. split; [exact Hrem|].
    split; [exact Hd|].
    split; etrans; [exact Hlen|by vm_compute|exact Hel|by vm_compute].
  - destruct (insert_then_remove_restores always always full_page_world
                fresh_vec 2 1 full_page_block 5 (int_bytes 99)
                ltac:(by vm_compute) ltac:(wf_by_vm 1)
                ltac:(by vm_compute) ltac:(by vm_compute)
                ltac:(intros _;
                      exists (EvRealloc vvector_lib_realloc 1 280 152 0);
                      split; by vm_compute))
      as (w1 & w2 & p2 & b2 & Hins & Hrem & Hd & Hlen & Hel).
    exists w1, w2, p2, b2. split; [exact Hins|]. split; [exact Hrem|].
    split; [exact Hd|].
    split; etrans; [exact Hlen|by vm_compute|exact Hel|by vm_compute].
Defined.

Lemma shrink_to_fit_minimal_witness :
  vvectorShrinkToFit always never full_page_world fresh_vec
  = Ret 0 full_page_world
  ∧ ∃ w1 p1 b1,
      vvectorShrinkToFit always never spare_page_world fresh_vec = Ret 0 w1
      ∧ deref w1 fresh_vec = HValid 2 p1 b1
      ∧ wf_buffer b1
      ∧ nr_pages_available b1
        = Some (pages_needed (Meta.length (meta b1)) NR_ELEM_IN_PAGE)
      ∧ Meta.capacity (meta b1)
        = getLengthOfMetadata b1
          + pages_needed (Meta.length (meta b1)) NR_ELEM_IN_PAGE
            * NR_ELEM_IN_PAGE * vec_get_element_size b1
      ∧ Meta.length (meta b1) = 32
      ∧ elements b1 = concat (int_bytes <$> seqZ 0 32)
      ∧ vvector_debug_get_capacity spare_page_world fresh_vec = Some 280
      ∧ vvector_debug_get_capacity w1 fresh_vec = Some 152.
Proof.
  split.
  - exact (proj1 (shrink_to_fit_minimal always never full_page_world
                    fresh_vec 2 1 full_page_block ltac:(by vm_compute)
                    ltac:(wf_by_vm 1) ltac:(by vm_compute))
             ltac:(by vm_compute)).
  - destruct (proj2 (shrink_to_fit_minimal always never spare_page_world
                       fresh_vec 2 1 spare_page_block ltac:(by vm_compute)
                       ltac:(wf_by_vm 2) ltac:(by vm_compute))
                ltac:(by vm_compute)
                ltac:(exists (EvRealloc vvector_lib_realloc 1 152 280 0);
                      split; by vm_compute))
      as (w1 & p1 & b1 & Hrun & Hd & Hwf & Hpages & Hcap & Hlen & Hel).
    exists w1, p1, b1. split; [exact Hrun|]. split; [exact Hd|].
    split; [exact Hwf|]. split; [exact Hpages|]. split; [exact Hcap|].
    split; [etrans; [exact Hlen|by vm_compute]|].
    split; [etrans; [exact Hel|by vm_compute]|].
    split; [by vm_compute|].
    vm_compute in Hrun. injection Hrun as <-. by vm_compute.
Defined.

Lemma reserve_then_push_back_witness :
  vvectorReserve always never two_world fresh_vec (-1) = Ret 1 two_world
  ∧ ∃ p1 b1,
      deref roomy_world fresh_vec = HValid 2 p1 b1
      ∧ Meta.capacity (meta b1) = 408
      ∧ ∃ w2 b2,
          push_back_all always never roomy_world fresh_vec
            (int_bytes <$> seqZ 0 33) = Ret 0 w2
          ∧ log w2 = log roomy_world
          ∧ deref w2 fresh_vec = HValid 2 p1 b2
          ∧ Meta.length (meta b2) = 35.
Proof.
  split.
  - exact (proj1 (reserve_then_push_back always never two_world fresh_vec
                    2 1 two_block (-1) ltac:(by vm_compute)
                    ltac:(wf_by_vm 1) ltac:(by vm_compute))
             ltac:(by vm_compute)).
  - destruct (proj2 (reserve_then_push_back always never two_world fresh_vec
                       2 1 two_block 33 ltac:(by vm_compute)
                       ltac:(wf_by_vm 1) ltac:(by vm_compute))
                ltac:(by vm_compute) ltac:(by vm_compute) roomy_world
                ltac:(by vm_compute))
      as (p1 & b1 & Hd1 & Hcap & Hpush).
    exists p1, b1. split; [exact Hd1|].
    split; [etrans; [exact Hcap|by vm_compute]|].
    destruct (Hpush (int_bytes <$> seqZ 0 33)) as (w2 & b2 & Hrun & Hlog & Hd2
                                                   & Hlen).
    + by vm_compute.
    + apply Forall_fmap, Forall_forall. intros i _. by vm_compute.
    + exists w2, b2. split; [exact Hrun|]. split; [exact Hlog|].
      split; [exact Hd2|]. etrans; [exact Hlen|by vm_compute].
Defined.

(** Three ways in which [vvectorReserve] does not do what is said of
    it.  With elements of size zero the buffer is always exactly full,
    so a push after a successful [vvectorReserve] still calls the
    reallocate function.  With 4-byte elements and a count of [2 ^ 62]
    the size computed wraps around to the capacity the buffer has:
    [vvectorReserve] returns 0, the capacity is unchanged, and the next
    push calls the reallocate function.  And a negative count is
    answered with 1, the value [VEC_ENOVEC] that reports an invalid
    handle and a refused reallocation. *)
Lemma reserve_then_push_back_refuted :
  (∃ w1 w2,
     vvectorReserve always never (fresh_world 0) fresh_vec 1 = Ret 0 w1
     ∧ vvectorPushBack always never w1 fresh_vec (Some some_value) = Ret 0 w2
     ∧ log w2 = log w1 ++ [EvRealloc vvector_lib_realloc 1 24 24 0])
  ∧ (∃ w1 w2,
       vvectorReserve always never (fresh_world 4) fresh_vec (2 ^ 62)
       = Ret 0 w1
       ∧ vvector_debug_get_capacity (fresh_world 4) fresh_vec = Some 24
       ∧ vvector_debug_get_capacity w1 fresh_vec = Some 24
       ∧ log w1
         = log (fresh_world 4) ++ [EvRealloc vvector_lib_realloc 1 24 24 0]
       ∧ vvectorPushBack always never w1 fresh_vec (Some some_value)
         = Ret 0 w2
       ∧ log w2 = log w1 ++ [EvRealloc vvector_lib_realloc 1 152 24 0])
  ∧ (vvectorReserve always never (fresh_world 4) fresh_vec (-1)
     = Ret VEC_ENOVEC (fresh_world 4)
     ∧ vvectorReserve always never cleared_world fresh_vec 1
       = Ret VEC_ENOVEC cleared_world
     ∧ ∃ w1, vvectorReserve never never (fresh_world 4) fresh_vec 1
             = Ret VEC_ENOVEC w1).
Proof.
  split; [|split].
  - eexists _, _. split; [by vm_compute|]. split; by vm_compute.
  - eexists _, _. split; [by vm_compute|]. split; [by vm_compute|].
    split; [by vm_compute|]. split; [by vm_compute|]. split; by vm_compute.
  - split; [by vm_compute|]. split; [by vm_compute|].
    eexists. by vm_compute.
Qed.

Lemma zero_element_size_container_witness :
  (∀ sz, sz < 0 → vec_new_ always empty_world sz None = Ret None empty_world)
  ∧ (∃ h p b w1,
       vec_new_ always empty_world 0 None = Ret (Some h) w1
       ∧ deref w1 (Some h) = HValid h p b
       ∧ Meta.length (meta b) = 0
       ∧ getLengthOfMetadata b = 24
       ∧ ∃ w2 p2 b2 l,
           push_back_all always always w1 (Some h)
             [some_value; []; some_value] = Ret 0 w2
           ∧ deref w2 (Some h) = HValid h p2 b2
           ∧ Meta.length (meta b2) = 3
           ∧ Meta.capacity (meta b2) = 24
           ∧ log w2 = log w1 ++ l
           ∧ length l = 3%nat
           ∧ Forall (same_size_request 24) l)
  ∧ (∃ h p b w1,
       vec_new_ always caller_world 0 (Some 7%nat) = Ret (Some h) w1
       ∧ deref w1 (Some h) = HValid h p b
       ∧ Meta.length (meta b) = 0
       ∧ getLengthOfMetadata b = 24
       ∧ ∃ w2 p2 b2,
           push_back_all always always w1 (Some h)
             [some_value; []; some_value] = Ret 0 w2
           ∧ deref w2 (Some h) = HValid h p2 b2
           ∧ Meta.length (meta b2) = 3
           ∧ Meta.capacity (meta b2) = 56
           ∧ log w2 = log w1).
Proof.
  destruct (zero_element_size_container always always empty_world None
              [some_value; []; some_value] ltac:(done)
              ltac:(intros d Hd; discriminate Hd))
    as (Hneg & h & p & b & w1 & Hnew & Hd & Hlen & Hmeta & w2 & p2 & b2 & l
        & Hrun & Hd2 & Hlen2 & Hcap2 & Hlog & Hnone & _).
  destruct (Hnone eq_refl) as (Hcap & Hl & Hall).
  split; [exact Hneg|]. split.
  { exists h, p, b, w1. split; [exact Hnew|]. split; [exact Hd|].
    split; [exact Hlen|]. split; [exact Hmeta|]. exists w2, p2, b2, l.
    split; [exact Hrun|]. split; [exact Hd2|]. split; [exact Hlen2|].
    split; [by rewrite Hcap2, Hcap, Hmeta|]. split; [exact Hlog|].
    split; [exact Hl|]. by rewrite Hmeta in Hall. }
  clear.
  destruct (zero_element_size_container always always caller_world
              (Some 7%nat) [some_value; []; some_value] ltac:(done)
              ltac:(intros d [= <-]; by eexists))
    as (_ & h & p & b & w1 & Hnew & Hd & Hlen & Hmeta & w2 & p2 & b2 & l
        & Hrun & Hd2 & Hlen2 & Hcap2 & Hlog & _ & Hsome).
  destruct (Hsome ltac:(done)) as (Hcap & ->).
  exists h, p, b, w1. split; [exact Hnew|]. split; [exact Hd|].
  split; [exact Hlen|]. split; [exact Hmeta|]. exists w2, p2, b2.
  split; [exact Hrun|]. split; [exact Hd2|]. split; [exact Hlen2|].
  split; [by rewrite Hcap2, Hcap|]. by rewrite Hlog, app_nil_r.
Defined.

(** Created with element size 0 and a descriptor, the buffer is never
    full: its capacity, 56, is not the 24 that the code takes for the
    header when the element size it stored is not negative.  A push
    then stores without any grow step, and no reallocation is
    requested. *)
Lemma zero_size_with_descriptor_no_grow_step :
  ∃ p b w2 p2 b2,
    vec_new_ always caller_world 0 (Some 7%nat)
    = Ret fresh_vec caller_zero_world
    ∧ deref caller_zero_world fresh_vec = HValid 2 p b
    ∧ Meta.capacity (meta b) = 56
    ∧ getLengthOfMetadata b = 24
    ∧ is_full b = false
    ∧ add_page_if_needed always never caller_zero_world 2
      = Ret 0 caller_zero_world
    ∧ vvectorPushBack always never caller_zero_world fresh_vec
        (Some some_value) = Ret 0 w2
    ∧ log w2 = log caller_zero_world
    ∧ deref w2 fresh_vec = HValid 2 p2 b2
    ∧ Meta.length (meta b2) = 1
    ∧ Meta.capacity (meta b2) = 56.
Proof.
  eexists _, _, _, _, _. split; [by vm_compute|]. split; [by vm_compute|].
  split; [by vm_compute|]. split; [by vm_compute|]. split; [by vm_compute|].
  split; [by vm_compute|]. split; [by vm_compute|]. split; [by vm_compute|].
  split; [by vm_compute|]. split; by vm_compute.
Qed.


